(** * The WiredTiger KV engine control plane (wiredtiger_kv_engine.cpp)

    A shallow embedding of the parts of
    [src/mongo/db/storage/wiredtiger/wiredtiger_kv_engine.cpp] that decide
    checkpoint selection, the first-stable trigger, timestamp clamping, the
    ident-drop queue, recover-to-stable gating, the downgrade decision and
    the S3 hot-backup emptiness check.

    Conventions.
    - A [Timestamp] is its 64-bit [asULL()] value, an [N]; the code only
      compares, copies and prints timestamps, it never does arithmetic on
      them, so no wrap-around arises.
    - The storage core (WT_SESSION / WT_CONNECTION calls) is an oracle that
      maps the history of calls made so far and the current call to a
      return code.  Every call is appended to the history together with the
      code it returned, so "what was pushed to the storage core" and "no
      call was made" are statements about the history.
    - A failed [invariant] / [fassert] terminates the process: the monad's
      [Aborts] outcome, which keeps the state reached at that point.
    - [Status] values are modelled by their error code; the reason strings
      are not. *)

From Stdlib Require Import ZArith NArith List String Bool Lia Permutation HexString.
Import ListNotations.
Local Open Scope list_scope.

(* ------------------------------------------------------------------ *)
(** ** Scalars, error codes *)

(** Modelled from the spec: the class [Timestamp] is declared in
    timestamp.h, which is not among the sources.  The spec: "a 64-bit
    unsigned value (two concatenated 32-bit components; opaque ordering,
    higher is newer)".  A timestamp is represented by that 64-bit value,
    which is what [asULL()] returns and what the atomics of the checkpoint
    worker hold; timestamps are compared as these values. *)
Definition Timestamp := N.

(** Modelled from the spec: [Timestamp::isNull()] is declared in
    timestamp.h, which is not among the sources.  Of the "two concatenated
    32-bit components" the upper one holds the seconds and the lower one
    the increment; a timestamp is null when its seconds are 0, whatever the
    increment.  So [isNull] is not the comparison with [Timestamp()], the
    all-zero timestamp, and the code keeps the two apart:
    [setOldestTimestamp] compares with [Timestamp()] where the other
    functions ask [isNull()]. *)
Definition isNull (t : Timestamp) : bool := (t / 4294967296 =? 0)%N.

(** [std::numeric_limits<uint64_t>::max()]. *)
Definition uint64_max : N := 18446744073709551615%N.

(** Modelled from the spec: [Timestamp::kAllowUnstableCheckpointsSentinel]
    is declared in timestamp.h, which is not part of the sources at hand.
    The spec gives "initial_data = 1 is the sentinel", and the comment in
    [run] names it [Timestamp(0, 1)], whose [asULL()] is 1. *)
Definition kAllowUnstableCheckpointsSentinel : N := 1%N.

(** The values <errno.h> gives, on Linux, to the two codes [dropIdent]
    and the reaper recognise. *)
Definition ENOENT : Z := 2%Z.
Definition EBUSY : Z := 16%Z.

(** The members of [ErrorCodes] the file names. *)
Inductive ErrorCodes :=
| OK
| BadValue
| InternalError
| InvalidPath
| ShutdownInProgress
| ExceededMemoryLimit
| DataModifiedByRepair
| UnrecoverableRollbackError.

Definition Status := ErrorCodes.

Definition isOK (s : Status) : bool :=
  match s with OK => true | _ => false end.

(** Modelled from the spec: [ErrorCodes::isShutdownError] comes from the
    generated error_codes.h, which is absent; the spec speaks of
    "shutdown-class errors", of which the file names ShutdownInProgress. *)
Definition isShutdownError (c : ErrorCodes) : bool :=
  match c with ShutdownInProgress => true | _ => false end.

(** The [%llx] conversion of [snprintf]: lower-case hexadecimal, no prefix,
    no padding. *)
Definition llx (n : N) : string :=
  match n with
  | N0 => "0"%string
  | Npos p => HexString.Raw.of_pos p ""%string
  end.

(* ------------------------------------------------------------------ *)
(** ** Calls into the storage core and the session cache *)

Inductive Target := MainDB | KeysDB.

Inductive Call :=
| session_drop (uri config : string)
| session_checkpoint (db : Target) (config : string)
| conn_set_timestamp (config : string)
| conn_rollback_to_stable
| ru_closeAllCursors (uri : string)
| sessionCache_closeAllCursors (uri : string)
| sessionCache_closeCursorsForQueuedDrops
| sizeStorer_flush (sync : bool)
| condvar_notify_one.

(** An event of the history: a call and the code it returned. *)
Abbreviation Event := (Call * Z)%type.

(** The storage core as an oracle: the return code of a call is a function
    of everything that was called before and of the call itself. *)
Definition StorageCore := list Event -> Call -> Z.

(** Exceptions the background workers catch. *)
Inductive Exn :=
| WriteConflictException
| AssertionException (code : ErrorCodes).

(** How a process-level computation can stop short of returning. *)
Inductive Fault :=
| InvariantFailure
| FassertFailed (code : N)
| NullDereference
| Thrown (e : Exn).

(* ------------------------------------------------------------------ *)
(** ** A state monad with abort *)

Record World (St : Type) := mkWorld { state : St; history : list Event }.
Arguments mkWorld {St} _ _.
Arguments state {St} _.
Arguments history {St} _.

Inductive Outcome (St A : Type) :=
| Returns (a : A) (w : World St)
| Aborts (f : Fault) (w : World St).
Arguments Returns {St A} _ _.
Arguments Aborts {St A} _ _.

Definition M (St A : Type) := World St -> Outcome St A.

Definition ret {St A} (a : A) : M St A := fun w => Returns a w.

Definition bind {St A B} (c : M St A) (k : A -> M St B) : M St B :=
  fun w => match c w with
           | Returns a w' => k a w'
           | Aborts f w' => Aborts f w'
           end.

Notation "x <- c ;; k" := (bind c (fun x => k))
  (at level 61, c at next level, right associativity).
Notation "c ;;; k" := (bind c (fun _ => k))
  (at level 61, right associativity).

Definition abort {St A} (f : Fault) : M St A := fun w => Aborts f w.

Definition gets {St A} (f : St -> A) : M St A :=
  fun w => Returns (f (state w)) w.

Definition modify {St} (f : St -> St) : M St unit :=
  fun w => Returns tt (mkWorld (f (state w)) (history w)).

(** A call whose return code the storage core decides. *)
Definition call {St} (wt : StorageCore) (c : Call) : M St Z :=
  fun w => let rc := wt (history w) c in
           Returns rc (mkWorld (state w) (history w ++ [(c, rc)])).

(** A call without a result ([void]); it is only recorded. *)
Definition note {St} (c : Call) : M St unit :=
  fun w => Returns tt (mkWorld (state w) (history w ++ [(c, 0%Z)])).

(** The calls made so far, for an oracle to be asked. *)
Definition past {St} : M St (list Event) :=
  fun w => Returns (history w) w.

(** Modelled from the spec: the macro [invariantWTOK] is defined in
    wiredtiger_util.h, which is absent.  The spec: "unrecognized non-zero
    storage-core returns are fatal via invariant". *)
Definition invariantWTOK {St} (rc : Z) : M St unit :=
  if (rc =? 0)%Z then ret tt else abort InvariantFailure.

(** The world an outcome ends in, whichever way it ends. *)
Definition final {St A} (o : Outcome St A) : World St :=
  match o with Returns _ w => w | Aborts _ w => w end.

(** The events recorded after a history [h] by a run that started there. *)
Definition events_since {St} (h : list Event) (w : World St) : list Event :=
  skipn (List.length h) (history w).

(* ------------------------------------------------------------------ *)
(** ** WiredTigerFileVersion *)

Module WiredTigerFileVersion.

Inductive StartupVersion := IS_34 | IS_36 | IS_40.

(** Modelled from the spec: the enumeration
    [ServerGlobalParams::FeatureCompatibility::Version] is declared in
    server_options.h, which is not among the sources.  The function names
    only [kFullyDowngradedTo36] (the spec's "FCV is fully downgraded"); the
    other members stand for the remaining states of the version. *)
Inductive Version :=
| kUnsetDefault36Behavior
| kFullyDowngradedTo36
| kDowngradingTo36
| kUpgradingTo40
| kFullyUpgradedTo40.

Definition Version_eqb (a b : Version) : bool :=
  match a, b with
  | kUnsetDefault36Behavior, kUnsetDefault36Behavior
  | kFullyDowngradedTo36, kFullyDowngradedTo36
  | kDowngradingTo36, kDowngradingTo36
  | kUpgradingTo40, kUpgradingTo40
  | kFullyUpgradedTo40, kFullyUpgradedTo40 => true
  | _, _ => false
  end.

(** What [shouldDowngrade] reads from process-wide singletons: the
    replication coordinator's member state, the feature compatibility
    version and the replication settings. *)
Record ServerGlobals := {
  memberState_arbiter : bool;
  featureCompatibility_isVersionInitialized : bool;
  featureCompatibility_getVersion : Version;
  replSettings_usingReplSets : bool
}.

Definition StartupVersion_eqb (a b : StartupVersion) : bool :=
  match a, b with
  | IS_34, IS_34 | IS_36, IS_36 | IS_40, IS_40 => true
  | _, _ => false
  end.

Definition shouldDowngrade (g : ServerGlobals) (_startupVersion : StartupVersion)
    (readOnly repairMode hasRecoveryTimestamp : bool) : bool :=
  if readOnly then false
  else if memberState_arbiter g then true
  else if negb (featureCompatibility_isVersionInitialized g) then
    StartupVersion_eqb _startupVersion IS_36 || StartupVersion_eqb _startupVersion IS_34
  else if negb (Version_eqb (featureCompatibility_getVersion g) kFullyDowngradedTo36) then
    false
  else if replSettings_usingReplSets g then true
  else if hasRecoveryTimestamp then false
  else true.

End WiredTigerFileVersion.

(* ------------------------------------------------------------------ *)
(** ** WiredTigerCheckpointThread *)

Module WiredTigerCheckpointThread.

Record t := mk {
  _shuttingDown : bool;
  _stableTimestamp : N;
  _initialDataTimestamp : N;
  _firstStableCheckpointTaken : bool;
  _lastStableCheckpointTimestamp : N
}.

(** The constructor: both timestamps start at 0, the one-shot flag is off;
    the last-stable-checkpoint word is default-initialised. *)
Definition create : t := mk false 0 0 false 0.

(** [setStableTimestamp]; the boolean tells whether [_condvar.notify_one()]
    was reached. *)
Definition setStableTimestamp (ct : t) (stableTimestamp : Timestamp) : t * bool :=
  let prevStable := _stableTimestamp ct in
  let ct1 := mk (_shuttingDown ct) stableTimestamp (_initialDataTimestamp ct)
                (_firstStableCheckpointTaken ct) (_lastStableCheckpointTimestamp ct) in
  if _firstStableCheckpointTaken ct1 then (ct1, false)
  else
    let initialData := _initialDataTimestamp ct1 in
    if ((prevStable <? initialData) && (initialData <=? stableTimestamp))%N then
      (mk (_shuttingDown ct1) (_stableTimestamp ct1) (_initialDataTimestamp ct1)
          true (_lastStableCheckpointTimestamp ct1), true)
    else (ct1, false).

Definition setInitialDataTimestamp (ct : t) (initialDataTimestamp : Timestamp) : t :=
  mk (_shuttingDown ct) (_stableTimestamp ct) initialDataTimestamp
     (_firstStableCheckpointTaken ct) (_lastStableCheckpointTimestamp ct).

Definition getInitialDataTimestamp (ct : t) : N := _initialDataTimestamp ct.
Definition getStableTimestamp (ct : t) : N := _stableTimestamp ct.
Definition getLastStableCheckpointTimestamp (ct : t) : N :=
  _lastStableCheckpointTimestamp ct.

Definition store_lastStableCheckpointTimestamp (v : N) (ct : t) : t :=
  mk (_shuttingDown ct) (_stableTimestamp ct) (_initialDataTimestamp ct)
     (_firstStableCheckpointTaken ct) v.

(** [shutdown()]: raise the flag, notify, join. *)
Definition shutdown (ct : t) : t :=
  mk true (_stableTimestamp ct) (_initialDataTimestamp ct)
     (_firstStableCheckpointTaken ct) (_lastStableCheckpointTimestamp ct).

(** [canRecoverToStableTimestamp]: [None] when the invariant on the
    initial-data timestamp fails. *)
Definition canRecoverToStableTimestamp (ct : t) : option bool :=
  let allowUnstableCheckpointsSentinel := kAllowUnstableCheckpointsSentinel in
  let initialDataTimestamp := _initialDataTimestamp ct in
  if (allowUnstableCheckpointsSentinel <? initialDataTimestamp)%N
  then Some (initialDataTimestamp <=? _stableTimestamp ct)%N
  else None.

(** The two mutators other threads apply to the worker's atomics. *)
Inductive Op :=
| op_setStableTimestamp (ts : Timestamp)
| op_setInitialDataTimestamp (ts : Timestamp).

(** One mutator call: the new state and whether it woke the worker. *)
Definition apply_op (ct : t) (o : Op) : t * bool :=
  match o with
  | op_setStableTimestamp ts => setStableTimestamp ct ts
  | op_setInitialDataTimestamp ts => (setInitialDataTimestamp ct ts, false)
  end.

(** A sequence of mutator calls, with the number of wake-ups it produced. *)
Fixpoint apply_ops (ct : t) (ops : list Op) : t * nat :=
  match ops with
  | [] => (ct, 0)
  | o :: ops' =>
      let '(ct1, woke) := apply_op ct o in
      let '(ct2, n) := apply_ops ct1 ops' in
      (ct2, (if woke then 1 else 0) + n)
  end.

(** What other threads do to the worker while one iteration of [run]
    executes: between the load of the stable timestamp and the load of the
    initial-data timestamp, between that and the second load of the stable
    timestamp in the last branch, and while the checkpoint call blocks. *)
Record Schedule := {
  after_stable_load : list Op;
  before_second_load : list Op;
  during_checkpoint : list Op
}.

Definition interfere (ops : list Op) : M t unit :=
  modify (fun ct => fst (apply_ops ct ops)).

Section Run.
(** [serverGlobalParams.enableMajorityReadConcern]. *)
Variable enableMajorityReadConcern : bool.
(** Whether [getEncryptionKeyDB()] is non-null. *)
Variable encryptionKeyDB : bool.
Variable wt : StorageCore.
(** [_sessionCache->getSession()]: either a session, or an exception
    (the spec: the session cache may report shutdown-in-progress). *)
Variable sessionCache_getSession : list Event -> option Exn.
Variable sched : Schedule.

Definition getSession : M t unit :=
  fun w => match sessionCache_getSession (history w) with
           | None => Returns tt w
           | Some e => Aborts (Thrown e) w
           end.

(** The body of the [try] block. *)
Definition run_try (stableTimestamp initialDataTimestamp : Timestamp) : M t unit :=
  (if (initialDataTimestamp <=? 1)%N then
     getSession ;;;
     rc <- call wt (session_checkpoint MainDB "use_timestamp=false") ;;
     invariantWTOK rc
   else if negb enableMajorityReadConcern then
     getSession ;;;
     rc <- call wt (session_checkpoint MainDB "use_timestamp=false") ;;
     invariantWTOK rc ;;;
     modify (store_lastStableCheckpointTimestamp uint64_max)
   else if (stableTimestamp <? initialDataTimestamp)%N then
     ret tt
   else
     interfere (before_second_load sched) ;;;
     stableTimestamp' <- gets _stableTimestamp ;;
     getSession ;;;
     rc <- call wt (session_checkpoint MainDB "use_timestamp=true") ;;
     interfere (during_checkpoint sched) ;;;
     invariantWTOK rc ;;;
     modify (store_lastStableCheckpointTimestamp stableTimestamp')) ;;;
  (if encryptionKeyDB then
     rc <- call wt (session_checkpoint KeysDB "use_timestamp=false") ;;
     invariantWTOK rc
   else ret tt).

(** The two [catch] clauses. *)
Definition run_catch (body : M t unit) : M t unit :=
  fun w => match body w with
           | Aborts (Thrown WriteConflictException) w' => Returns tt w'
           | Aborts (Thrown (AssertionException c)) w' =>
               if isShutdownError c then Returns tt w'
               else Aborts InvariantFailure w'
           | o => o
           end.

(** One iteration of the [while] loop of [run], after the wait. *)
Definition run_iteration : M t unit :=
  stableTimestamp <- gets _stableTimestamp ;;
  interfere (after_stable_load sched) ;;;
  initialDataTimestamp <- gets _initialDataTimestamp ;;
  run_catch (run_try stableTimestamp initialDataTimestamp).

End Run.

End WiredTigerCheckpointThread.


(* ------------------------------------------------------------------ *)
(** ** WiredTigerJournalFlusher *)

Module WiredTigerJournalFlusher.

Record t := mk { _shuttingDown : bool }.

Definition create : t := mk false.

Definition shutdown (j : t) : t := mk true.

End WiredTigerJournalFlusher.

(* ------------------------------------------------------------------ *)
(** ** WiredTigerKVEngine *)

Module WiredTigerKVEngine.

Module CT := WiredTigerCheckpointThread.
Module JF := WiredTigerJournalFlusher.

(** The members the modelled functions touch, followed by what they read
    from collaborators: the fail point [WTPreserveSnapshotHistoryIndefinitely],
    the oplog manager's read timestamp and the snapshot manager's local
    snapshot. *)
Record t := mk {
  _durable : bool;
  _ephemeral : bool;
  _inRepairMode : bool;
  _readOnly : bool;
  _keepDataHistory : bool;
  _recoveryTimestamp : Timestamp;
  _oldestTimestamp : N;
  _identToDrop : list string;
  _checkpointThread : option CT.t;
  _journalFlusher : option JF.t;
  _sizeStorer : bool;
  WTPreserveSnapshotHistoryIndefinitely : bool;
  getOplogReadTimestamp : N;
  getLocalSnapshot : option Timestamp
}.

Definition with_identToDrop (q : list string) (e : t) : t :=
  mk (_durable e) (_ephemeral e) (_inRepairMode e) (_readOnly e) (_keepDataHistory e)
     (_recoveryTimestamp e) (_oldestTimestamp e) q (_checkpointThread e)
     (_journalFlusher e) (_sizeStorer e) (WTPreserveSnapshotHistoryIndefinitely e)
     (getOplogReadTimestamp e) (getLocalSnapshot e).

Definition with_oldestTimestamp (v : N) (e : t) : t :=
  mk (_durable e) (_ephemeral e) (_inRepairMode e) (_readOnly e) (_keepDataHistory e)
     (_recoveryTimestamp e) v (_identToDrop e) (_checkpointThread e)
     (_journalFlusher e) (_sizeStorer e) (WTPreserveSnapshotHistoryIndefinitely e)
     (getOplogReadTimestamp e) (getLocalSnapshot e).

Definition with_checkpointThread (c : option CT.t) (e : t) : t :=
  mk (_durable e) (_ephemeral e) (_inRepairMode e) (_readOnly e) (_keepDataHistory e)
     (_recoveryTimestamp e) (_oldestTimestamp e) (_identToDrop e) c
     (_journalFlusher e) (_sizeStorer e) (WTPreserveSnapshotHistoryIndefinitely e)
     (getOplogReadTimestamp e) (getLocalSnapshot e).

Definition with_journalFlusher (j : option JF.t) (e : t) : t :=
  mk (_durable e) (_ephemeral e) (_inRepairMode e) (_readOnly e) (_keepDataHistory e)
     (_recoveryTimestamp e) (_oldestTimestamp e) (_identToDrop e) (_checkpointThread e)
     j (_sizeStorer e) (WTPreserveSnapshotHistoryIndefinitely e)
     (getOplogReadTimestamp e) (getLocalSnapshot e).

Definition with_sizeStorer (s : bool) (e : t) : t :=
  mk (_durable e) (_ephemeral e) (_inRepairMode e) (_readOnly e) (_keepDataHistory e)
     (_recoveryTimestamp e) (_oldestTimestamp e) (_identToDrop e) (_checkpointThread e)
     (_journalFlusher e) s (WTPreserveSnapshotHistoryIndefinitely e)
     (getOplogReadTimestamp e) (getLocalSnapshot e).

Definition _uri (ident : string) : string := ("table:" ++ ident)%string.

(** [size_t] to [int]: reduction modulo [2^32] into the signed range. *)
Definition to_int (z : Z) : Z := ((z + 2147483648) mod 4294967296 - 2147483648)%Z.

(** [int tenPercentQueue = numInQueue * 0.1]: the product is formed in
    [double] and truncated towards zero.  The double nearest to 0.1 exceeds
    0.1 by less than 6e-18, so for an [int] the truncated product is the
    integer quotient by 10. *)
Definition tenPercent (numInQueue : Z) : Z := Z.quot numInQueue 10.

Definition dropConfig : string := "force,checkpoint_wait=false".

Section Engine.
Variable wt : StorageCore.
(** What a flush of the size storer throws, if it throws: a function of the
    calls made before it and of its [sync] argument. *)
Variable flush_throws : list Event -> bool -> option Exn.

Definition dropIdent (ident : string) : M t Status :=
  let uri := _uri ident in
  note (ru_closeAllCursors uri) ;;;
  note (sessionCache_closeAllCursors uri) ;;;
  rc <- call wt (session_drop uri dropConfig) ;;
  if (rc =? 0)%Z then ret OK
  else if (rc =? EBUSY)%Z then
    modify (fun e => with_identToDrop (uri :: _identToDrop e) e) ;;;
    note sessionCache_closeCursorsForQueuedDrops ;;;
    ret OK
  else if (rc =? ENOENT)%Z then ret OK
  else invariantWTOK rc ;;; ret OK.

(** The [for] loop of [dropSomeQueuedIdents]; [n] iterations remain. *)
Fixpoint dropSomeQueuedIdents_loop (n : nat) : M t unit :=
  match n with
  | O => ret tt
  | S n' =>
      q <- gets _identToDrop ;;
      match q with
      | [] => ret tt
      | uri :: rest =>
          modify (with_identToDrop rest) ;;;
          rc <- call wt (session_drop uri dropConfig) ;;
          (if (rc =? EBUSY)%Z
           then modify (fun e => with_identToDrop (_identToDrop e ++ [uri]) e)
           else invariantWTOK rc) ;;;
          dropSomeQueuedIdents_loop n'
      end
  end.

Definition numToDelete_of (numInQueue : Z) : Z :=
  let tenPercentQueue := tenPercent numInQueue in
  if (10 <? tenPercentQueue)%Z then tenPercentQueue else 10%Z.

Definition dropSomeQueuedIdents : M t unit :=
  numInQueue <- gets (fun e => to_int (Z.of_nat (List.length (_identToDrop e)))) ;;
  dropSomeQueuedIdents_loop (Z.to_nat (numToDelete_of numInQueue)).

Definition setOldestTimestamp (oldestTimestamp : Timestamp) (force : bool) : M t unit :=
  failpoint <- gets WTPreserveSnapshotHistoryIndefinitely ;;
  if failpoint then ret tt
  else if (oldestTimestamp =? 0)%N then ret tt
  else
    oplogReadTimestamp <- gets getOplogReadTimestamp ;;
    let oldestTimestamp1 :=
      if negb force && negb (isNull oplogReadTimestamp)
         && (oplogReadTimestamp <? oldestTimestamp)%N
      then oplogReadTimestamp else oldestTimestamp in
    localSnapshotTimestamp <- gets getLocalSnapshot ;;
    let oldestTimestamp2 :=
      match localSnapshotTimestamp with
      | Some l => if negb force && (l <? oldestTimestamp1)%N then l else oldestTimestamp1
      | None => oldestTimestamp1
      end in
    let oldestTSConfigString :=
      if force
      then ("force=true,oldest_timestamp=" ++ llx oldestTimestamp2
            ++ ",commit_timestamp=" ++ llx oldestTimestamp2)%string
      else ("oldest_timestamp=" ++ llx oldestTimestamp2)%string in
    rc <- call wt (conn_set_timestamp oldestTSConfigString) ;;
    invariantWTOK rc ;;;
    if force then modify (with_oldestTimestamp oldestTimestamp2)
    else
      cur <- gets _oldestTimestamp ;;
      if (cur <? oldestTimestamp2)%N
      then modify (with_oldestTimestamp oldestTimestamp2)
      else ret tt.

(** [_checkpointThread->setStableTimestamp(ts)] on the engine's worker,
    recording the wake-up when one is sent. *)
Definition checkpointThread_setStableTimestamp (c : CT.t) (ts : Timestamp) : M t unit :=
  let '(c', woke) := CT.setStableTimestamp c ts in
  modify (with_checkpointThread (Some c')) ;;;
  if woke then note condvar_notify_one else ret tt.

Definition setStableTimestamp (stableTimestamp : Timestamp) : M t unit :=
  keep <- gets _keepDataHistory ;;
  if negb keep then ret tt
  else if isNull stableTimestamp then ret tt
  else
    rc <- call wt (conn_set_timestamp ("stable_timestamp=" ++ llx stableTimestamp)%string) ;;
    invariantWTOK rc ;;;
    worker <- gets _checkpointThread ;;
    match worker with
    | Some c => checkpointThread_setStableTimestamp c stableTimestamp
    | None => ret tt
    end ;;;
    setOldestTimestamp stableTimestamp false.

Definition setInitialDataTimestamp (initialDataTimestamp : Timestamp) : M t unit :=
  worker <- gets _checkpointThread ;;
  match worker with
  | Some c =>
      modify (with_checkpointThread (Some (CT.setInitialDataTimestamp c initialDataTimestamp)))
  | None => ret tt
  end.

Definition supportsRecoverToStableTimestamp (e : t) : bool :=
  if _ephemeral e || negb (_keepDataHistory e) then false else true.

(** [syncSizeInfo]: nothing without a size storer, else a flush.  A
    [WriteConflictException] of the flush is ignored; an
    [AssertionException] is thrown on, unless the engine is not durable and
    the code is ExceededMemoryLimit. *)
Definition syncSizeInfo (sync : bool) : M t unit :=
  present <- gets _sizeStorer ;;
  if negb present then ret tt
  else
    h <- past ;;
    note (sizeStorer_flush sync) ;;;
    match flush_throws h sync with
    | None => ret tt
    | Some WriteConflictException => ret tt
    | Some (AssertionException code) =>
        durable <- gets _durable ;;
        if negb durable && match code with ExceededMemoryLimit => true | _ => false end
        then ret tt
        else abort (Thrown (AssertionException code))
    end.

(** [StatusWith<Timestamp>]: an error status or a timestamp. *)
Definition recoverToStableTimestamp : M t (Status + Timestamp) :=
  e <- gets (fun e => e) ;;
  if negb (supportsRecoverToStableTimestamp e) then abort (FassertFailed 50665)
  else
    match _checkpointThread e with
    | None => abort NullDereference
    | Some c =>
        match CT.canRecoverToStableTimestamp c with
        | None => abort InvariantFailure
        | Some false => ret (inl UnrecoverableRollbackError)
        | Some true =>
            syncSizeInfo true ;;;
            match _journalFlusher e with
            | None => abort NullDereference
            | Some j => modify (with_journalFlusher (Some (JF.shutdown j)))
            end ;;;
            modify (with_checkpointThread (Some (CT.shutdown c))) ;;;
            note condvar_notify_one ;;;
            let stableTimestamp := CT.getStableTimestamp c in
            let initialDataTimestamp := CT.getInitialDataTimestamp c in
            rc <- call wt conn_rollback_to_stable ;;
            if negb (rc =? 0)%Z then ret (inl UnrecoverableRollbackError)
            else
              modify (with_journalFlusher (Some JF.create)) ;;;
              checkpointThread_setStableTimestamp
                (CT.setInitialDataTimestamp CT.create initialDataTimestamp)
                stableTimestamp ;;;
              modify (with_sizeStorer true) ;;;
              ret (inr stableTimestamp)
        end
    end.

Definition getLastStableCheckpointTimestamp : M t (option Timestamp) :=
  e <- gets (fun e => e) ;;
  if negb (supportsRecoverToStableTimestamp e) then abort (FassertFailed 50770)
  else
    match _checkpointThread e with
    | None => abort NullDereference
    | Some c =>
        let r := CT.getLastStableCheckpointTimestamp c in
        if negb (r =? 0)%N then ret (Some r)
        else if negb (isNull (_recoveryTimestamp e)) then ret (Some (_recoveryTimestamp e))
        else ret None
    end.

(** A sequence of [dropIdent] calls, with the statuses they returned. *)
Fixpoint dropIdents (idents : list string) : M t (list Status) :=
  match idents with
  | [] => ret []
  | i :: rest =>
      s <- dropIdent i ;;
      ss <- dropIdents rest ;;
      ret (s :: ss)
  end.

End Engine.

End WiredTigerKVEngine.


(* ------------------------------------------------------------------ *)
(** ** Hot backup to S3-compatible storage *)

Module S3Backup.

Record S3BackupParameters := {
  endpoint : string;
  scheme : string;
  region : string;
  profile : string;
  bucket : string;
  path : string;
  useVirtualAddressing : bool
}.

(** [FileTuple]: source file, destination file, size to copy. *)
Definition FileTuple : Type := string * string * N.

Record PutObjectRequest := {
  put_Bucket : string;
  put_Key : string;
  put_ContentLength : N;
  put_ContentType : string;
  put_Body : string
}.

Inductive Request :=
| ListBuckets
| CreateBucket (b : string)
| ListObjects (b : string) (prefix : option string)
| PutObject (r : PutObjectRequest).

(** The S3 client as an oracle over the requests sent so far.  [None] and
    [false] stand for an outcome whose [IsSuccess()] is false; a list is
    the bucket names, respectively the object keys, of a successful
    listing. *)
Record S3Client := {
  ListBuckets_result : list Request -> option (list string);
  CreateBucket_result : list Request -> string -> bool;
  ListObjects_result : list Request -> string -> option string -> option (list string);
  PutObject_result : list Request -> PutObjectRequest -> bool
}.

Section HotBackup.
Variable s3_client : S3Client.
(** Whether [Aws::MakeShared<Aws::FStream>] yields a non-null pointer. *)
Variable fileToUpload : string -> bool.

(** The upload loop; [sent] is the list of requests sent so far. *)
Fixpoint upload (b : string) (filesList : list FileTuple) (sent : list Request)
    : Status * list Request :=
  match filesList with
  | [] => (OK, sent)
  | (srcFile, destFile, fsize) :: rest =>
      let request := {| put_Bucket := b; put_Key := destFile;
                        put_ContentLength := fsize;
                        put_ContentType := "application/octet-stream";
                        put_Body := srcFile |} in
      if negb (fileToUpload srcFile) then (InvalidPath, sent)
      else
        let sent' := sent ++ [PutObject request] in
        if negb (PutObject_result s3_client sent request) then (InternalError, sent')
        else upload b rest sent'
  end.

(** The emptiness check of the target location: the first key that is not
    the directory marker makes the backup fail. *)
Fixpoint target_is_empty (root : string) (object_list : list string) : bool :=
  match object_list with
  | [] => true
  | key :: rest => if negb (String.eqb key root) then false else target_is_empty root rest
  end.

(** [hotBackup(opCtx, s3params)]; [populated] is what
    [_hotBackupPopulateLists] returned: its status and the files list it
    filled.  The result is the status together with the requests sent. *)
Definition hotBackup (populated : Status * list FileTuple) (s3params : S3BackupParameters)
    : Status * list Request :=
  let '(status, filesList) := populated in
  if negb (isOK status) then (status, [])
  else
    match ListBuckets_result s3_client [] with
    | None => (InternalError, [ListBuckets])
    | Some buckets =>
        let sent1 := [ListBuckets] in
        let bucketExists := existsb (fun name => String.eqb name (bucket s3params)) buckets in
        let created :=
          if negb bucketExists then
            (CreateBucket_result s3_client sent1 (bucket s3params),
             sent1 ++ [CreateBucket (bucket s3params)])
          else (true, sent1) in
        let '(createOK, sent2) := created in
        if negb createOK then (InvalidPath, sent2)
        else
          let checked :=
            if bucketExists then
              let prefix := if String.eqb (path s3params) "" then None
                            else Some (path s3params) in
              let sent3 := sent2 ++ [ListObjects (bucket s3params) prefix] in
              match ListObjects_result s3_client sent2 (bucket s3params) prefix with
              | None => (false, sent3)
              | Some object_list =>
                  let root := (path s3params ++ "/")%string in
                  (target_is_empty root object_list, sent3)
              end
            else (true, sent2) in
          let '(targetOK, sent3) := checked in
          if negb targetOK then (InvalidPath, sent3)
          else upload (bucket s3params) filesList sent3
    end.

End HotBackup.

Definition is_PutObject (r : Request) : bool :=
  match r with PutObject _ => true | _ => false end.

End S3Backup.


(* ------------------------------------------------------------------ *)
(** ** Observations on histories, and the spec's own formulas *)

Definition Target_eqb (a b : Target) : bool :=
  match a, b with
  | MainDB, MainDB | KeysDB, KeysDB => true
  | _, _ => false
  end.

(** The event is a [checkpoint] call on [db] with configuration [cfg]. *)
Definition is_checkpoint (db : Target) (cfg : string) (ev : Event) : bool :=
  match fst ev with
  | session_checkpoint d c => Target_eqb d db && String.eqb c cfg
  | _ => false
  end.

(** A timestamped (stable) checkpoint of the main database was issued. *)
Definition stable_checkpoint_taken (evs : list Event) : bool :=
  existsb (is_checkpoint MainDB "use_timestamp=true") evs.

(** An untimestamped (full) checkpoint of the main database was issued. *)
Definition full_checkpoint_taken (evs : list Event) : bool :=
  existsb (is_checkpoint MainDB "use_timestamp=false") evs.

(** The URI and return code of a [drop] event. *)
Definition drop_of (ev : Event) : option (string * Z) :=
  match fst ev with
  | session_drop uri _ => Some (uri, snd ev)
  | _ => None
  end.

(** The URIs the events tried to drop, in order. *)
Definition popped (evs : list Event) : list string :=
  flat_map (fun ev => match drop_of ev with Some (u, _) => [u] | None => [] end) evs.

(** The URIs whose drop returned [rc], in order. *)
Definition dropped_with (rc : Z) (evs : list Event) : list string :=
  flat_map (fun ev => match drop_of ev with
                      | Some (u, r) => if (r =? rc)%Z then [u] else []
                      | None => []
                      end) evs.

(** What a flush may throw without [syncSizeInfo] throwing it on: nothing,
    a [WriteConflictException], or, on an engine that is not durable, an
    [AssertionException] with the code ExceededMemoryLimit. *)
Definition swallowed (durable : bool) (thrown : option Exn) : Prop :=
  thrown = None \/ thrown = Some WriteConflictException \/
  (durable = false /\ thrown = Some (AssertionException ExceededMemoryLimit)).

(** The configurations pushed with [set_timestamp], in order. *)
Definition pushed (evs : list Event) : list string :=
  flat_map (fun ev => match fst ev with conn_set_timestamp c => [c] | _ => [] end) evs.

(** The spec's clamp for [set_oldest] without force, read literally from the
    data model: the minimum of the requested value and of those of stable,
    oplog-read and local-snapshot timestamps that are defined (non-zero). *)
Definition spec_clamp_with_stable (ts stable oplogRead : Timestamp)
    (localSnapshot : option Timestamp) : Timestamp :=
  let c1 := if (stable =? 0)%N then ts else N.min ts stable in
  let c2 := if (oplogRead =? 0)%N then c1 else N.min c1 oplogRead in
  match localSnapshot with
  | Some l => if (l =? 0)%N then c2 else N.min c2 l
  | None => c2
  end.

(** The clamp without the stable timestamp: the minimum of the requested
    value, the oplog-read timestamp when its seconds, the upper 32 bits,
    are not 0, and the local snapshot timestamp when there is one. *)
Definition clamp_oplog_snapshot (ts oplogRead : Timestamp)
    (localSnapshot : option Timestamp) : Timestamp :=
  let c := if (oplogRead <? 4294967296)%N then ts else N.min ts oplogRead in
  match localSnapshot with
  | Some l => N.min c l
  | None => c
  end.

(* ------------------------------------------------------------------ *)
(** ** Concrete storage cores and engines used in the examples *)

(** Timestamps with the given seconds and increment 0, as [asULL()] gives
    them. *)
Definition ts_5s : Timestamp := 21474836480%N.
Definition ts_7s : Timestamp := 30064771072%N.
Definition ts_9s : Timestamp := 38654705664%N.
Definition ts_10s : Timestamp := 42949672960%N.
Definition ts_15s : Timestamp := 64424509440%N.

(** A storage core on which every call succeeds. *)
Definition wt_ok : StorageCore := fun _ _ => 0%Z.

(** A size storer whose flush throws nothing, and one whose flush always
    throws an [AssertionException] with the given code. *)
Definition no_throw : list Event -> bool -> option Exn := fun _ _ => None.

Definition flush_fails (code : ErrorCodes) : list Event -> bool -> option Exn :=
  fun _ _ => Some (AssertionException code).

(** A storage core on which every [drop] is busy. *)
Definition wt_busy : StorageCore :=
  fun _ c => match c with session_drop _ _ => EBUSY | _ => 0%Z end.

(** A storage core on which a [drop] is busy exactly for ["table:b"]. *)
Definition wt_busy_b : StorageCore :=
  fun _ c => match c with
             | session_drop uri _ => if String.eqb uri "table:b" then EBUSY else 0%Z
             | _ => 0%Z
             end.

(** A durable, writable engine that keeps history, as the constructor
    leaves it when the recovery timestamp is null: a fresh checkpoint
    worker and journal flusher, an empty drop queue. *)
Definition engine0 : WiredTigerKVEngine.t :=
  WiredTigerKVEngine.mk true false false false true 0%N 0%N []
    (Some WiredTigerCheckpointThread.create)
    (Some WiredTigerJournalFlusher.create) true false 0%N None.

Definition world0 : World WiredTigerKVEngine.t := mkWorld engine0 [].

(** A checkpoint worker with the given stable and initial-data timestamps. *)
Definition worker (stable initialData : N) : WiredTigerCheckpointThread.t :=
  WiredTigerCheckpointThread.mk false stable initialData false 0%N.

(** [engine0] with majority read concern off (no data history). *)
Definition engine_no_history (c : WiredTigerCheckpointThread.t) : WiredTigerKVEngine.t :=
  WiredTigerKVEngine.mk true false false false false 0%N 0%N []
    (Some c) (Some WiredTigerJournalFlusher.create) true false 0%N None.

(** [engine0] with the given checkpoint worker and recovery timestamp. *)
Definition engine_with (c : WiredTigerCheckpointThread.t) (recovery : Timestamp)
    : WiredTigerKVEngine.t :=
  WiredTigerKVEngine.mk true false false false true recovery 0%N []
    (Some c) (Some WiredTigerJournalFlusher.create) true false 0%N None.

Definition no_interference : WiredTigerCheckpointThread.Schedule :=
  {| WiredTigerCheckpointThread.after_stable_load := [];
     WiredTigerCheckpointThread.before_second_load := [];
     WiredTigerCheckpointThread.during_checkpoint := [] |}.

(** The code the storage core returns to the [drop] that [dropIdent ident]
    issues when started in world [w] (after the two cursor-closing calls). *)
Definition dropIdent_rc (wt : StorageCore) (w : World WiredTigerKVEngine.t)
    (ident : string) : Z :=
  let uri := WiredTigerKVEngine._uri ident in
  wt (history w ++ [(ru_closeAllCursors uri, 0%Z); (sessionCache_closeAllCursors uri, 0%Z)])
     (session_drop uri WiredTigerKVEngine.dropConfig).

(** The return code is one the reaper tolerates: dropped, or still busy. *)
Definition dropped_or_busy (ev : Event) : Prop := snd ev = 0%Z \/ snd ev = EBUSY.

(** The number of [drop] calls in a history. *)
Definition count_drops (h : list Event) : nat :=
  List.length (popped h).

(** A storage core on which the first two [drop] calls are busy and all
    later calls succeed. *)
Definition wt_busy_twice : StorageCore :=
  fun h c => match c with
             | session_drop _ _ => if count_drops h <? 2 then EBUSY else 0%Z
             | _ => 0%Z
             end.

(** A storage core whose [drop] fails with EINVAL (22). *)
Definition wt_einval : StorageCore :=
  fun _ c => match c with session_drop _ _ => 22%Z | _ => 0%Z end.

(** An engine whose drop queue holds three URIs. *)
Definition world_abc : World WiredTigerKVEngine.t :=
  mkWorld (WiredTigerKVEngine.with_identToDrop
             ["table:a"; "table:b"; "table:c"]%string engine0) [].

(** S3 parameters, an S3 endpoint whose bucket "backups" already holds an
    object under the prefix "monday", and a one-file backup. *)
Definition s3params0 : S3Backup.S3BackupParameters :=
  {| S3Backup.endpoint := "127.0.0.1:9000"; S3Backup.scheme := "http";
     S3Backup.region := ""; S3Backup.profile := "";
     S3Backup.bucket := "backups"; S3Backup.path := "monday";
     S3Backup.useVirtualAddressing := false |}.

Definition s3_nonempty : S3Backup.S3Client :=
  {| S3Backup.ListBuckets_result := fun _ => Some ["logs"; "backups"]%string;
     S3Backup.CreateBucket_result := fun _ _ => true;
     S3Backup.ListObjects_result :=
       fun _ _ _ => Some ["monday/"; "monday/WiredTiger.wt"]%string;
     S3Backup.PutObject_result := fun _ _ => true |}.

Definition files0 : list S3Backup.FileTuple :=
  [("/data/db/storage.bson", "monday/storage.bson", 114%N)]%string.

(* ------------------------------------------------------------------ *)
(** ** Timestamp pushes: call sequences and the formatting buffers *)

(** The engine when replication has moved the oplog-read timestamp and the
    local snapshot to the given values. *)
Definition with_readers (oplogRead : N) (localSnapshot : option Timestamp)
    (e : WiredTigerKVEngine.t) : WiredTigerKVEngine.t :=
  WiredTigerKVEngine.mk
    (WiredTigerKVEngine._durable e) (WiredTigerKVEngine._ephemeral e)
    (WiredTigerKVEngine._inRepairMode e) (WiredTigerKVEngine._readOnly e)
    (WiredTigerKVEngine._keepDataHistory e) (WiredTigerKVEngine._recoveryTimestamp e)
    (WiredTigerKVEngine._oldestTimestamp e) (WiredTigerKVEngine._identToDrop e)
    (WiredTigerKVEngine._checkpointThread e) (WiredTigerKVEngine._journalFlusher e)
    (WiredTigerKVEngine._sizeStorer e)
    (WiredTigerKVEngine.WTPreserveSnapshotHistoryIndefinitely e)
    oplogRead localSnapshot.

(** A sequence of [setOldestTimestamp] calls; each call comes with its
    [force] flag and with the values the oplog-read timestamp and the local
    snapshot have when it is made. *)
Fixpoint setOldestTimestamps (wt : StorageCore)
    (calls : list (Timestamp * bool * N * option Timestamp))
    : M WiredTigerKVEngine.t unit :=
  match calls with
  | [] => ret tt
  | (ts, force, oplogRead, localSnapshot) :: rest =>
      modify (with_readers oplogRead localSnapshot) ;;;
      WiredTigerKVEngine.setOldestTimestamp wt ts force ;;;
      setOldestTimestamps wt rest
  end.

(** [sizeof(stableTSConfigString)] and [sizeof(oldestTSConfigString)], as
    the two array declarations compute them. *)
Definition stableTSConfigString_size : nat :=
  String.length "stable_timestamp=" + 8 * 2 + 1.

Definition oldestTSConfigString_size : nat :=
  String.length "force=true,oldest_timestamp=,commit_timestamp=" + 2 * 8 * 2 + 1.

(** What the [snprintf] calls of [setStableTimestamp] and
    [setOldestTimestamp] format. *)
Definition stableTSConfig (ts : Timestamp) : string :=
  ("stable_timestamp=" ++ llx ts)%string.

Definition oldestTSConfig (force : bool) (ts : Timestamp) : string :=
  if force
  then ("force=true,oldest_timestamp=" ++ llx ts ++ ",commit_timestamp=" ++ llx ts)%string
  else ("oldest_timestamp=" ++ llx ts)%string.

(* ------------------------------------------------------------------ *)
(** ** The constructor's start of the checkpoint worker *)

(** The part of the constructor that creates the checkpoint worker: not on
    a read-only or ephemeral engine; with a recovery timestamp, the worker's
    initial-data timestamp is set to it and the engine's
    [setStableTimestamp] is called with it. *)
Definition startCheckpointThread (wt : StorageCore) : M WiredTigerKVEngine.t unit :=
  e <- gets (fun e => e) ;;
  if negb (WiredTigerKVEngine._readOnly e) && negb (WiredTigerKVEngine._ephemeral e) then
    modify (WiredTigerKVEngine.with_checkpointThread
              (Some WiredTigerCheckpointThread.create)) ;;;
    (if negb (isNull (WiredTigerKVEngine._recoveryTimestamp e)) then
       modify (WiredTigerKVEngine.with_checkpointThread
                 (Some (WiredTigerCheckpointThread.setInitialDataTimestamp
                          WiredTigerCheckpointThread.create
                          (WiredTigerKVEngine._recoveryTimestamp e)))) ;;;
       WiredTigerKVEngine.setStableTimestamp wt (WiredTigerKVEngine._recoveryTimestamp e)
     else ret tt)
  else ret tt.

(** An engine as the constructor has it just before it starts the
    checkpoint worker: durable, writable, keeping history, recovered at the
    given timestamp, no workers yet. *)
Definition engine_recovered (recovery : Timestamp) : WiredTigerKVEngine.t :=
  WiredTigerKVEngine.mk true false false false true recovery 0%N [] None None false
    false 0%N None.

(* ------------------------------------------------------------------ *)
(** ** The downgrade string; the upload requests *)

(** [WiredTigerFileVersion::getDowngradeString]; [None] when the
    [invariant] fails or [MONGO_UNREACHABLE] is reached. *)
Definition getDowngradeString (g : WiredTigerFileVersion.ServerGlobals)
    (_startupVersion : WiredTigerFileVersion.StartupVersion) : option string :=
  if negb (WiredTigerFileVersion.featureCompatibility_isVersionInitialized g) then
    if WiredTigerFileVersion.StartupVersion_eqb _startupVersion WiredTigerFileVersion.IS_40
    then None
    else match _startupVersion with
         | WiredTigerFileVersion.IS_34 => Some "compatibility=(release=2.9)"%string
         | WiredTigerFileVersion.IS_36 => Some "compatibility=(release=3.0)"%string
         | _ => None
         end
  else Some "compatibility=(release=3.0)"%string.

(** The request the upload loop builds for a file of the backup. *)
Definition putRequest (b : string) (file : S3Backup.FileTuple) : S3Backup.PutObjectRequest :=
  let '(srcFile, destFile, fsize) := file in
  {| S3Backup.put_Bucket := b; S3Backup.put_Key := destFile;
     S3Backup.put_ContentLength := fsize;
     S3Backup.put_ContentType := "application/octet-stream";
     S3Backup.put_Body := srcFile |}.

(** An S3 endpoint without buckets on which every request succeeds, and one
    on which uploads fail. *)
Definition s3_fresh : S3Backup.S3Client :=
  {| S3Backup.ListBuckets_result := fun _ => Some [];
     S3Backup.CreateBucket_result := fun _ _ => true;
     S3Backup.ListObjects_result := fun _ _ _ => Some [];
     S3Backup.PutObject_result := fun _ _ => true |}.

Definition s3_rejects (key : string) : S3Backup.S3Client :=
  {| S3Backup.ListBuckets_result := fun _ => Some [];
     S3Backup.CreateBucket_result := fun _ _ => true;
     S3Backup.ListObjects_result := fun _ _ _ => Some [];
     S3Backup.PutObject_result :=
       fun _ r => negb (String.eqb (S3Backup.put_Key r) key) |}.

Definition file_wt : S3Backup.FileTuple :=
  ("/data/db/WiredTiger.wt", "monday/WiredTiger.wt", 4096%N)%string.
Definition file_log : S3Backup.FileTuple :=
  ("/data/db/journal/WiredTigerLog.1", "monday/journal/WiredTigerLog.1", 100%N)%string.
Definition file_meta : S3Backup.FileTuple :=
  ("/data/db/storage.bson", "monday/storage.bson", 114%N)%string.

Definition files3 : list S3Backup.FileTuple := [file_wt; file_log; file_meta].

(* ------------------------------------------------------------------ *)
(** ** Metadata keys and idents *)

From Stdlib Require Import Ascii.

Module Idents.

(** [WT_NOTFOUND], from wiredtiger.h. *)
Definition WT_NOTFOUND : Z := (-31803)%Z.

(** [StringData::find(char)]: the index of the first occurrence, [None] for
    [npos]. *)
Fixpoint find (c : Ascii.ascii) (s : string) : option nat :=
  match s with
  | EmptyString => None
  | String a s' => if Ascii.eqb a c then Some 0 else option_map S (find c s')
  end.

(** [key.substr(pos)]: the rest of the string from [pos] on. *)
Definition substr_from (pos : nat) (s : string) : string :=
  substring pos (String.length s - pos) s.

(** The body of the loop of [getAllIdents] for one metadata key: the ident
    it pushes, or [None] where the loop says [continue]. *)
Definition ident_of_key (key : string) : option string :=
  match find ":"%char key with
  | None => None
  | Some idx =>
      let type := substring 0 idx key in
      if negb (String.eqb type "table") then None
      else
        let ident := substr_from (idx + 1) key in
        if String.eqb ident "sizeStorer" then None
        else Some ident
  end.

(** A metadata cursor: the keys [next] yields, and the code at which [next]
    stops. *)
Definition Cursor : Type := list string * Z.

(** [getAllIdents]; the cursor is [None] when [cursor.get()] is null.
    [inr] is the failed [fassert]. *)
Definition getAllIdents (c : option Cursor) : list string + Fault :=
  match c with
  | None => inl []
  | Some (keys, ret) =>
      let all := flat_map (fun key => match ident_of_key key with
                                      | Some ident => [ident]
                                      | None => []
                                      end) keys in
      if (ret =? WT_NOTFOUND)%Z then inl all else inr (FassertFailed 50663)
  end.

(** The test of the loop of [cleanShutdown] that walks the metadata: the
    key has a type, and the type is "table". *)
Definition is_table_key (key : string) : bool :=
  match find ":"%char key with
  | None => false
  | Some idx => String.eqb (substring 0 idx key) "table"
  end.

(** [_rebuildIdent]'s [identName]: [uri + sizeof(tablePrefix) - 1], after
    the [invariant] that the URI starts with "table:"; [None] when the
    invariant fails. *)
Definition identName (uri : string) : option string :=
  if String.prefix "table:" uri
  then Some (substr_from (String.length "table:") uri)
  else None.

End Idents.

(* ------------------------------------------------------------------ *)
(** ** Cached cursors and the drop queue *)

Module DropQueue.

(** [std::find(_identToDrop.begin(), _identToDrop.end(), uri) !=
    _identToDrop.end()]. *)
Definition queued (q : list string) (uri : string) : bool :=
  existsb (String.eqb uri) q.

Section Cursors.
(** Of a [WiredTigerCachedCursor] the code reads [_cursor] and, when it is
    not null, [_cursor->uri]. *)
Variable WiredTigerCachedCursor : Type.
Variable cursor_uri : WiredTigerCachedCursor -> option string.

(** The loop of [filterCursorsWithQueuedDrops] from the iterator [i] on:
    [cache] is what the iterator has not passed yet, [toDrop] the list
    built so far.  The result is [toDrop] and what is left of that part of
    the cache. *)
Fixpoint filter_loop (q : list string) (cache toDrop : list WiredTigerCachedCursor)
    : list WiredTigerCachedCursor * list WiredTigerCachedCursor :=
  match cache with
  | [] => (toDrop, [])
  | i :: rest =>
      let keep := let '(d, c) := filter_loop q rest toDrop in (d, i :: c) in
      match cursor_uri i with
      | None => keep
      | Some uri =>
          if negb (queued q uri) then keep
          else filter_loop q rest (toDrop ++ [i])
      end
  end.

(** [filterCursorsWithQueuedDrops(cache)]: the returned list, and the cache
    as the call leaves it. *)
Definition filterCursorsWithQueuedDrops (e : WiredTigerKVEngine.t)
    (cache : list WiredTigerCachedCursor)
    : list WiredTigerCachedCursor * list WiredTigerCachedCursor :=
  match WiredTigerKVEngine._identToDrop e with
  | [] => ([], cache)
  | q => filter_loop q cache []
  end.

(** Whether a cached cursor is open on a URI of the queue. *)
Definition on_queued (q : list string) (i : WiredTigerCachedCursor) : bool :=
  match cursor_uri i with
  | None => false
  | Some uri => queued q uri
  end.

End Cursors.

Section Reaper.
(** The [ElapsedTracker] of the size storer, whose code is elsewhere. *)
Variable ElapsedTracker : Type.
Variable intervalHasElapsed : ElapsedTracker -> bool.
Variable resetLastTime : ElapsedTracker -> ElapsedTracker.
(** What a flush of the size storer throws, as in
    [WiredTigerKVEngine.syncSizeInfo]. *)
Variable flush_throws : list Event -> bool -> option Exn.

(** The engine with the two members [haveDropsQueued] changes; dates are in
    milliseconds. *)
Record Clocked := mkClocked {
  engine : WiredTigerKVEngine.t;
  _previousCheckedDropsQueued : Z;
  _sizeStorerSyncTracker : ElapsedTracker
}.

Definition with_engine (e : WiredTigerKVEngine.t) (c : Clocked) : Clocked :=
  mkClocked e (_previousCheckedDropsQueued c) (_sizeStorerSyncTracker c).

Definition with_previousCheckedDropsQueued (d : Z) (c : Clocked) : Clocked :=
  mkClocked (engine c) d (_sizeStorerSyncTracker c).

Definition with_sizeStorerSyncTracker (t : ElapsedTracker) (c : Clocked) : Clocked :=
  mkClocked (engine c) (_previousCheckedDropsQueued c) t.

(** A member function of the engine, run on the engine inside. *)
Definition on_engine {A} (c : M WiredTigerKVEngine.t A) : M Clocked A :=
  fun w =>
    match c (mkWorld (engine (state w)) (history w)) with
    | Returns a w' => Returns a (mkWorld (with_engine (state w') (state w)) (history w'))
    | Aborts f w' => Aborts f (mkWorld (with_engine (state w') (state w)) (history w'))
    end.

(** [haveDropsQueued]; [now] is what the clock source answers and
    [try_lock] whether the queue's mutex can be taken. *)
Definition haveDropsQueued (now : Z) (try_lock : bool) : M Clocked bool :=
  c <- gets (fun c => c) ;;
  let delta := (now - _previousCheckedDropsQueued c)%Z in
  (if negb (WiredTigerKVEngine._readOnly (engine c))
      && intervalHasElapsed (_sizeStorerSyncTracker c)
   then modify (with_sizeStorerSyncTracker (resetLastTime (_sizeStorerSyncTracker c))) ;;;
        on_engine (WiredTigerKVEngine.syncSizeInfo flush_throws false)
   else ret tt) ;;;
  if (delta <? 1000)%Z then ret false
  else
    modify (with_previousCheckedDropsQueued now) ;;;
    ret (try_lock && negb (match WiredTigerKVEngine._identToDrop (engine c) with
                           | [] => true | _ => false end)).

End Reaper.

End DropQueue.

(** A reaper's view of the engine of [world_abc], with a size storer
    tracker whose interval never elapses, last checked at [prev]. *)
Definition clocked_abc (prev : Z) : World (DropQueue.Clocked unit) :=
  mkWorld (DropQueue.mkClocked unit (state world_abc) prev tt) [].

(* ------------------------------------------------------------------ *)
(** ** Opening the storage core *)

Module OpenWiredTiger.

Import WiredTigerFileVersion.

(** [EINVAL] of <errno.h> on Linux and [WT_TRY_SALVAGE] of wiredtiger.h. *)
Definition EINVAL : Z := 22%Z.
Definition WT_TRY_SALVAGE : Z := (-31809)%Z.

(** An attempt of [wiredtiger_open]: the configuration string and the code
    returned. *)
Abbreviation Attempt := (string * Z)%type.

(** [wiredtiger_open] as an oracle over the attempts made so far. *)
Definition Opener := list Attempt -> string -> Z.

(** What a call that returns leaves behind: the [_fileVersion] it assigned,
    if it assigned one, and whether the repair observer was told of a
    modification. *)
Record Opened := mkOpened {
  _fileVersion : option StartupVersion;
  onModification : bool
}.

Definition dquote : string := String (Ascii.ascii_of_nat 34) EmptyString.

Definition require_min (v : string) : string :=
  (",compatibility=(require_min=" ++ dquote ++ v ++ dquote ++ ")")%string.

Definition wiredtiger_open_at (open : Opener) (tried : list Attempt) (configStr : string)
    : Z * list Attempt :=
  let ret := open tried configStr in (ret, tried ++ [(configStr, ret)]).

(** [_openWiredTiger(path, wtOpenConfig)]: the attempts made, and how the
    call ends. *)
Definition _openWiredTiger (open : Opener) (_inRepairMode : bool) (wtOpenConfig : string)
    : list Attempt * (Opened + Fault) :=
  let '(ret, t1) := wiredtiger_open_at open [] (wtOpenConfig ++ require_min "3.1.0") in
  if (ret =? 0)%Z then (t1, inl (mkOpened (Some IS_40) false))
  else
    let '(ret, t2) := wiredtiger_open_at open t1 (wtOpenConfig ++ require_min "3.0.0") in
    if (ret =? 0)%Z then (t2, inl (mkOpened (Some IS_36) false))
    else
      let '(ret, t3) := wiredtiger_open_at open t2 (wtOpenConfig ++ require_min "2.9.0") in
      if (ret =? 0)%Z then (t3, inl (mkOpened (Some IS_34) false))
      else if (ret =? EINVAL)%Z then (t3, inr (FassertFailed 28561))
      else if (ret =? WT_TRY_SALVAGE)%Z && negb _inRepairMode
      then (t3, inr (FassertFailed 50944))
      else if negb _inRepairMode then (t3, inr (FassertFailed 28595))
      else
        let '(ret, t4) := wiredtiger_open_at open t3 (wtOpenConfig ++ ",salvage=true") in
        if (ret =? 0)%Z then (t4, inl (mkOpened None true))
        else (t4, inr (FassertFailed 50947)).

(** The configurations in the order the function knows them. *)
Definition configs (wtOpenConfig : string) : list string :=
  [ (wtOpenConfig ++ require_min "3.1.0")%string;
    (wtOpenConfig ++ require_min "3.0.0")%string;
    (wtOpenConfig ++ require_min "2.9.0")%string;
    (wtOpenConfig ++ ",salvage=true")%string ].

End OpenWiredTiger.

(** A storage core that opens at no compatibility version and answers the
    given code to every attempt but the last, [last] to that one. *)
Definition opener_failing (code last : Z) : OpenWiredTiger.Opener :=
  fun tried _ => if (List.length tried =? 2)%nat then last else code.

(* ------------------------------------------------------------------ *)
(** ** Repair of an ident: verify, salvage, rebuild, orphan recovery *)

Module Repair.

(** What the repair path asks of the file system, of the storage core and
    of helpers whose code is elsewhere. *)
Inductive Op :=
| closeAllCursors_session (uri : string)
| closeAllCursors_cache (uri : string)
| exists_ (p : string)
| create_directory (p : string)
| remove (p : string)
| fsyncRename (source target : string)
| fsyncParentDirectory (p : string)
| getMetadataRaw (uri : string)
| generateCreateString (ns : string)
| verify (uri : string)
| salvage (uri : string)
| drop (uri : string)
| create (uri config : string).

(** A [Status] on the repair path: one the function builds itself, the one
    [wtRCToStatus] makes of a return code, or the failure a helper
    returned, which the code passes on unread. *)
Inductive RepairStatus :=
| Code (c : ErrorCodes)
| UnknownError
| wtRCToStatus (rc : Z)
| StatusOf (o : Op).

(** How a run stops without a status: a failed [invariant], or the
    exception of [create_directory], which [_ensureIdentPath] rethrows. *)
Inductive Stop := Invariant | StdException.

(** The answers to the operations.  No function asks the same question
    twice within one run, except [exists] on the data file of the ident. *)
Record System := {
  fs_exists : string -> bool;
  create_directory_throws : string -> bool;
  remove_ec : string -> bool;
  fsyncRename_isOK : string -> string -> bool;
  fsyncParentDirectory_isOK : string -> bool;
  getMetadataRaw_value : string -> option string;
  generateCreateString_value : string -> option string;
  verify_rc : string -> Z;
  salvage_rc : string -> Z;
  drop_rc : string -> Z;
  create_rc : string -> string -> Z;
  wtRCToStatus_isOK : Z -> bool
}.

(** A run: the operations performed, in order, and how it ends. *)
Definition Run (A : Type) : Type := list Op * (A + Stop).

Definition done {A} (a : A) : Run A := ([], inl a).

Definition halt {A} (s : Stop) : Run A := ([], inr s).

Definition perform {A} (o : Op) (answer : A) : Run A := ([o], inl answer).

Definition andThen {A B} (c : Run A) (k : A -> Run B) : Run B :=
  match c with
  | (t, inl a) => (t ++ fst (k a), snd (k a))
  | (t, inr s) => (t, inr s)
  end.

Notation "x <~ c ;; k" := (andThen c (fun x => k))
  (at level 61, c at next level, right associativity).
Notation "c ;;~ k" := (andThen c (fun _ => k))
  (at level 61, right associativity).

(** The directory separator of POSIX paths. *)
Definition is_separator (c : ascii) : bool := Ascii.eqb c "/".

(** Whether the last character of a path is a separator. *)
Fixpoint ends_in_separator (p : string) : bool :=
  match p with
  | EmptyString => false
  | String c EmptyString => is_separator c
  | String _ rest => ends_in_separator rest
  end.

(** Modelled from the spec: [operator/] of [boost::filesystem::path] is
    defined in the Boost library, which is not among the sources; the spec
    says of it no more than that a file name "is resolved against the
    instance's data directory".  On POSIX, [operator/=] leaves the path as
    it is when the name is empty, and otherwise appends the name, after a
    separator unless the name begins with one, or the path is empty or
    ends in one. *)
Definition path_append (dir name : string) : string :=
  match name with
  | EmptyString => dir
  | String c _ =>
      if is_separator c then (dir ++ name)%string
      else
        match dir with
        | EmptyString => name
        | _ => if ends_in_separator dir then (dir ++ name)%string
               else (dir ++ "/" ++ name)%string
        end
  end.

Section Functions.
Variable sys : System.
Variable e : WiredTigerKVEngine.t.
Variable _path : string.

Definition status_isOK (s : RepairStatus) : bool :=
  match s with
  | Code c => isOK c
  | UnknownError => false
  | wtRCToStatus rc => wtRCToStatus_isOK sys rc
  | StatusOf _ => false
  end.

(** The body of the loop of [_ensureIdentPath] for the directory [dir]. *)
Definition ensure_dir (dir : string) : Run unit :=
  let subdir := path_append _path dir in
  present <~ perform (exists_ subdir) (fs_exists sys subdir) ;;
  if negb present then
    thrown <~ perform (create_directory subdir) (create_directory_throws sys subdir) ;;
    if thrown then halt StdException else done tt
  else done tt.

(** The loop of [_ensureIdentPath].  [ident.find('/', start)] with
    [start = idx + 1] visits the positions of '/' from left to right; the
    walk below passes the characters one by one, [rest] being the ident
    from [idx] on. *)
Fixpoint ensure_from (ident : string) (idx : nat) (rest : string) : Run unit :=
  match rest with
  | EmptyString => done tt
  | String c rest' =>
      (if Ascii.eqb c "/" then ensure_dir (substring 0 idx ident) else done tt) ;;~
      ensure_from ident (S idx) rest'
  end.

Definition _ensureIdentPath (ident : string) : Run unit :=
  ensure_from ident 0 ident.

Definition getDataFilePathForIdent (ident : string) : Run (option string) :=
  let identPath := path_append _path (ident ++ ".wt") in
  present <~ perform (exists_ identPath) (fs_exists sys identPath) ;;
  if negb present then done None else done (Some identPath).

Definition _rebuildIdent (uri : string) : Run RepairStatus :=
  if negb (WiredTigerKVEngine._inRepairMode e) then halt Invariant
  else
    match Idents.identName uri with
    | None => halt Invariant
    | Some identName =>
        let rebuild : Run RepairStatus :=
          swMetadata <~ perform (getMetadataRaw uri) (getMetadataRaw_value sys uri) ;;
          match swMetadata with
          | None => done (StatusOf (getMetadataRaw uri))
          | Some metadata =>
              rc <~ perform (drop uri) (drop_rc sys uri) ;;
              if negb (rc =? 0)%Z then done (wtRCToStatus rc)
              else
                rc <~ perform (create uri metadata) (create_rc sys uri metadata) ;;
                if negb (rc =? 0)%Z then done (wtRCToStatus rc)
                else done (Code DataModifiedByRepair)
          end in
        filePath <~ getDataFilePathForIdent identName ;;
        match filePath with
        | Some filePath =>
            let corruptFile := (filePath ++ ".corrupt")%string in
            ok <~ perform (fsyncRename filePath corruptFile)
                    (fsyncRename_isOK sys filePath corruptFile) ;;
            if negb ok then done (StatusOf (fsyncRename filePath corruptFile))
            else rebuild
        | None => rebuild
        end
    end.

Definition _salvageIfNeeded (uri : string) : Run RepairStatus :=
  rc <~ perform (verify uri) (verify_rc sys uri) ;;
  if (rc =? 0)%Z then done (Code OK)
  else if (rc =? EBUSY)%Z then done (Code OK)
  else if (rc =? ENOENT)%Z then _rebuildIdent uri
  else
    rc <~ perform (salvage uri) (salvage_rc sys uri) ;;
    if wtRCToStatus_isOK sys rc then done (Code DataModifiedByRepair)
    else _rebuildIdent uri.

Definition repairIdent (ident : string) : Run RepairStatus :=
  let uri := WiredTigerKVEngine._uri ident in
  perform (closeAllCursors_session uri) tt ;;~
  perform (closeAllCursors_cache uri) tt ;;~
  if WiredTigerKVEngine._ephemeral e then done (Code OK)
  else
    _ensureIdentPath ident ;;~
    _salvageIfNeeded uri.

Definition createGroupedRecordStore (ns ident : string) : Run RepairStatus :=
  _ensureIdentPath ident ;;~
  result <~ perform (generateCreateString ns) (generateCreateString_value sys ns) ;;
  match result with
  | None => done (StatusOf (generateCreateString ns))
  | Some config =>
      let uri := WiredTigerKVEngine._uri ident in
      rc <~ perform (create uri config) (create_rc sys uri config) ;;
      done (wtRCToStatus rc)
  end.

(** [recoverOrphanedIdent], the branch compiled where [_WIN32] is not
    defined. *)
Definition recoverOrphanedIdent (ns ident : string) : Run RepairStatus :=
  if negb (WiredTigerKVEngine._inRepairMode e) then halt Invariant
  else
    identFilePath <~ getDataFilePathForIdent ident ;;
    match identFilePath with
    | None => done UnknownError
    | Some identFilePath =>
        present <~ perform (exists_ identFilePath) (fs_exists sys identFilePath) ;;
        if negb present then halt Invariant
        else
          let tmpFile := (identFilePath ++ ".tmp")%string in
          ok <~ perform (fsyncRename identFilePath tmpFile)
                  (fsyncRename_isOK sys identFilePath tmpFile) ;;
          if negb ok then done (StatusOf (fsyncRename identFilePath tmpFile))
          else
            status <~ createGroupedRecordStore ns ident ;;
            if negb (status_isOK status) then done status
            else
              ec <~ perform (remove identFilePath) (remove_ec sys identFilePath) ;;
              if ec then done UnknownError
              else
                ok <~ perform (fsyncParentDirectory identFilePath)
                        (fsyncParentDirectory_isOK sys identFilePath) ;;
                if negb ok then done (StatusOf (fsyncParentDirectory identFilePath))
                else
                  ok <~ perform (fsyncRename tmpFile identFilePath)
                          (fsyncRename_isOK sys tmpFile identFilePath) ;;
                  if negb ok then done (StatusOf (fsyncRename tmpFile identFilePath))
                  else
                    let uri := WiredTigerKVEngine._uri ident in
                    rc <~ perform (salvage uri) (salvage_rc sys uri) ;;
                    if wtRCToStatus_isOK sys rc then done (Code DataModifiedByRepair)
                    else _rebuildIdent uri
    end.

End Functions.

(** Operations on directories, the only ones [_ensureIdentPath] performs. *)
Definition on_directories (o : Op) : Prop :=
  match o with
  | exists_ _ | create_directory _ => True
  | _ => False
  end.

(** The operations of [createGroupedRecordStore] leave existing files
    alone: it looks at directories, makes some, and creates the table. *)
Definition leaves_files (o : Op) : Prop :=
  match o with
  | remove _ | fsyncRename _ _ | fsyncParentDirectory _ | salvage _ | drop _ => False
  | _ => True
  end.

End Repair.

(* ------------------------------------------------------------------ *)
(** ** Hot backup to a directory *)

From Stdlib Require Import Recdef.

Module HotBackup.

(** [bufsize = 8 * 1024]. *)
Definition bufsize : N := 8192%N.

(** [cnt]: [bufsize], or [fsize] when that is less. *)
Definition cnt_of (fsize : N) : N := if (fsize <? bufsize)%N then fsize else bufsize.

(** How [copy_file_size] ends: by returning, or by the exception of a
    stream ([failbit] and [badbit] throw).  Either way [dst] is what the
    chunks written so far put into the destination. *)
Inductive Copy :=
| Copied (dst : list Byte.byte)
| ios_failure (dst : list Byte.byte).

(** The loop of [copy_file_size], both streams open: [src] is what the
    source has left to read, [dst] what has been written.  A [read] of more
    bytes than are left sets [failbit]; [write_fails], asked with the number
    of bytes written so far, tells whether a [write] fails. *)
Function copy_loop (write_fails : N -> bool) (fsize : N) (src dst : list Byte.byte)
    {measure N.to_nat fsize} : Copy :=
  if (fsize =? 0)%N then Copied dst
  else if (N.of_nat (List.length src) <? cnt_of fsize)%N then ios_failure dst
  else if write_fails (N.of_nat (List.length dst)) then ios_failure dst
  else copy_loop write_fails (fsize - cnt_of fsize)
         (skipn (N.to_nat (cnt_of fsize)) src)
         (dst ++ firstn (N.to_nat (cnt_of fsize)) src).
Proof.
  intros write_fails fsize src dst Hpos _ _. apply N.eqb_neq in Hpos.
  unfold cnt_of, bufsize. destruct (N.ltb_spec fsize 8192); lia.
Defined.

(** [copy_file_size(srcFile, destFile, fsize)], once both files are open;
    [src] is the content of the source file. *)
Definition copy_file_size (write_fails : N -> bool) (src : list Byte.byte) (fsize : N)
    : Copy :=
  copy_loop write_fails fsize src [].

End HotBackup.


(* ------------------------------------------------------------------ *)
(** ** The lists of a hot backup *)

Module BackupLists.

Import S3Backup.

Definition journalDir : string := "journal".
Definition keydbDir : string := "key.db".
Definition storageMetadata : string := "storage.bson".

(** What a storage instance answers while its backup cursor is opened and
    walked: the codes of [log_flush] and [open_cursor], the file names the
    cursor yields, and the code, not 0, on which the walk stops. *)
Record Instance := {
  log_flush_rc : Z;
  open_cursor_rc : Z;
  filenames : list string;
  end_rc : Z
}.

(** [DBTuple], without the session: source directory, destination
    directory, cursor. *)
Definition DBTuple : Type := string * string * Instance.

Section Populate.
(** [wtRCToStatus] and the [hotBackup] of the base class, whose code is
    elsewhere. *)
Variable wtRCToStatus : Z -> Status.
Variable EngineExtension_hotBackup : Status.
(** The file system: [boost::filesystem::exists] and [file_size]. *)
Variable fs_exists : string -> bool.
Variable file_size : string -> N.

(** The [while] loop over one cursor: the status of an early [return], if
    there is one, and the list as the loop leaves it. *)
Fixpoint walk (srcPath destPath : string) (names : list string)
    (filesList : list FileTuple) : option Status * list FileTuple :=
  match names with
  | [] => (None, filesList)
  | filename :: rest =>
      let srcFile := Repair.path_append srcPath filename in
      let destFile := Repair.path_append destPath filename in
      if fs_exists srcFile
      then walk srcPath destPath rest (filesList ++ [(srcFile, destFile, file_size srcFile)])
      else
        let srcFile :=
          Repair.path_append (Repair.path_append srcPath journalDir) filename in
        let destFile :=
          Repair.path_append (Repair.path_append destPath journalDir) filename in
        if fs_exists srcFile
        then walk srcPath destPath rest (filesList ++ [(srcFile, destFile, file_size srcFile)])
        else (Some InvalidPath, filesList)
  end.

(** The [for] loop over [dbList]: the status of an early [return] or the
    last value of [ret], and the list as the loop leaves it. *)
Fixpoint populate (dbList : list DBTuple) (ret : Z) (filesList : list FileTuple)
    : (Status + Z) * list FileTuple :=
  match dbList with
  | [] => (inr ret, filesList)
  | (srcPath, destPath, c) :: rest =>
      match walk srcPath destPath (filenames c) filesList with
      | (Some status, filesList') => (inl status, filesList')
      | (None, filesList') =>
          let ret := end_rc c in
          if (ret =? Idents.WT_NOTFOUND)%Z then populate rest 0%Z filesList'
          else (inl (wtRCToStatus ret), filesList')
      end
  end.

(** [_hotBackupPopulateLists(opCtx, path, dbList, filesList)] on an engine
    at [_path] whose storage instances are [main] and, with encryption, the
    key database: the status, and the two lists as the call leaves them. *)
Definition _hotBackupPopulateLists (e : WiredTigerKVEngine.t) (_path : string)
    (main : Instance) (_encryptionKeyDB : option Instance) (path : string)
    : Status * list DBTuple * list FileTuple :=
  if negb (WiredTigerKVEngine._durable e) then (EngineExtension_hotBackup, [], [])
  else
    let destPath := path in
    if negb (log_flush_rc main =? 0)%Z then (wtRCToStatus (log_flush_rc main), [], [])
    else if negb (open_cursor_rc main =? 0)%Z
    then (wtRCToStatus (open_cursor_rc main), [], [])
    else
      let dbList := [(_path, destPath, main)] in
      let opened : Status + list DBTuple :=
        match _encryptionKeyDB with
        | None => inr dbList
        | Some keyDB =>
            if negb (log_flush_rc keyDB =? 0)%Z then inl (wtRCToStatus (log_flush_rc keyDB))
            else if negb (open_cursor_rc keyDB =? 0)%Z
            then inl (wtRCToStatus (open_cursor_rc keyDB))
            else inr (dbList ++ [(Repair.path_append _path keydbDir,
                                  Repair.path_append destPath keydbDir, keyDB)])
        end in
      match opened with
      | inl status => (status, dbList, [])
      | inr dbList =>
          match populate dbList (open_cursor_rc main) [] with
          | (inl status, filesList) => (status, dbList, filesList)
          | (inr ret, filesList) =>
              let srcFile := Repair.path_append _path storageMetadata in
              let destFile := Repair.path_append destPath storageMetadata in
              (wtRCToStatus ret, dbList,
               filesList ++ [(srcFile, destFile, file_size srcFile)])
          end
      end.

(** A file of the backup exists, has the size the file system reports, and
    goes to the same place under the destination as it has under the data
    directory: the same names lead, with [operator/], from the data
    directory to the source and from the destination directory to the
    destination. *)
Definition mirrored (_path path : string) (file : FileTuple) : Prop :=
  let '(srcFile, destFile, fsize) := file in
  fs_exists srcFile = true /\ fsize = file_size srcFile /\
  exists rel : list string,
    srcFile = fold_left Repair.path_append rel _path /\
    destFile = fold_left Repair.path_append rel path.

End Populate.

End BackupLists.

(** [wtRCToStatus] as far as the examples need it. *)
Definition wtRCToStatus_example (rc : Z) : Status :=
  if (rc =? 0)%Z then OK else InternalError.

(** A main instance whose backup cursor yields a table file and a log
    file, the latter found under [journal/]. *)
Definition main_instance : BackupLists.Instance :=
  {| BackupLists.log_flush_rc := 0; BackupLists.open_cursor_rc := 0;
     BackupLists.filenames := ["collection-0.wt"; "WiredTigerLog.0000000001"]%string;
     BackupLists.end_rc := Idents.WT_NOTFOUND |}.

Definition fs_example (p : string) : bool :=
  String.eqb p "/data/db/collection-0.wt"
  || String.eqb p "/data/db/journal/WiredTigerLog.0000000001".

(** The lists of a backup of [engine0], at /data/db, to /backup, when every
    file is 100 bytes long. *)
Definition populated_example
    : Status * list BackupLists.DBTuple * list S3Backup.FileTuple :=
  BackupLists._hotBackupPopulateLists wtRCToStatus_example OK fs_example
    (fun _ => 100%N) engine0 "/data/db" main_instance None "/backup".

(* ------------------------------------------------------------------ *)
(** ** Moving the key database out of a user database's directory *)

Module KeyDB.

(** A directory entry: a file, or a directory with its entries in the
    order [directory_iterator] yields them. *)
#[warnings="-register-all"]
Inductive Entry :=
| File (name : string)
| Dir (name : string) (content : list Entry).

(** The regular expression [/(collection|index)[-/][^/]+\.wt$], searched in
    the path of a file. *)
Definition no_slash (s : string) : bool :=
  match Idents.find "/"%char s with None => true | Some _ => false end.

(** [[^/]+\.wt$]: at least one character other than '/', then ".wt", then
    the end. *)
Definition name_wt (r : string) : bool :=
  no_slash r && (4 <=? String.length r)%nat
  && String.eqb (Idents.substr_from (String.length r - 3) r) ".wt".

(** [[-/][^/]+\.wt$]. *)
Definition sep_name_wt (s : string) : bool :=
  match s with
  | String c r => (Ascii.eqb c "-" || Ascii.eqb c "/") && name_wt r
  | EmptyString => false
  end.

Definition match_here (s : string) : bool :=
  (String.prefix "/collection" s
   && sep_name_wt (Idents.substr_from (String.length "/collection") s))
  || (String.prefix "/index" s
      && sep_name_wt (Idents.substr_from (String.length "/index") s)).

(** [std::regex_search(path, sm, rex)]. *)
Fixpoint regex_search (s : string) : bool :=
  match_here s
  || match s with
     | String _ s' => regex_search s'
     | EmptyString => false
     end.

(** The calls into the file system that change it. *)
Inductive FsOp :=
| create_directories (p : string)
| copy_file (source target : string).

(** The two vectors the function fills, and the changes made to the file
    system. *)
Record Lists := mkLists {
  emptyDirs : list string;
  copiedFiles : list string;
  changes : list FsOp
}.

(** The locals of one call: [checkTo], [empty], and whether the call has
    executed [*parent_empty = false], which it does where [parent_empty] is
    not null. *)
Record Frame := mkFrame {
  checkTo : bool;
  empty : bool;
  parent_empty_cleared : bool;
  lists : Lists
}.

Section Copy.
(** [fs::exists], and which of the changes throws. *)
Variable fs_exists : string -> bool.
Variable throws : FsOp -> bool.

(** The [else] branch of the loop body, for a file; [None] is an
    exception, which nothing catches here. *)
Definition visit_file (from to name : string) (f : Frame) : option Frame :=
  let p := Repair.path_append from name in
  if regex_search p then Some (mkFrame (checkTo f) false true (lists f))
  else
    let made := if checkTo f && negb (fs_exists to) then [create_directories to] else [] in
    let copy := copy_file p (Repair.path_append to name) in
    if existsb throws made || throws copy then None
    else
      Some (mkFrame false (empty f) (parent_empty_cleared f)
              (mkLists (emptyDirs (lists f)) (copiedFiles (lists f) ++ [p])
                 (changes (lists f) ++ made ++ [copy]))).

(** What a call leaves to its caller once its loop has ended in frame [g]:
    the lists, with [from] pushed where [empty] still holds. *)
Definition leave (from : string) (g : Frame) : Lists :=
  if empty g
  then mkLists (emptyDirs (lists g) ++ [from]) (copiedFiles (lists g)) (changes (lists g))
  else lists g.

(** The loop body of [copy_keydb_files(from, to, ...)] for the entry [p],
    in frame [f]; for a directory it holds the recursive call, with its
    own loop and frame. *)
Fixpoint visit (from to : string) (p : Entry) (f : Frame) {struct p} : option Frame :=
  match p with
  | File name => visit_file from to name f
  | Dir name content =>
      let from' := Repair.path_append from name in
      let to' := Repair.path_append to name in
      match (fix loop (ps : list Entry) (g : Frame) {struct ps} : option Frame :=
               match ps with
               | [] => Some g
               | q :: qs =>
                   match visit from' to' q g with
                   | Some g' => loop qs g'
                   | None => None
                   end
               end) content (mkFrame true true false (lists f)) with
      | None => None
      | Some g =>
          Some (mkFrame (checkTo f) (empty f && negb (parent_empty_cleared g))
                  (parent_empty_cleared f) (leave from' g))
      end
  end.

(** The [for] loop of a call. *)
Fixpoint visit_all (from to : string) (ps : list Entry) (g : Frame) : option Frame :=
  match ps with
  | [] => Some g
  | q :: qs =>
      match visit from to q g with
      | Some g' => visit_all from to qs g'
      | None => None
      end
  end.

(** [copy_keydb_files(from, to, emptyDirs, copiedFiles)], as the
    constructor calls it, on the directory [from] with the given content. *)
Definition copy_keydb_files (from to : string) (content : list Entry) (l : Lists)
    : option Lists :=
  match visit_all from to content (mkFrame true true false l) with
  | None => None
  | Some g => Some (leave from g)
  end.

End Copy.

(** The files below a directory entry, in the order the loops meet them. *)
Fixpoint files_of (from : string) (p : Entry) : list string :=
  match p with
  | File name => [Repair.path_append from name]
  | Dir name content => flat_map (files_of (Repair.path_append from name)) content
  end.

(** Whether an entry of [from] makes the call on [from] clear its own
    [empty]: a data file, or a directory with a data file right in it. *)
Definition is_data_file (from : string) (p : Entry) : bool :=
  match p with
  | File name => regex_search (Repair.path_append from name)
  | Dir _ _ => false
  end.

Definition clears_empty (from : string) (p : Entry) : bool :=
  match p with
  | File name => regex_search (Repair.path_append from name)
  | Dir name content => existsb (is_data_file (Repair.path_append from name)) content
  end.

(** A directory is below [from] when names, one at least, lead to it from
    [from] with [operator/]. *)
Definition below (from d : string) : Prop :=
  exists name rest, d = fold_left Repair.path_append rest (Repair.path_append from name).

(** What one pass of the loop body does to a frame. *)
Definition visit_effect (from : string) (p : Entry) (f g : Frame) : Prop :=
  copiedFiles (lists g)
    = copiedFiles (lists f) ++ filter (fun x => negb (regex_search x)) (files_of from p) /\
  empty g = empty f && negb (clears_empty from p) /\
  parent_empty_cleared g = parent_empty_cleared f || is_data_file from p /\
  exists sub, emptyDirs (lists g) = emptyDirs (lists f) ++ sub /\ Forall (below from) sub.

End KeyDB.

(** A [keydb] directory that holds a file of the key database and, two
    levels down, an index file of a user database. *)
Definition keydb_tree : list KeyDB.Entry :=
  [ KeyDB.File "WiredTiger.wt";
    KeyDB.Dir "old" [KeyDB.Dir "index" [KeyDB.File "8-123.wt"]] ]%string.

(* ------------------------------------------------------------------ *)
(** ** Clean shutdown *)

Module Shutdown.

Import WiredTigerFileVersion.

(** What [cleanShutdown] asks of the workers, the caches and the storage
    core. *)
Inductive Op :=
| sizeStorer_flush (sync : bool)
| sessionSweeper_shutdown
| journalFlusher_shutdown
| checkpointThread_shutdown
| sizeStorer_reset
| sessionCache_shuttingDown
| conn_close (config : string)
| wiredtiger_open (config : string)
| open_session
| open_cursor (uri : string)
| setTableLogging (key : string) (on : bool)
| cursor_close
| session_close
| conn_reconfigure (config : string)
| encryptionKeyDB_reset.

(** The answers of the size storer and of the storage core: what the flush
    of the size storer throws, the codes of the close of [_conn], of the
    second [wiredtiger_open], of [open_cursor], the keys the metadata
    cursor yields before [next] returns a code other than 0, the status of
    [setTableLogging] for a key, and the codes of [reconfigure] and of the
    close of the second connection. *)
Record Core := {
  flush_throws : option Exn;
  close_rc : Z;
  reopen_rc : Z;
  open_cursor_rc : Z;
  keys : list string;
  setTableLogging_status : string -> Status;
  reconfigure_rc : Z;
  close_again_rc : Z
}.

(** What the function reads beside the members of
    [WiredTigerKVEngine.t]: members the engine record leaves out, the
    value of [leak_memory] once the build and Valgrind have been looked at,
    and [serverGlobalParams.enableMajorityReadConcern]. *)
Record Setting := {
  _conn : bool;
  _sessionSweeper : bool;
  _fileVersion : StartupVersion;
  _wtOpenConfig : string;
  leak_memory : bool;
  enableMajorityReadConcern : bool
}.

(** A run: the operations performed, in order, and how it ends. *)
Definition Run (A : Type) : Type := list Op * (A + Fault).

Definition done {A} (a : A) : Run A := ([], inl a).

Definition halt {A} (f : Fault) : Run A := ([], inr f).

Definition perform {A} (o : Op) (answer : A) : Run A := ([o], inl answer).

Definition andThen {A B} (c : Run A) (k : A -> Run B) : Run B :=
  match c with
  | (t, inl a) => (t ++ fst (k a), snd (k a))
  | (t, inr f) => (t, inr f)
  end.

Notation "x <~ c ;; k" := (andThen c (fun x => k))
  (at level 61, c at next level, right associativity).
Notation "c ;;~ k" := (andThen c (fun _ => k))
  (at level 61, right associativity).

Definition invariantWTOK (rc : Z) : Run unit :=
  if (rc =? 0)%Z then done tt else halt InvariantFailure.

(** The walk over the metadata: logging is switched on for the keys of
    tables; [uassertStatusOK] throws on the first status that is not OK. *)
Fixpoint enable_logging (c : Core) (ks : list string) : Run unit :=
  match ks with
  | [] => done tt
  | key :: rest =>
      if negb (Idents.is_table_key key) then enable_logging c rest
      else
        status <~ perform (setTableLogging key true) (setTableLogging_status c key) ;;
        if isOK status then enable_logging c rest
        else halt (Thrown (AssertionException status))
  end.

(** [syncSizeInfo(true)]: without a size storer nothing is done; a
    [WriteConflictException] of the flush is ignored; an
    [AssertionException] is thrown on unless the engine is not durable and
    the code is ExceededMemoryLimit. *)
Definition syncSizeInfo (c : Core) (e : WiredTigerKVEngine.t) : Run unit :=
  if negb (WiredTigerKVEngine._sizeStorer e) then done tt
  else
    thrown <~ perform (sizeStorer_flush true) (flush_throws c) ;;
    match thrown with
    | None => done tt
    | Some WriteConflictException => done tt
    | Some (AssertionException code) =>
        if negb (WiredTigerKVEngine._durable e)
           && match code with ExceededMemoryLimit => true | _ => false end
        then done tt
        else halt (Thrown (AssertionException code))
    end.

(** "These must be the last things we do before [_conn->close()]". *)
Definition stop_workers (x : Setting) (e : WiredTigerKVEngine.t) : Run unit :=
  (if _sessionSweeper x then perform sessionSweeper_shutdown tt else done tt) ;;~
  (match WiredTigerKVEngine._journalFlusher e with
   | Some _ => perform journalFlusher_shutdown tt
   | None => done tt
   end) ;;~
  (match WiredTigerKVEngine._checkpointThread e with
   | Some _ => perform checkpointThread_shutdown tt
   | None => done tt
   end) ;;~
  perform sizeStorer_reset tt ;;~
  perform sessionCache_shuttingDown tt.

(** Whether this shutdown downgrades the data files. *)
Definition downgrades (g : ServerGlobals) (x : Setting) (e : WiredTigerKVEngine.t) : bool :=
  shouldDowngrade g (_fileVersion x) (WiredTigerKVEngine._readOnly e)
    (WiredTigerKVEngine._inRepairMode e)
    (negb (isNull (WiredTigerKVEngine._recoveryTimestamp e))).

(** From the choice of [closeConfig] to the end of the function. *)
Definition close_connection (g : ServerGlobals) (x : Setting) (c : Core)
    (e : WiredTigerKVEngine.t) : Run unit :=
  let closeConfig := if leak_memory x then "leak_memory=true,"%string else EmptyString in
  if negb (downgrades g x e)
  then
    let closeConfig :=
      (closeConfig ++ (if enableMajorityReadConcern x then "use_timestamp=true,"
                       else "use_timestamp=false,"))%string in
    rc <~ perform (conn_close closeConfig) (close_rc c) ;;
    invariantWTOK rc
  else
    let closeConfig := (closeConfig ++ "use_timestamp=false,")%string in
    rc <~ perform (conn_close closeConfig) (close_rc c) ;;
    invariantWTOK rc ;;~
    rc <~ perform (wiredtiger_open (_wtOpenConfig x)) (reopen_rc c) ;;
    invariantWTOK rc ;;~
    perform open_session tt ;;~
    rc <~ perform (open_cursor "metadata:create") (open_cursor_rc c) ;;
    invariantWTOK rc ;;~
    enable_logging c (keys c) ;;~
    perform cursor_close tt ;;~
    perform session_close tt ;;~
    match getDowngradeString g (_fileVersion x) with
    | None => halt InvariantFailure
    | Some downgrade =>
        rc <~ perform (conn_reconfigure downgrade) (reconfigure_rc c) ;;
        invariantWTOK rc ;;~
        rc <~ perform (conn_close closeConfig) (close_again_rc c) ;;
        invariantWTOK rc
    end.

(** The body of [cleanShutdown]. *)
Definition cleanShutdown_body (g : ServerGlobals) (x : Setting) (c : Core)
    (e : WiredTigerKVEngine.t) : Run unit :=
  (if negb (WiredTigerKVEngine._readOnly e) then syncSizeInfo c e else done tt) ;;~
  if negb (_conn x) then done tt
  else
    stop_workers x e ;;~
    close_connection g x c e.

(** [cleanShutdown]: the body, then [ON_BLOCK_EXIT], which runs when the
    body returns or throws but not when the process is aborted. *)
Definition cleanShutdown (g : ServerGlobals) (x : Setting) (c : Core)
    (e : WiredTigerKVEngine.t) : Run unit :=
  let '(t, r) := cleanShutdown_body g x c e in
  match r with
  | inl _ | inr (Thrown _) => (t ++ [encryptionKeyDB_reset], r)
  | inr _ => (t, r)
  end.

Definition is_setTableLogging (o : Op) : bool :=
  match o with setTableLogging _ _ => true | _ => false end.

(** [closeConfig] without the [use_timestamp] setting. *)
Definition leak_config (x : Setting) : string :=
  if leak_memory x then "leak_memory=true,"%string else EmptyString.

(** The operations on workers and caches that precede the close. *)
Definition is_worker_op (o : Op) : bool :=
  match o with
  | sizeStorer_flush _ | sessionSweeper_shutdown | journalFlusher_shutdown
  | checkpointThread_shutdown | sizeStorer_reset | sessionCache_shuttingDown => true
  | _ => false
  end.

End Shutdown.

(* ------------------------------------------------------------------ *)
(** ** Starting and halting the oplog manager *)

Module OplogManagerCount.

(** The two calls on [_oplogManager]; [start] is shown with its last
    argument. *)
Inductive ManagerCall :=
| oplogManager_start (updateOldestTimestamp : bool)
| oplogManager_halt.

(** [startOplogManager]: the new [_oplogManagerCount] and the calls made.
    The counter is declared in the header; the code compares it with 0,
    increments and decrements it, and it is taken not to overflow. *)
Definition startOplogManager (e : WiredTigerKVEngine.t) (_oplogManagerCount : N)
    : N * list ManagerCall :=
  let calls := if (_oplogManagerCount =? 0)%N
               then [oplogManager_start (negb (WiredTigerKVEngine._keepDataHistory e))]
               else [] in
  ((_oplogManagerCount + 1)%N, calls).

(** [haltOplogManager]; [None] is the failed [invariant]. *)
Definition haltOplogManager (_oplogManagerCount : N) : option (N * list ManagerCall) :=
  if negb (0 <? _oplogManagerCount)%N then None
  else
    let count := (_oplogManagerCount - 1)%N in
    Some (count, if (count =? 0)%N then [oplogManager_halt] else []).

(** The users of the oplog: each starts, and later halts. *)
Inductive Request := Start | Halt.

(** A sequence of requests, served one after the other under
    [_oplogManagerMutex]. *)
Fixpoint serve (e : WiredTigerKVEngine.t) (requests : list Request) (count : N)
    : option (N * list ManagerCall) :=
  match requests with
  | [] => Some (count, [])
  | Start :: rest =>
      let '(count', calls) := startOplogManager e count in
      match serve e rest count' with
      | Some (n, calls') => Some (n, calls ++ calls')
      | None => None
      end
  | Halt :: rest =>
      match haltOplogManager count with
      | None => None
      | Some (count', calls) =>
          match serve e rest count' with
          | Some (n, calls') => Some (n, calls ++ calls')
          | None => None
          end
      end
  end.

(** The manager seen from its calls: started when halted, halted when
    started; the result is whether it runs in the end, [None] when a call
    comes out of turn. *)
Fixpoint replay (running : bool) (calls : list ManagerCall) : option bool :=
  match calls with
  | [] => Some running
  | oplogManager_start _ :: rest => if running then None else replay true rest
  | oplogManager_halt :: rest => if running then replay false rest else None
  end.

Definition count_of (r : Request) (requests : list Request) : N :=
  N.of_nat (List.length (filter (fun q => match r, q with
                                          | Start, Start | Halt, Halt => true
                                          | _, _ => false
                                          end) requests)).

End OplogManagerCount.

(** An arbiter whose feature compatibility version was never initialised,
    started on 4.0 data files, and a storage core on which every call
    succeeds and whose metadata holds two tables and a file. *)
Definition arbiter_globals : WiredTigerFileVersion.ServerGlobals :=
  {| WiredTigerFileVersion.memberState_arbiter := true;
     WiredTigerFileVersion.featureCompatibility_isVersionInitialized := false;
     WiredTigerFileVersion.featureCompatibility_getVersion :=
       WiredTigerFileVersion.kUnsetDefault36Behavior;
     WiredTigerFileVersion.replSettings_usingReplSets := true |}.

Definition setting_40 : Shutdown.Setting :=
  {| Shutdown._conn := true; Shutdown._sessionSweeper := true;
     Shutdown._fileVersion := WiredTigerFileVersion.IS_40;
     Shutdown._wtOpenConfig := "create,"; Shutdown.leak_memory := true;
     Shutdown.enableMajorityReadConcern := true |}.

Definition core_ok : Shutdown.Core :=
  {| Shutdown.flush_throws := None;
     Shutdown.close_rc := 0; Shutdown.reopen_rc := 0; Shutdown.open_cursor_rc := 0;
     Shutdown.keys := ["file:a.wt"; "table:a"; "table:sizeStorer"]%string;
     Shutdown.setTableLogging_status := fun _ => OK;
     Shutdown.reconfigure_rc := 0; Shutdown.close_again_rc := 0 |}.

(* ------------------------------------------------------------------ *)
(** * Properties *)

(** ** Generic facts *)

Lemma skipn_length_app {A} (h l : list A) : skipn (List.length h) (h ++ l) = l.
Proof. induction h as [|x h IH]; simpl; auto. Qed.

Lemma events_since_app {St} (h evs : list Event) (s : St) :
  events_since h (mkWorld s (h ++ evs)) = evs.
Proof. unfold events_since; simpl. apply skipn_length_app. Qed.

(** A timestamp is null exactly when it is below 2^32, the first timestamp
    whose seconds are 1. *)
Lemma isNull_seconds (t : Timestamp) :
  if isNull t then (t < 4294967296)%N else (4294967296 <= t)%N.
Proof.
  unfold isNull, Timestamp in *.
  destruct (N.eqb_spec (t / 4294967296) 0) as [H|H].
  - apply N.div_small_iff in H; [exact H | discriminate].
  - destruct (N.lt_ge_cases t 4294967296) as [Hlt|Hge]; [|exact Hge].
    destruct H. apply N.div_small. exact Hlt.
Qed.

Lemma not_null_from_seconds (t : Timestamp) :
  (4294967296 <= t)%N -> isNull t = false.
Proof.
  intros H. pose proof (isNull_seconds t) as Hn.
  destruct (isNull t); [unfold Timestamp in *; lia | reflexivity].
Qed.

Lemma null_without_seconds (t : Timestamp) :
  (t < 4294967296)%N -> isNull t = true.
Proof.
  intros H. pose proof (isNull_seconds t) as Hn.
  destruct (isNull t); [reflexivity | unfold Timestamp in *; lia].
Qed.

(** One step of symbolic execution of monadic code. *)
Ltac engine_step :=
  repeat progress
    (unfold bind, ret, abort, gets, modify, call, note, past, invariantWTOK;
     cbn beta iota zeta delta [state history final negb]).

(* ------------------------------------------------------------------ *)
(** ** The downgrade decision *)

Section Downgrade.
Import WiredTigerFileVersion.

(** C6. [shouldDowngrade] decides, in this order: read-only gives false;
    otherwise an arbiter gives true; otherwise, with the FCV not
    initialized, true exactly for the startup versions 3.6 and 3.4;
    otherwise, with the FCV fully downgraded, true exactly when the node
    uses replica sets or has no recovery timestamp; otherwise (FCV
    initialized but not fully downgraded) false. *)
Theorem shouldDowngrade_decision :
  forall (g : ServerGlobals) (v : StartupVersion) (readOnly repairMode hasRecoveryTimestamp : bool),
    let r := shouldDowngrade g v readOnly repairMode hasRecoveryTimestamp in
    (readOnly = true -> r = false) /\
    (readOnly = false -> memberState_arbiter g = true -> r = true) /\
    (readOnly = false -> memberState_arbiter g = false ->
     featureCompatibility_isVersionInitialized g = false ->
     (r = true <-> (v = IS_36 \/ v = IS_34))) /\
    (readOnly = false -> memberState_arbiter g = false ->
     featureCompatibility_isVersionInitialized g = true ->
     featureCompatibility_getVersion g = kFullyDowngradedTo36 ->
     (r = true <-> (replSettings_usingReplSets g = true \/ hasRecoveryTimestamp = false))) /\
    (readOnly = false -> memberState_arbiter g = false ->
     featureCompatibility_isVersionInitialized g = true ->
     featureCompatibility_getVersion g <> kFullyDowngradedTo36 ->
     r = false).
Proof.
  intros g v readOnly repairMode hasRT r. subst r. unfold shouldDowngrade.
  split; [intros ->; reflexivity|].
  split; [intros -> ->; reflexivity|].
  split.
  { intros -> -> ->. simpl.
    split.
    - destruct v; simpl; intros E; auto; discriminate.
    - intros [-> | ->]; reflexivity. }
  split.
  { intros -> -> -> ->. simpl.
    split.
    - destruct (replSettings_usingReplSets g); auto.
      destruct hasRT; auto; discriminate.
    - intros [-> | ->]; [reflexivity|].
      destruct (replSettings_usingReplSets g); reflexivity. }
  intros -> -> -> Hv. simpl.
  destruct (featureCompatibility_getVersion g); simpl; try reflexivity.
  exfalso; apply Hv; reflexivity.
Qed.

(** A standalone node (no replica set, no recovery timestamp) whose FCV is
    fully downgraded does downgrade; [shouldDowngrade_decision] applied to
    it. *)
Lemma shouldDowngrade_decision_witness :
  shouldDowngrade
    {| memberState_arbiter := false;
       featureCompatibility_isVersionInitialized := true;
       featureCompatibility_getVersion := kFullyDowngradedTo36;
       replSettings_usingReplSets := false |} IS_40 false false false = true.
Proof.
  apply (proj1 (proj2 (proj2 (proj2
    (shouldDowngrade_decision
       {| memberState_arbiter := false;
          featureCompatibility_isVersionInitialized := true;
          featureCompatibility_getVersion := kFullyDowngradedTo36;
          replSettings_usingReplSets := false |} IS_40 false false false)))));
    try reflexivity.
  right; reflexivity.
Defined.

End Downgrade.

(* ------------------------------------------------------------------ *)
(** ** The first-stable trigger *)

Section FirstStable.
Import WiredTigerCheckpointThread.

Lemma setStableTimestamp_flag_set (ct : t) (ts : Timestamp) :
  _firstStableCheckpointTaken ct = true ->
  snd (setStableTimestamp ct ts) = false /\
  _firstStableCheckpointTaken (fst (setStableTimestamp ct ts)) = true.
Proof.
  intros Hf. unfold setStableTimestamp; simpl. rewrite Hf. simpl. auto.
Qed.

Lemma setStableTimestamp_wakes_sets_flag (ct : t) (ts : Timestamp) :
  snd (setStableTimestamp ct ts) = true ->
  _firstStableCheckpointTaken (fst (setStableTimestamp ct ts)) = true.
Proof.
  unfold setStableTimestamp; simpl.
  destruct (_firstStableCheckpointTaken ct); simpl; [discriminate|].
  destruct ((_stableTimestamp ct <? _initialDataTimestamp ct)%N
            && (_initialDataTimestamp ct <=? ts)%N); simpl; auto; discriminate.
Qed.

Lemma apply_op_flag_set (ct : t) (o : Op) :
  _firstStableCheckpointTaken ct = true ->
  snd (apply_op ct o) = false /\ _firstStableCheckpointTaken (fst (apply_op ct o)) = true.
Proof.
  intros Hf. destruct o as [ts|ts]; simpl.
  - apply setStableTimestamp_flag_set; assumption.
  - auto.
Qed.

Lemma apply_ops_cons (ct : t) (o : Op) (ops : list Op) :
  snd (apply_ops ct (o :: ops)) =
  (if snd (apply_op ct o) then 1 else 0) + snd (apply_ops (fst (apply_op ct o)) ops).
Proof.
  simpl. destruct (apply_op ct o) as [ct1 woke]. simpl.
  destruct (apply_ops ct1 ops) as [ct2 n]. reflexivity.
Qed.

(** Once the one-shot flag is set, no sequence of mutator calls wakes the
    worker. *)
Lemma apply_ops_flag_set (ops : list Op) : forall ct,
  _firstStableCheckpointTaken ct = true -> snd (apply_ops ct ops) = 0.
Proof.
  induction ops as [|o ops IH]; intros ct Hf; simpl; [reflexivity|].
  destruct (apply_op_flag_set ct o Hf) as [Hw Hf'].
  destruct (apply_op ct o) as [ct1 woke] eqn:E; simpl in *. subst woke.
  specialize (IH ct1 Hf').
  destruct (apply_ops ct1 ops) as [ct2 n]; simpl in *. lia.
Qed.

(** Whatever the state and the calls, the worker is woken at most once. *)
Lemma apply_ops_wakes_at_most_once (ops : list Op) : forall ct,
  snd (apply_ops ct ops) <= 1.
Proof.
  induction ops as [|o ops IH]; intros ct; simpl; [lia|].
  destruct (apply_op ct o) as [ct1 woke] eqn:E.
  destruct woke.
  - assert (Hf : _firstStableCheckpointTaken ct1 = true).
    { destruct o as [ts|ts]; simpl in E.
      - pose proof (setStableTimestamp_wakes_sets_flag ct ts) as H.
        rewrite E in H; simpl in H. auto.
      - inversion E. }
    pose proof (apply_ops_flag_set ops ct1 Hf) as H0.
    destruct (apply_ops ct1 ops) as [ct2 n]; simpl in *. lia.
  - specialize (IH ct1).
    destruct (apply_ops ct1 ops) as [ct2 n]; simpl in *. lia.
Qed.

(** C7. With the initial-data timestamp at [d > 1], the stable timestamp
    still below [d] and the trigger not yet fired, two calls
    [setStableTimestamp t] with the same [t >= d] wake the worker exactly
    once, on the first call, which is the one that crosses [d]; whatever
    mutator calls follow, the total stays at one wake-up. *)
Theorem first_stable_trigger_one_shot :
  forall (ct : t) (d ts : Timestamp) (later : list Op),
    (1 < d)%N -> (d <= ts)%N ->
    _initialDataTimestamp ct = d ->
    _firstStableCheckpointTaken ct = false ->
    (_stableTimestamp ct < d)%N ->
    snd (setStableTimestamp ct ts) = true /\
    snd (setStableTimestamp (fst (setStableTimestamp ct ts)) ts) = false /\
    snd (apply_ops ct [op_setStableTimestamp ts; op_setStableTimestamp ts]) = 1 /\
    snd (apply_ops ct (op_setStableTimestamp ts :: op_setStableTimestamp ts :: later)) = 1.
Proof.
  intros ct d ts later Hd Hts Hi Hf Hs.
  assert (H1 : setStableTimestamp ct ts =
               (mk (_shuttingDown ct) ts d true (_lastStableCheckpointTimestamp ct), true)).
  { unfold setStableTimestamp; simpl. rewrite Hf, Hi.
    apply N.ltb_lt in Hs. apply N.leb_le in Hts. rewrite Hs, Hts. reflexivity. }
  assert (H2 : forall ops,
             snd (apply_ops ct (op_setStableTimestamp ts :: op_setStableTimestamp ts :: ops)) = 1).
  { intros ops. rewrite !apply_ops_cons. cbn [apply_op]. rewrite H1. cbn [fst snd].
    set (ct1 := mk (_shuttingDown ct) ts d true (_lastStableCheckpointTimestamp ct)).
    change (setStableTimestamp ct1 ts) with (ct1, false). cbn [fst snd].
    rewrite (apply_ops_flag_set ops ct1 eq_refl). reflexivity. }
  rewrite H1. simpl fst. simpl snd.
  split; [reflexivity|].
  split; [reflexivity|].
  split; [apply (H2 [])|apply H2].
Qed.

(** The engine constructor's sequence on a fresh worker with recovery
    timestamp 256: [first_stable_trigger_one_shot] applied to it. *)
Lemma first_stable_trigger_one_shot_witness :
  snd (setStableTimestamp (setInitialDataTimestamp create 256%N) 256%N) = true /\
  snd (setStableTimestamp
         (fst (setStableTimestamp (setInitialDataTimestamp create 256%N) 256%N)) 256%N) = false /\
  snd (apply_ops (setInitialDataTimestamp create 256%N)
         [op_setStableTimestamp 256%N; op_setStableTimestamp 256%N]) = 1 /\
  snd (apply_ops (setInitialDataTimestamp create 256%N)
         (op_setStableTimestamp 256%N :: op_setStableTimestamp 256%N
            :: [op_setInitialDataTimestamp 300%N; op_setStableTimestamp 400%N])) = 1.
Proof.
  apply (first_stable_trigger_one_shot (setInitialDataTimestamp create 256%N) 256%N 256%N
           [op_setInitialDataTimestamp 300%N; op_setStableTimestamp 400%N]).
  - reflexivity.
  - discriminate.
  - reflexivity.
  - reflexivity.
  - reflexivity.
Defined.

End FirstStable.

(* ------------------------------------------------------------------ *)
(** ** One tick of the checkpoint worker *)

Section CheckpointTick.
Import WiredTigerCheckpointThread.

Lemma apply_ops_keeps_lastStable (ops : list Op) : forall ct,
  _lastStableCheckpointTimestamp (fst (apply_ops ct ops)) = _lastStableCheckpointTimestamp ct.
Proof.
  induction ops as [|o ops IH]; intros ct; simpl; [reflexivity|].
  destruct (apply_op ct o) as [ct1 woke] eqn:E.
  specialize (IH ct1). destruct (apply_ops ct1 ops) as [ct2 n]; simpl in *.
  rewrite IH. destruct o as [ts|ts]; simpl in E.
  - unfold setStableTimestamp in E; simpl in E.
    destruct (_firstStableCheckpointTaken ct);
      [|destruct ((_stableTimestamp ct <? _initialDataTimestamp ct)%N
                  && (_initialDataTimestamp ct <=? ts)%N)];
      inversion E; reflexivity.
  - inversion E; reflexivity.
Qed.

(** The stable timestamp published after the checkpoint call is the one
    loaded before it: stores by other threads during the call do not reach
    [_lastStableCheckpointTimestamp]. *)
Lemma store_after_interference (v : N) (ops : list Op) (ct : t) :
  _lastStableCheckpointTimestamp
    (store_lastStableCheckpointTimestamp v (fst (apply_ops ct ops))) = v.
Proof. reflexivity. Qed.

(** One step of symbolic execution of the worker's monadic code. *)
Ltac run_step :=
  repeat progress
    (unfold run_iteration, run_try, run_catch, getSession, interfere, bind, ret, abort,
       gets, modify, call, invariantWTOK;
     cbn beta iota zeta delta [state history final negb]).

(** C1. Let [stable] and [initialData] be the values a tick sampled.  A
    timestamped checkpoint ([use_timestamp=true]) of the main database is
    issued only if [initialData > 1], majority read concern is enabled and
    [stable >= initialData]; an untimestamped one only if
    [initialData <= 1] or majority read concern is disabled; with
    [stable < initialData] (the other two conditions holding) the tick
    skips: neither is issued.  On a tick that gets its session, the converse
    holds too: the stable checkpoint is taken whenever its three conditions
    hold, the full one whenever [initialData <= 1] or majority read concern
    is disabled; and when the stable checkpoint succeeds, the published
    [_lastStableCheckpointTimestamp] is the stable timestamp loaded before
    the checkpoint call, whatever other threads store during the call. *)
Theorem run_iteration_checkpoint_choice :
  forall (mrc keydb : bool) (wt : StorageCore) (sess : list Event -> option Exn)
         (sched : Schedule) (w : World t),
    let stable := _stableTimestamp (state w) in
    let ct1 := fst (apply_ops (state w) (after_stable_load sched)) in
    let initialData := _initialDataTimestamp ct1 in
    let second := _stableTimestamp (fst (apply_ops ct1 (before_second_load sched))) in
    let o := run_iteration mrc keydb wt sess sched w in
    let evs := events_since (history w) (final o) in
    (stable_checkpoint_taken evs = true ->
       (1 < initialData)%N /\ mrc = true /\ (initialData <= stable)%N) /\
    (full_checkpoint_taken evs = true -> (initialData <= 1)%N \/ mrc = false) /\
    ((1 < initialData)%N -> mrc = true -> (stable < initialData)%N ->
       stable_checkpoint_taken evs = false /\ full_checkpoint_taken evs = false) /\
    (sess (history w) = None ->
       ((1 < initialData)%N /\ mrc = true /\ (initialData <= stable)%N ->
          stable_checkpoint_taken evs = true) /\
       ((initialData <= 1)%N \/ mrc = false -> full_checkpoint_taken evs = true) /\
       ((1 < initialData)%N -> mrc = true -> (initialData <= stable)%N ->
          wt (history w) (session_checkpoint MainDB "use_timestamp=true") = 0%Z ->
          _lastStableCheckpointTimestamp (state (final o)) = second)).
Proof.
  intros mrc keydb wt sess sched [ct h]. cbv zeta.
  run_step.
  set (ct1 := fst (apply_ops ct (after_stable_load sched))).
  destruct (sess h) as [e|] eqn:Hsess;
  (destruct (N.leb_spec (_initialDataTimestamp ct1) 1) as [Hi|Hi];
    [|destruct mrc;
      [destruct (N.ltb_spec (_stableTimestamp ct) (_initialDataTimestamp ct1)) as [Hlt|Hge]|]]);
    run_step; try rewrite Hsess; run_step;
    repeat match goal with
      | |- context [if (?r =? 0)%Z then _ else _] =>
          let E := fresh "E" in destruct (r =? 0)%Z eqn:E; run_step
      | |- context [if keydb then _ else _] => destruct keydb; run_step
      | |- context [if isShutdownError ?c then _ else _] =>
          destruct (isShutdownError c); run_step
      | |- context [match e with WriteConflictException => _ | _ => _ end] =>
          destruct e; run_step
      end;
    unfold events_since; cbn [state history];
    repeat rewrite <- app_assoc;
    rewrite ?skipn_length_app, ?skipn_all;
    cbn [stable_checkpoint_taken full_checkpoint_taken existsb is_checkpoint fst
         Target_eqb andb orb app];
    rewrite ?String.eqb_refl;
    repeat match goal with
      | |- context [String.eqb ?a ?b] => change (String.eqb a b) with false
      end;
    cbn [andb orb];
    repeat split; intros;
    repeat match goal with
      | H : _ /\ _ |- _ => destruct H
      | H : _ \/ _ |- _ => destruct H
      end;
    try discriminate; try lia; auto;
    try match goal with
      | Hrc : wt _ _ = 0%Z, E : (wt _ _ =? 0)%Z = false |- _ =>
          rewrite Hrc in E; discriminate E
      end;
    try apply store_after_interference.
Qed.

End CheckpointTick.

(** [run_iteration_checkpoint_choice] on the restart scenario: stable and
    initial-data timestamps both 0x100, majority read concern on.  The tick
    takes a stable checkpoint and publishes 0x100. *)
Lemma run_iteration_checkpoint_choice_witness :
  stable_checkpoint_taken
    (events_since []
       (final (WiredTigerCheckpointThread.run_iteration true false wt_ok (fun _ => None)
                 no_interference (mkWorld (worker 256 256) [])))) = true /\
  WiredTigerCheckpointThread._lastStableCheckpointTimestamp
    (state (final (WiredTigerCheckpointThread.run_iteration true false wt_ok (fun _ => None)
                     no_interference (mkWorld (worker 256 256) [])))) = 256%N.
Proof.
  pose proof (run_iteration_checkpoint_choice true false wt_ok (fun _ => None)
                no_interference (mkWorld (worker 256 256) [])) as H.
  cbv zeta in H. destruct H as [_ [_ [_ H]]].
  destruct (H eq_refl) as [H1 [_ H3]].
  split.
  - apply H1. split; [reflexivity|]. split; [reflexivity|].
    intro Hx; discriminate Hx.
  - apply H3; [reflexivity | reflexivity | intro Hx; discriminate Hx | reflexivity].
Defined.

(** A store of 0x200 by another thread while the checkpoint call blocks does
    not reach the published value: the tick loaded 0x100 before the call and
    publishes 0x100, although the stable timestamp is 0x200 afterwards. *)
Example run_iteration_publishes_earlier_load :
  let o := WiredTigerCheckpointThread.run_iteration true false wt_ok (fun _ => None)
             {| WiredTigerCheckpointThread.after_stable_load := [];
                WiredTigerCheckpointThread.before_second_load := [];
                WiredTigerCheckpointThread.during_checkpoint :=
                  [WiredTigerCheckpointThread.op_setStableTimestamp 512%N] |}
             (mkWorld (worker 256 256) []) in
  WiredTigerCheckpointThread._lastStableCheckpointTimestamp (state (final o)) = 256%N /\
  WiredTigerCheckpointThread._stableTimestamp (state (final o)) = 512%N.
Proof. split; reflexivity. Qed.

(* ------------------------------------------------------------------ *)
(** ** Dropping idents *)

Section DropIdent.
Import WiredTigerKVEngine.
Variable wt : StorageCore.

(** C4. [dropIdent] returns OK without touching the engine when the storage
    core's drop returns 0 or ENOENT; on EBUSY it puts the URI on the drop
    queue, at its front, leaves every other member of the engine as it
    was, and returns OK; on any other code the process fails an
    invariant. *)
Theorem dropIdent_return_codes :
  forall (ident : string) (w : World t),
    let rc := dropIdent_rc wt w ident in
    let e := state w in
    ((rc = 0%Z \/ rc = ENOENT) ->
       exists w', dropIdent wt ident w = Returns OK w' /\ state w' = state w) /\
    (rc = EBUSY ->
       exists w', dropIdent wt ident w = Returns OK w' /\
                  _identToDrop (state w') = _uri ident :: _identToDrop e /\
                  state w' = mk (_durable e) (_ephemeral e) (_inRepairMode e) (_readOnly e)
                               (_keepDataHistory e) (_recoveryTimestamp e)
                               (_oldestTimestamp e) (_uri ident :: _identToDrop e)
                               (_checkpointThread e) (_journalFlusher e) (_sizeStorer e)
                               (WTPreserveSnapshotHistoryIndefinitely e)
                               (getOplogReadTimestamp e) (getLocalSnapshot e)) /\
    (rc <> 0%Z -> rc <> EBUSY -> rc <> ENOENT ->
       exists w', dropIdent wt ident w = Aborts InvariantFailure w' /\ state w' = state w).
Proof.
  intros ident [e h]. cbv zeta. unfold dropIdent_rc, dropIdent. engine_step.
  rewrite <- !app_assoc. cbn [app].
  match goal with |- context [(?x =? 0)%Z] => set (rc := x) end.
  split; [|split].
  - intros [H | H]; rewrite H; cbn; eexists; split; reflexivity.
  - intros H; rewrite H; cbn; eexists; split; [reflexivity|].
    destruct e; split; reflexivity.
  - intros H0 Hb He.
    destruct (Z.eqb_spec rc 0); [contradiction|].
    destruct (Z.eqb_spec rc EBUSY); [contradiction|].
    destruct (Z.eqb_spec rc ENOENT); [contradiction|].
    engine_step. eexists; split; reflexivity.
Qed.

Lemma with_identToDrop_same (e : t) : with_identToDrop (_identToDrop e) e = e.
Proof. destruct e; reflexivity. Qed.

(** The reaper's loop, whatever the storage core answers and however the
    loop ends: it issues only [drop] calls, at most [n] of them; the URIs
    it pops are, in order, a prefix of the initial queue followed by the
    URIs it re-enqueued, and the queue it leaves is the rest of that list.
    It returns when every drop gave 0 or EBUSY and fails an invariant at the
    first other code. *)
Lemma dropSomeQueuedIdents_loop_spec (n : nat) : forall w : World t,
  exists evs : list Event,
    history (final (dropSomeQueuedIdents_loop wt n w)) = history w ++ evs /\
    List.length evs <= n /\
    List.length (popped evs) = List.length evs /\
    popped evs =
      firstn (List.length evs) (_identToDrop (state w) ++ dropped_with EBUSY evs) /\
    state (final (dropSomeQueuedIdents_loop wt n w)) =
      with_identToDrop
        (skipn (List.length evs) (_identToDrop (state w) ++ dropped_with EBUSY evs))
        (state w) /\
    (forall a w', dropSomeQueuedIdents_loop wt n w = Returns a w' ->
                  Forall dropped_or_busy evs) /\
    (forall f w', dropSomeQueuedIdents_loop wt n w = Aborts f w' ->
                  f = InvariantFailure /\
                  exists evs' u rc, evs = evs' ++ [(session_drop u dropConfig, rc)] /\
                                    rc <> 0%Z /\ rc <> EBUSY).
Proof.
  assert (Hnil : forall (e : t) (h : list Event) (m : nat),
             exists evs : list Event,
               history (final (@Returns t unit tt (mkWorld e h))) = h ++ evs /\
               List.length evs <= m /\
               List.length (popped evs) = List.length evs /\
               popped evs = firstn (List.length evs) (_identToDrop e ++ dropped_with EBUSY evs) /\
               state (final (@Returns t unit tt (mkWorld e h))) =
                 with_identToDrop
                   (skipn (List.length evs) (_identToDrop e ++ dropped_with EBUSY evs)) e /\
               (forall a w', @Returns t unit tt (mkWorld e h) = Returns a w' ->
                             Forall dropped_or_busy evs) /\
               (forall f w', @Returns t unit tt (mkWorld e h) = Aborts f w' ->
                             f = InvariantFailure /\
                             exists evs' u rc, evs = evs' ++ [(session_drop u dropConfig, rc)] /\
                                               rc <> 0%Z /\ rc <> EBUSY)).
  { intros e h m. exists []. cbn. rewrite !app_nil_r, with_identToDrop_same.
    repeat split; auto; try lia; discriminate. }
  induction n as [|n IH]; intros [e h].
  - apply Hnil.
  - cbn [dropSomeQueuedIdents_loop]. engine_step.
    destruct (_identToDrop e) as [|uri rest] eqn:Hq.
    + rewrite <- Hq. apply Hnil.
    + engine_step.
      set (rc := wt h (session_drop uri dropConfig)).
      set (ev := (session_drop uri dropConfig, rc)).
      destruct (Z.eqb_spec rc EBUSY) as [Hb|Hnb].
      * (* still busy: back of the queue *)
        engine_step.
        destruct (IH (mkWorld (with_identToDrop (rest ++ [uri]) (with_identToDrop rest e))
                        (h ++ [ev])))
          as (evs & Hh & Hl & Hp & Hf & Hs & Hr & Ha).
        cbn [state history _identToDrop with_identToDrop] in *.
        exists (ev :: evs).
        assert (Hd : dropped_with EBUSY (ev :: evs) = uri :: dropped_with EBUSY evs).
        { unfold dropped_with at 1. cbn [flat_map drop_of fst snd ev].
          destruct (Z.eqb_spec rc EBUSY); [reflexivity | contradiction]. }
        rewrite Hd. cbn [List.length popped flat_map drop_of fst snd ev app firstn skipn].
        fold (popped evs). rewrite <- app_assoc in Hf, Hs. cbn [app] in Hf, Hs.
        split; [rewrite Hh, <- app_assoc; reflexivity|].
        split; [lia|]. split; [cbn; lia|].
        split; [cbn [app]; rewrite Hf at 1; reflexivity|].
        split; [exact Hs|].
        split.
        { intros a w' E. constructor; [right; exact Hb | eapply Hr; exact E]. }
        { intros f w' E. destruct (Ha f w' E) as (-> & evs' & u & r & -> & H0 & H1).
          split; [reflexivity|]. exists (ev :: evs'), u, r. repeat split; auto. }
      * destruct (Z.eqb_spec rc 0) as [H0|Hn0].
        -- (* dropped *)
           engine_step.
           destruct (IH (mkWorld (with_identToDrop rest e) (h ++ [ev])))
             as (evs & Hh & Hl & Hp & Hf & Hs & Hr & Ha).
           cbn [state history _identToDrop with_identToDrop] in *.
           exists (ev :: evs).
           assert (Hd : dropped_with EBUSY (ev :: evs) = dropped_with EBUSY evs).
           { unfold dropped_with at 1. cbn [flat_map drop_of fst snd ev].
             destruct (Z.eqb_spec rc EBUSY); [contradiction | reflexivity]. }
           rewrite Hd. cbn [List.length popped flat_map drop_of fst snd ev app firstn skipn].
           fold (popped evs).
           split; [rewrite Hh, <- app_assoc; reflexivity|].
           split; [lia|]. split; [cbn; lia|].
           split; [cbn [app]; rewrite Hf at 1; reflexivity|].
           split; [exact Hs|].
           split.
           { intros a w' E. constructor; [left; exact H0 | eapply Hr; exact E]. }
           { intros f w' E. destruct (Ha f w' E) as (-> & evs' & u & r & -> & H1 & H2).
             split; [reflexivity|]. exists (ev :: evs'), u, r. repeat split; auto. }
        -- (* any other code: invariant failure *)
           engine_step.
           exists [ev].
           assert (Hd : dropped_with EBUSY [ev] = []).
           { unfold dropped_with. cbn [flat_map drop_of fst snd ev].
             destruct (Z.eqb_spec rc EBUSY); [contradiction | reflexivity]. }
           rewrite Hd. cbn. rewrite app_nil_r.
           split; [reflexivity|]. split; [lia|]. split; [reflexivity|].
           split; [reflexivity|]. split; [reflexivity|].
           split; [intros; discriminate|].
           intros f w' E. inversion E; subst. split; [reflexivity|].
           exists [], uri, rc. repeat split; auto.
Qed.

Lemma dropSomeQueuedIdents_is_loop (w : World t) :
  dropSomeQueuedIdents wt w =
  dropSomeQueuedIdents_loop wt
    (Z.to_nat (numToDelete_of (to_int (Z.of_nat (List.length (_identToDrop (state w))))))) w.
Proof. destruct w as [e h]. reflexivity. Qed.

(** Every attempted drop that ended with 0 or EBUSY is counted once, either
    as dropped or as busy. *)
Lemma popped_dropped_or_busy (evs : list Event) :
  Forall dropped_or_busy evs ->
  Permutation (popped evs) (dropped_with 0 evs ++ dropped_with EBUSY evs).
Proof.
  induction 1 as [|[c rc] evs Hev _ IH]; [constructor|].
  unfold popped, dropped_with in *. cbn [flat_map drop_of fst snd].
  destruct c; cbn [app]; try exact IH.
  destruct Hev as [E | E]; cbn [snd] in E; subst rc; cbn [Z.eqb EBUSY app].
  - constructor. exact IH.
  - apply Permutation_cons_app. exact IH.
Qed.

(** C10. [dropSomeQueuedIdents] loses no queued URI.  Each URI it pops comes
    from the front of the queue and gets one drop attempt; on EBUSY it is put
    at the back, so the queue left behind is what remains of "initial queue
    followed by the busy URIs" after the popped prefix.  When the call
    returns, every attempt ended with 0 or EBUSY and the initial queue is,
    as a multiset, the URIs dropped with result 0 together with the final
    queue; while no URI is popped twice, the final queue is the URIs never
    popped followed by those that stayed busy.  Any other result code ends
    the call in an invariant failure at that drop. *)
Theorem dropSomeQueuedIdents_loses_nothing :
  forall w : World t,
    let o := dropSomeQueuedIdents wt w in
    let evs := events_since (history w) (final o) in
    let q0 := _identToDrop (state w) in
    let q1 := _identToDrop (state (final o)) in
    let busy := dropped_with EBUSY evs in
    popped evs = firstn (List.length evs) (q0 ++ busy) /\
    q1 = skipn (List.length evs) (q0 ++ busy) /\
    (List.length evs <= List.length q0 -> q1 = skipn (List.length evs) q0 ++ busy) /\
    (forall a w', o = Returns a w' ->
       Forall dropped_or_busy evs /\ Permutation q0 (dropped_with 0 evs ++ q1)) /\
    (forall f w', o = Aborts f w' ->
       f = InvariantFailure /\
       exists evs' u rc, evs = evs' ++ [(session_drop u dropConfig, rc)] /\
                         rc <> 0%Z /\ rc <> EBUSY) /\
    (Forall dropped_or_busy evs -> exists w', o = Returns tt w').
Proof.
  intros w. cbv zeta. rewrite dropSomeQueuedIdents_is_loop.
  set (n := Z.to_nat _).
  destruct (dropSomeQueuedIdents_loop_spec n w)
    as (evs & Hh & Hl & Hp & Hf & Hs & Hr & Ha).
  assert (Hev : events_since (history w) (final (dropSomeQueuedIdents_loop wt n w)) = evs).
  { unfold events_since. rewrite Hh. apply skipn_length_app. }
  rewrite Hev, Hs. cbn [_identToDrop with_identToDrop].
  split; [exact Hf|]. split; [reflexivity|].
  split.
  { intros Hle. rewrite skipn_app.
    replace (List.length evs - List.length (_identToDrop (state w))) with 0 by lia.
    reflexivity. }
  split.
  { intros a w' E. pose proof (Hr a w' E) as Hall. split; [exact Hall|].
    apply Permutation_app_inv_r with (l := dropped_with EBUSY evs).
    rewrite <- (firstn_skipn (List.length evs)
                  (_identToDrop (state w) ++ dropped_with EBUSY evs)) at 1.
    rewrite <- Hf.
    rewrite (popped_dropped_or_busy evs Hall).
    rewrite <- !app_assoc. apply Permutation_app_head. apply Permutation_app_comm. }
  split; [exact Ha|].
  intros Hall.
  destruct (dropSomeQueuedIdents_loop wt n w) as [[] w'|f w'] eqn:E.
  - exists w'. reflexivity.
  - exfalso. destruct (Ha f w' eq_refl) as (_ & evs' & u & rc & -> & H0 & Hb).
    apply Forall_app in Hall. destruct Hall as [_ Hlast].
    inversion Hlast as [|x l [Hx | Hx] _]; cbn [snd] in Hx; contradiction.
Qed.

End DropIdent.

(** A drop that fails with EINVAL ends the process, queue untouched. *)
Example dropIdent_einval_is_fatal :
  exists w', WiredTigerKVEngine.dropIdent wt_einval "x" world0 = Aborts InvariantFailure w' /\
             state w' = engine0.
Proof. eexists. split; reflexivity. Qed.

(** [dropIdent_return_codes] on a busy table: the scenario "drop a busy
    ident" of the spec.  The call returns OK and the URI is queued. *)
Lemma dropIdent_return_codes_witness :
  exists w', WiredTigerKVEngine.dropIdent wt_busy "x" world0 = Returns OK w' /\
             WiredTigerKVEngine._identToDrop (state w') = ["table:x"%string] /\
             state w' = WiredTigerKVEngine.mk true false false false true 0%N 0%N
                          ["table:x"%string]
                          (Some WiredTigerCheckpointThread.create)
                          (Some WiredTigerJournalFlusher.create) true false 0%N None.
Proof.
  exact (proj1 (proj2 (dropIdent_return_codes wt_busy "x" world0)) eq_refl).
Defined.

(** A run of [dropSomeQueuedIdents_loses_nothing]: the queue holds "table:a",
    "table:b", "table:c" ([world_abc]) and only "table:b" is still busy.  All three are
    tried in queue order, "table:b" goes to the back and is tried again,
    ten attempts in all, and it is what the queue holds in the end. *)
Lemma dropSomeQueuedIdents_loses_nothing_witness :
  Permutation ["table:a"; "table:b"; "table:c"]%string
    (dropped_with 0
       (events_since []
          (final (WiredTigerKVEngine.dropSomeQueuedIdents wt_busy_b
                    world_abc)))
     ++ WiredTigerKVEngine._identToDrop
          (state (final (WiredTigerKVEngine.dropSomeQueuedIdents wt_busy_b world_abc)))).
Proof.
  pose proof (dropSomeQueuedIdents_loses_nothing wt_busy_b world_abc) as H.
  cbv zeta in H. destruct H as (_ & _ & _ & H & _).
  remember (WiredTigerKVEngine.dropSomeQueuedIdents wt_busy_b world_abc) as o eqn:E.
  destruct o as [[] w'|f w'].
  - destruct (H tt w' eq_refl) as [_ Hperm]. exact Hperm.
  - exfalso. vm_compute in E. discriminate E.
Defined.

(* ------------------------------------------------------------------ *)
(** ** Order of the drop queue *)

Section DropQueueOrder.
Import WiredTigerKVEngine.

(** C2, as the spec states it, fails.  Two [dropIdent] calls, for "a" and
    then for "b", both answered EBUSY, leave the queue as "table:b",
    "table:a": the later insertion is ahead of the earlier one, and the
    reaper then tries "table:b" first.  Insertion order would be
    "table:a", "table:b". *)
Lemma drop_queue_not_fifo :
  map _uri ["a"; "b"]%string = ["table:a"; "table:b"]%string /\
  _identToDrop (state (final (dropIdents wt_busy_twice ["a"; "b"]%string world0)))
    = ["table:b"; "table:a"]%string /\
  popped (events_since
            (history (final (dropIdents wt_busy_twice ["a"; "b"]%string world0)))
            (final (dropSomeQueuedIdents wt_busy_twice
                      (final (dropIdents wt_busy_twice ["a"; "b"]%string world0)))))
    = ["table:b"; "table:a"]%string /\
  ["table:b"; "table:a"]%string <> ["table:a"; "table:b"]%string.
Proof.
  split; [reflexivity|]. split; [vm_compute; reflexivity|].
  split; [vm_compute; reflexivity|]. discriminate.
Qed.

Lemma dropIdent_busy (wt : StorageCore) (ident : string) (w : World t) :
  (forall h u c, wt h (session_drop u c) = EBUSY) ->
  exists w', dropIdent wt ident w = Returns OK w' /\
             _identToDrop (state w') = _uri ident :: _identToDrop (state w).
Proof.
  intros Hbusy. destruct w as [e h]. unfold dropIdent. engine_step.
  rewrite Hbusy. cbn. eexists. split; reflexivity.
Qed.

(** C2, amended.  [dropIdent] inserts at the front: after a sequence of
    [dropIdent] calls whose drops all return EBUSY, every call has returned
    OK and the queue holds their URIs in reverse order of insertion, ahead
    of what it held before.  The reaper pops from the front of the queue,
    in queue order (so the most recently inserted URI first), and puts a
    URI that is still busy at the back. *)
Theorem drop_queue_order :
  forall (wt wt' : StorageCore) (idents : list string) (w w2 : World t),
    (forall h u c, wt h (session_drop u c) = EBUSY) ->
    (exists w', dropIdents wt idents w = Returns (map (fun _ => OK) idents) w' /\
                _identToDrop (state w') = rev (map _uri idents) ++ _identToDrop (state w)) /\
    (let o := dropSomeQueuedIdents wt' w2 in
     let evs := events_since (history w2) (final o) in
     let busy := dropped_with EBUSY evs in
     popped evs = firstn (List.length evs) (_identToDrop (state w2) ++ busy) /\
     _identToDrop (state (final o)) =
       skipn (List.length evs) (_identToDrop (state w2) ++ busy)).
Proof.
  intros wt wt' idents w w2 Hbusy. split.
  - revert w. induction idents as [|i idents IH]; intros w.
    + exists w. split; reflexivity.
    + destruct (dropIdent_busy wt i w Hbusy) as (w1 & E1 & Q1).
      destruct (IH w1) as (w' & E & Q).
      exists w'. split.
      * cbn [dropIdents map]. unfold bind at 1. rewrite E1.
        unfold bind at 1. rewrite E. reflexivity.
      * rewrite Q, Q1. cbn [map rev]. rewrite <- app_assoc. reflexivity.
  - cbv zeta. rewrite dropSomeQueuedIdents_is_loop.
    set (n := Z.to_nat _).
    destruct (dropSomeQueuedIdents_loop_spec wt' n w2)
      as (evs & Hh & Hl & Hp & Hf & Hs & Hr & Ha).
    assert (Hev : events_since (history w2) (final (dropSomeQueuedIdents_loop wt' n w2)) = evs).
    { unfold events_since. rewrite Hh. apply skipn_length_app. }
    rewrite Hev, Hs. cbn [_identToDrop with_identToDrop]. split; [exact Hf | reflexivity].
Qed.

(** [drop_queue_order] with every drop busy: three idents are dropped into
    an empty queue, then the reaper runs on a queue of three with only
    "table:b" busy. *)
Lemma drop_queue_order_witness :
  (exists w', dropIdents wt_busy ["a"; "b"; "c"]%string world0
              = Returns [OK; OK; OK] w' /\
              _identToDrop (state w') = ["table:c"; "table:b"; "table:a"]%string) /\
  (popped (events_since [] (final (dropSomeQueuedIdents wt_busy_b world_abc))) =
     firstn (List.length (events_since [] (final (dropSomeQueuedIdents wt_busy_b world_abc))))
       (["table:a"; "table:b"; "table:c"]%string
        ++ dropped_with EBUSY
             (events_since [] (final (dropSomeQueuedIdents wt_busy_b world_abc)))) /\
   _identToDrop (state (final (dropSomeQueuedIdents wt_busy_b world_abc))) =
     skipn (List.length (events_since [] (final (dropSomeQueuedIdents wt_busy_b world_abc))))
       (["table:a"; "table:b"; "table:c"]%string
        ++ dropped_with EBUSY
             (events_since [] (final (dropSomeQueuedIdents wt_busy_b world_abc))))).
Proof.
  exact (drop_queue_order wt_busy wt_busy_b ["a"; "b"; "c"]%string world0 world_abc
           (fun _ _ _ => eq_refl)).
Defined.

End DropQueueOrder.

(* ------------------------------------------------------------------ *)
(** ** Timestamps: oldest, recover-to-stable, last stable checkpoint *)

Section Timestamps.
Import WiredTigerKVEngine.

(** C3, as the spec states it, fails.  Take the timestamps of 5 and of 10
    seconds, 0x500000000 and 0xa00000000.  After [setStableTimestamp] of the
    first the worker's stable timestamp is 0x500000000, the oplog-read
    timestamp is 0 and there is no local snapshot.  [setOldestTimestamp] of
    the second, without force, then pushes [oldest_timestamp=a00000000],
    although the minimum with the stable timestamp would be 0x500000000. *)
Lemma setOldestTimestamp_ignores_stable :
  isNull ts_5s = false /\
  option_map CT._stableTimestamp
    (_checkpointThread (state (final (setStableTimestamp wt_ok ts_5s world0))))
    = Some ts_5s /\
  getOplogReadTimestamp (state (final (setStableTimestamp wt_ok ts_5s world0))) = 0%N /\
  getLocalSnapshot (state (final (setStableTimestamp wt_ok ts_5s world0))) = None /\
  pushed (events_since (history (final (setStableTimestamp wt_ok ts_5s world0)))
            (final (setOldestTimestamp wt_ok ts_10s false
                      (final (setStableTimestamp wt_ok ts_5s world0)))))
    = ["oldest_timestamp=a00000000"]%string /\
  spec_clamp_with_stable ts_10s ts_5s 0%N None = ts_5s /\
  ("oldest_timestamp=" ++ llx (spec_clamp_with_stable ts_10s ts_5s 0%N None))%string
    = "oldest_timestamp=500000000"%string /\
  "oldest_timestamp=a00000000"%string <> "oldest_timestamp=500000000"%string.
Proof.
  repeat split; try (vm_compute; reflexivity). discriminate.
Qed.

(** The two conditional assignments of [setOldestTimestamp] compute the
    minimum over the timestamps that count. *)
Lemma clamp_oplog_snapshot_steps (ts oplogRead : Timestamp) (ls : option Timestamp) :
  match ls with
  | Some l =>
      if (l <? (if negb (isNull oplogRead) && (oplogRead <? ts)%N then oplogRead else ts))%N
      then l
      else (if negb (isNull oplogRead) && (oplogRead <? ts)%N then oplogRead else ts)
  | None => if negb (isNull oplogRead) && (oplogRead <? ts)%N then oplogRead else ts
  end = clamp_oplog_snapshot ts oplogRead ls.
Proof.
  pose proof (isNull_seconds oplogRead) as Hnull.
  unfold clamp_oplog_snapshot, Timestamp in *.
  destruct (isNull oplogRead); cbn [negb andb];
    (destruct (N.ltb_spec oplogRead 4294967296) as [Hs|Hs]; [|try lia]); try lia.
  - destruct ls as [l|]; [|reflexivity].
    destruct (N.ltb_spec l ts); lia.
  - destruct (N.ltb_spec oplogRead ts) as [Ho|Ho].
    + replace (N.min ts oplogRead) with oplogRead by lia.
      destruct ls as [l|]; [|reflexivity].
      destruct (N.ltb_spec l oplogRead); lia.
    + replace (N.min ts oplogRead) with ts by lia.
      destruct ls as [l|]; [|reflexivity].
      destruct (N.ltb_spec l ts); lia.
Qed.

(** C3, amended.  With the fail point off and [ts <> 0],
    [setOldestTimestamp ts false] makes exactly one call into the storage
    core, [set_timestamp] with [oldest_timestamp=<hex>] of [ts] clamped
    down to the minimum of the oplog-read timestamp (when it is not null,
    that is, when its seconds are not 0) and the local snapshot timestamp
    (when there is one); the stable timestamp plays no part. *)
Theorem setOldestTimestamp_pushes_clamped :
  forall (wt : StorageCore) (ts : Timestamp) (w : World t),
    ts <> 0%N ->
    WTPreserveSnapshotHistoryIndefinitely (state w) = false ->
    let clamped := clamp_oplog_snapshot ts (getOplogReadTimestamp (state w))
                     (getLocalSnapshot (state w)) in
    let cfg := ("oldest_timestamp=" ++ llx clamped)%string in
    events_since (history w) (final (setOldestTimestamp wt ts false w))
      = [(conn_set_timestamp cfg, wt (history w) (conn_set_timestamp cfg))] /\
    pushed (events_since (history w) (final (setOldestTimestamp wt ts false w))) = [cfg].
Proof.
  intros wt ts [e h] Hts Hfp. cbn [state history] in *. cbv zeta.
  assert (E : events_since h (final (setOldestTimestamp wt ts false (mkWorld e h)))
              = [(conn_set_timestamp
                    ("oldest_timestamp=" ++ llx (clamp_oplog_snapshot ts
                       (getOplogReadTimestamp e) (getLocalSnapshot e)))%string,
                  wt h (conn_set_timestamp
                    ("oldest_timestamp=" ++ llx (clamp_oplog_snapshot ts
                       (getOplogReadTimestamp e) (getLocalSnapshot e)))%string))]).
  { unfold setOldestTimestamp. engine_step. rewrite Hfp.
    destruct (N.eqb_spec ts 0) as [|_]; [contradiction|].
    engine_step. cbn [andb negb].
    match goal with |- context [llx ?x] => set (v := x) end.
    assert (Hv : v = clamp_oplog_snapshot ts (getOplogReadTimestamp e) (getLocalSnapshot e))
      by (subst v; apply clamp_oplog_snapshot_steps).
    clearbody v. subst v.
    match goal with |- context [(?r =? 0)%Z] => destruct (r =? 0)%Z end;
      engine_step;
      try match goal with |- context [(?a <? ?b)%N] => destruct (a <? b)%N end;
      engine_step; apply events_since_app. }
  rewrite E. split; reflexivity.
Qed.

(** [setOldestTimestamp_pushes_clamped] with the oplog-read timestamp at 7
    seconds and the local snapshot at 9 seconds: a request for 10 seconds
    pushes 0x700000000. *)
Lemma setOldestTimestamp_pushes_clamped_witness :
  pushed (events_since []
            (final (setOldestTimestamp wt_ok ts_10s false
                      (mkWorld (mk true false false false true 0%N 0%N [] None None true
                                  false ts_7s (Some ts_9s)) []))))
    = ["oldest_timestamp=700000000"]%string.
Proof.
  assert (Hts : ts_10s <> 0%N) by (intro Hx; discriminate Hx).
  exact (proj2 (setOldestTimestamp_pushes_clamped wt_ok ts_10s
                  (mkWorld (mk true false false false true 0%N 0%N [] None None true
                              false ts_7s (Some ts_9s)) [])
                  Hts eq_refl)).
Defined.

(** C5, as the spec states it, fails.  On an engine that does not keep data
    history (majority read concern off), with stable timestamp 0 below the
    real initial-data timestamp 10, [recoverToStableTimestamp] does not
    return an error: the process fails [fassert] 50665. *)
Lemma recoverToStableTimestamp_fatal_without_history :
  _checkpointThread (engine_no_history (worker 0 10)) = Some (worker 0 10) /\
  (kAllowUnstableCheckpointsSentinel < CT._initialDataTimestamp (worker 0 10))%N /\
  (CT._stableTimestamp (worker 0 10) < CT._initialDataTimestamp (worker 0 10))%N /\
  recoverToStableTimestamp wt_ok no_throw (mkWorld (engine_no_history (worker 0 10)) [])
    = Aborts (FassertFailed 50665) (mkWorld (engine_no_history (worker 0 10)) []).
Proof. repeat split. Qed.

(** C5, amended.  On an engine that supports recover-to-stable, that is,
    one that is not ephemeral and keeps data history, when the initial-data
    timestamp is above the sentinel and the stable timestamp is below it,
    [recoverToStableTimestamp] returns UnrecoverableRollbackError and leaves
    the engine and the history of calls exactly as they were: the size
    storer is not flushed, no worker is shut down, [rollback_to_stable] is
    not called.  On every other engine, ephemeral or not keeping data
    history, the call is fatal, [fassert] 50665, whatever the timestamps
    are, and nothing has been done before. *)
Theorem recoverToStableTimestamp_refuses :
  forall (wt : StorageCore) (flush_throws : list Event -> bool -> option Exn)
         (w : World t),
    (_ephemeral (state w) = true \/ _keepDataHistory (state w) = false ->
       recoverToStableTimestamp wt flush_throws w = Aborts (FassertFailed 50665) w) /\
    (forall c : CT.t,
       _ephemeral (state w) = false ->
       _keepDataHistory (state w) = true ->
       _checkpointThread (state w) = Some c ->
       (kAllowUnstableCheckpointsSentinel < CT._initialDataTimestamp c)%N ->
       (CT._stableTimestamp c < CT._initialDataTimestamp c)%N ->
       recoverToStableTimestamp wt flush_throws w
         = Returns (inl UnrecoverableRollbackError) w).
Proof.
  intros wt fl [e h]. cbn [state] in *. split.
  - intros Hno. unfold recoverToStableTimestamp, supportsRecoverToStableTimestamp.
    engine_step. destruct Hno as [H|H]; rewrite H.
    + reflexivity.
    + rewrite orb_true_r. reflexivity.
  - intros c Hep Hk Hc Hreal Hlt.
    unfold recoverToStableTimestamp, supportsRecoverToStableTimestamp. engine_step.
    rewrite Hep, Hk, Hc. cbn [negb orb].
    unfold CT.canRecoverToStableTimestamp, CT.getInitialDataTimestamp,
      CT.getStableTimestamp in *.
    apply N.ltb_lt in Hreal. rewrite Hreal.
    destruct (N.leb_spec (CT._initialDataTimestamp c) (CT._stableTimestamp c)); [lia|].
    reflexivity.
Qed.

(** [recoverToStableTimestamp_refuses] on an engine that keeps history, with
    stable timestamp 5 and initial-data timestamp 10, and on the same
    engine without data history. *)
Lemma recoverToStableTimestamp_refuses_witness :
  recoverToStableTimestamp wt_ok no_throw (mkWorld (engine_with (worker 5 10) 0%N) [])
    = Returns (inl UnrecoverableRollbackError) (mkWorld (engine_with (worker 5 10) 0%N) []) /\
  recoverToStableTimestamp wt_ok no_throw (mkWorld (engine_no_history (worker 5 10)) [])
    = Aborts (FassertFailed 50665) (mkWorld (engine_no_history (worker 5 10)) []).
Proof.
  split.
  - apply (proj2 (recoverToStableTimestamp_refuses wt_ok no_throw
                    (mkWorld (engine_with (worker 5 10) 0%N) [])) (worker 5 10));
      reflexivity.
  - apply (proj1 (recoverToStableTimestamp_refuses wt_ok no_throw
                    (mkWorld (engine_no_history (worker 5 10)) []))).
    right. reflexivity.
Defined.

(** C9. On an engine that supports recover-to-stable,
    [getLastStableCheckpointTimestamp] returns the timestamp the worker has
    published, the value of its [_lastStableCheckpointTimestamp], when that
    is non-zero; otherwise the recovery timestamp when that is not null,
    that is, when its seconds are not 0; otherwise none; and it returns
    none in no other case.  It never changes the engine. *)
Theorem getLastStableCheckpointTimestamp_value :
  forall (w : World t) (c : CT.t),
    supportsRecoverToStableTimestamp (state w) = true ->
    _checkpointThread (state w) = Some c ->
    let published := CT._lastStableCheckpointTimestamp c in
    let recovery := _recoveryTimestamp (state w) in
    (published <> 0%N ->
       getLastStableCheckpointTimestamp w = Returns (Some published) w) /\
    (published = 0%N -> (4294967296 <= recovery)%N ->
       getLastStableCheckpointTimestamp w = Returns (Some recovery) w) /\
    (published = 0%N -> (recovery < 4294967296)%N ->
       getLastStableCheckpointTimestamp w = Returns None w) /\
    (forall w', getLastStableCheckpointTimestamp w = Returns None w' ->
       published = 0%N /\ (recovery < 4294967296)%N).
Proof.
  intros [e h] c Hsup Hc. cbn [state] in *. cbv zeta.
  unfold getLastStableCheckpointTimestamp. engine_step. rewrite Hsup, Hc. cbn [negb].
  unfold CT.getLastStableCheckpointTimestamp.
  pose proof (isNull_seconds (_recoveryTimestamp e)) as Hnull.
  destruct (N.eqb_spec (CT._lastStableCheckpointTimestamp c) 0) as [Hp|Hp];
    destruct (isNull (_recoveryTimestamp e)); cbn [negb];
    unfold Timestamp in *;
    repeat split; intros; try contradiction; try reflexivity; try discriminate;
    try lia; try (exfalso; lia); auto.
Qed.

(** [getLastStableCheckpointTimestamp_value] before any stable checkpoint
    was published, on an engine that recovered at 10 seconds: the recovery
    timestamp is returned. *)
Lemma getLastStableCheckpointTimestamp_value_witness :
  getLastStableCheckpointTimestamp (mkWorld (engine_with (worker ts_10s ts_10s) ts_10s) [])
    = Returns (Some ts_10s) (mkWorld (engine_with (worker ts_10s ts_10s) ts_10s) []).
Proof.
  assert (Hge : (4294967296 <= ts_10s)%N) by (intro Hx; discriminate Hx).
  exact (proj1 (proj2 (getLastStableCheckpointTimestamp_value
           (mkWorld (engine_with (worker ts_10s ts_10s) ts_10s) [])
           (worker ts_10s ts_10s) eq_refl eq_refl)) eq_refl Hge).
Defined.

End Timestamps.

(* ------------------------------------------------------------------ *)
(** ** S3 hot backup into a non-empty target *)

Section S3HotBackup.
Import S3Backup.

Lemma bucketExists_true (b : string) (buckets : list string) :
  In b buckets -> existsb (fun name => String.eqb name b) buckets = true.
Proof.
  intros Hin. apply existsb_exists. exists b. split; [assumption | apply String.eqb_refl].
Qed.

Lemma target_is_empty_false (root : string) (keys : list string) :
  (exists k, In k keys /\ k <> root) -> target_is_empty root keys = false.
Proof.
  intros (k & Hin & Hne). induction keys as [|key rest IH]; [contradiction|].
  cbn [target_is_empty]. destruct (String.eqb_spec key root) as [->|Hd]; cbn [negb].
  - destruct Hin as [-> | Hin]; [contradiction | exact (IH Hin)].
  - reflexivity.
Qed.

(** C8. An S3 hot backup whose bucket is among the listed buckets, and for
    which listing the objects under the configured prefix succeeds and
    returns a key other than [path ++ "/"], fails with InvalidPath, having
    sent only the two listing requests: no object is uploaded. *)
Theorem hotBackup_target_not_empty :
  forall (s3_client : S3Client) (fileToUpload : string -> bool)
         (filesList : list FileTuple) (s3params : S3BackupParameters)
         (buckets object_list : list string),
    let prefix := if String.eqb (path s3params) "" then None else Some (path s3params) in
    ListBuckets_result s3_client [] = Some buckets ->
    In (bucket s3params) buckets ->
    ListObjects_result s3_client [ListBuckets] (bucket s3params) prefix = Some object_list ->
    (exists key, In key object_list /\ key <> (path s3params ++ "/")%string) ->
    hotBackup s3_client fileToUpload (OK, filesList) s3params
      = (InvalidPath, [ListBuckets; ListObjects (bucket s3params) prefix]) /\
    filter is_PutObject
      (snd (hotBackup s3_client fileToUpload (OK, filesList) s3params)) = [].
Proof.
  intros s3_client fileToUpload filesList s3params buckets object_list prefix
         Hlb Hin Hlo Hkey.
  assert (E : hotBackup s3_client fileToUpload (OK, filesList) s3params
              = (InvalidPath, [ListBuckets; ListObjects (bucket s3params) prefix])).
  { unfold hotBackup. cbn [isOK negb]. rewrite Hlb.
    rewrite (bucketExists_true _ _ Hin). cbn [negb app].
    fold prefix. rewrite Hlo.
    rewrite (target_is_empty_false _ _ Hkey). reflexivity. }
  rewrite E. split; reflexivity.
Qed.

(** [hotBackup_target_not_empty] on a bucket that already holds
    "monday/WiredTiger.wt" under the prefix "monday". *)
Lemma hotBackup_target_not_empty_witness :
  hotBackup s3_nonempty (fun _ => true) (OK, files0) s3params0
    = (InvalidPath, [ListBuckets; ListObjects "backups" (Some "monday"%string)]) /\
  filter is_PutObject
    (snd (hotBackup s3_nonempty (fun _ => true) (OK, files0) s3params0)) = [].
Proof.
  apply (hotBackup_target_not_empty s3_nonempty (fun _ => true) files0 s3params0
           ["logs"; "backups"]%string ["monday/"; "monday/WiredTiger.wt"]%string).
  - reflexivity.
  - right; left; reflexivity.
  - reflexivity.
  - exists "monday/WiredTiger.wt"%string. split.
    + right; left; reflexivity.
    + discriminate.
Defined.

End S3HotBackup.

(* ------------------------------------------------------------------ *)
(** ** Timestamp pushes: order, monotonicity, buffers *)

Section TimestampPushes.
Import WiredTigerKVEngine.

Lemma clamp_oplog_snapshot_le (ts oplogRead : Timestamp) (ls : option Timestamp) :
  (clamp_oplog_snapshot ts oplogRead ls <= ts)%N.
Proof.
  unfold clamp_oplog_snapshot, Timestamp in *.
  destruct (oplogRead <? 4294967296)%N; destruct ls; lia.
Qed.

(** What one [setOldestTimestamp] call does, in full, when it is not a
    no-op. *)
Lemma setOldestTimestamp_run (wt : StorageCore) (ts : Timestamp) (force : bool)
    (e : t) (h : list Event) :
  ts <> 0%N ->
  WTPreserveSnapshotHistoryIndefinitely e = false ->
  setOldestTimestamp wt ts force (mkWorld e h) =
  let v := if force then ts
           else clamp_oplog_snapshot ts (getOplogReadTimestamp e) (getLocalSnapshot e) in
  let cfg := oldestTSConfig force v in
  let rc := wt h (conn_set_timestamp cfg) in
  if (rc =? 0)%Z
  then Returns tt
         (mkWorld (if force then with_oldestTimestamp v e
                   else if (_oldestTimestamp e <? v)%N then with_oldestTimestamp v e else e)
                  (h ++ [(conn_set_timestamp cfg, rc)]))
  else Aborts InvariantFailure (mkWorld e (h ++ [(conn_set_timestamp cfg, rc)])).
Proof.
  intros Hts Hfp. cbv zeta. unfold setOldestTimestamp, oldestTSConfig. engine_step.
  rewrite Hfp. destruct (N.eqb_spec ts 0) as [|_]; [contradiction|].
  destruct force; engine_step; cbn [andb negb].
  - destruct (getLocalSnapshot e);
      match goal with |- context [(?r =? 0)%Z] => destruct (r =? 0)%Z end;
      engine_step; reflexivity.
  - match goal with |- context [llx ?x] => set (v := x) end.
    assert (Hv : v = clamp_oplog_snapshot ts (getOplogReadTimestamp e) (getLocalSnapshot e))
      by (subst v; apply clamp_oplog_snapshot_steps).
    clearbody v. subst v.
    match goal with |- context [(?r =? 0)%Z] => destruct (r =? 0)%Z end;
      engine_step; [|reflexivity].
    match goal with |- context [(?a <? ?b)%N] => destruct (a <? b)%N end;
      engine_step; reflexivity.
Qed.

Lemma pushed_app (a b : list Event) : pushed (a ++ b) = pushed a ++ pushed b.
Proof. unfold pushed. apply flat_map_app. Qed.

(** The engine and the history after [setStableTimestamp] has told the
    storage core and the checkpoint worker, before it calls
    [setOldestTimestamp]. *)
Lemma setStableTimestamp_run (wt : StorageCore) (ts : Timestamp) (e : t) (h : list Event) :
  _keepDataHistory e = true ->
  isNull ts = false ->
  setStableTimestamp wt ts (mkWorld e h) =
  let rc := wt h (conn_set_timestamp (stableTSConfig ts)) in
  let h1 := h ++ [(conn_set_timestamp (stableTSConfig ts), rc)] in
  if (rc =? 0)%Z
  then match _checkpointThread e with
       | Some c =>
           setOldestTimestamp wt ts false
             (mkWorld (with_checkpointThread (Some (fst (CT.setStableTimestamp c ts))) e)
                      (if snd (CT.setStableTimestamp c ts)
                       then h1 ++ [(condvar_notify_one, 0%Z)] else h1))
       | None => setOldestTimestamp wt ts false (mkWorld e h1)
       end
  else Aborts InvariantFailure (mkWorld e h1).
Proof.
  intros Hk Hts. cbv zeta. unfold setStableTimestamp, stableTSConfig. engine_step.
  rewrite Hk, Hts. cbn [negb].
  engine_step.
  match goal with |- context [(?r =? 0)%Z] => destruct (r =? 0)%Z end;
    engine_step; [|reflexivity].
  destruct (_checkpointThread e) as [c|]; [|reflexivity].
  unfold checkpointThread_setStableTimestamp.
  destruct (CT.setStableTimestamp c ts) as [c' woke]. cbn [fst snd].
  destruct woke; engine_step; reflexivity.
Qed.

(** X1. [setStableTimestamp] never pushes an oldest timestamp ahead of the
    stable one.  When the engine keeps history and the timestamp is not
    null (its seconds are not 0, so that it is 2^32 at least), the first
    [set_timestamp] configuration it pushes is
    [stable_timestamp=<hex ts>]; at most one more follows, and that one is
    [oldest_timestamp=<hex v>] with [v <= ts].  When the stable push is
    accepted and the history fail point is off, exactly these two are
    pushed, in this order, with [v] the clamped value. *)
Theorem setStableTimestamp_stable_before_oldest :
  forall (wt : StorageCore) (ts : Timestamp) (w : World t),
    _keepDataHistory (state w) = true ->
    (4294967296 <= ts)%N ->
    let cfgs := pushed (events_since (history w) (final (setStableTimestamp wt ts w))) in
    (exists rest, cfgs = stableTSConfig ts :: rest /\
       (rest = [] \/ exists v, rest = [oldestTSConfig false v] /\ (v <= ts)%N)) /\
    (wt (history w) (conn_set_timestamp (stableTSConfig ts)) = 0%Z ->
     WTPreserveSnapshotHistoryIndefinitely (state w) = false ->
     cfgs = [stableTSConfig ts;
             oldestTSConfig false
               (clamp_oplog_snapshot ts (getOplogReadTimestamp (state w))
                  (getLocalSnapshot (state w)))]).
Proof.
  intros wt ts [e h] Hk Hsec. cbn [state history] in *. cbv zeta.
  assert (Hnull : isNull ts = false) by (apply not_null_from_seconds; exact Hsec).
  assert (Hts : ts <> 0%N) by (unfold Timestamp in *; lia).
  rewrite (setStableTimestamp_run wt ts e h Hk Hnull). cbv zeta.
  set (rc := wt h (conn_set_timestamp (stableTSConfig ts))).
  set (ev := (conn_set_timestamp (stableTSConfig ts), rc)).
  destruct (Z.eqb_spec rc 0) as [Hrc|Hrc].
  2:{ cbn [final]. rewrite events_since_app. subst ev. cbn [pushed flat_map fst app].
      split; [exists []; auto | intros; contradiction]. }
  assert (Hgen : forall (e1 : t) (extra : list Event),
            pushed extra = [] ->
            getOplogReadTimestamp e1 = getOplogReadTimestamp e ->
            getLocalSnapshot e1 = getLocalSnapshot e ->
            WTPreserveSnapshotHistoryIndefinitely e1 = WTPreserveSnapshotHistoryIndefinitely e ->
            let cfgs := pushed (events_since h
                          (final (setOldestTimestamp wt ts false
                                    (mkWorld e1 ((h ++ [ev]) ++ extra))))) in
            (exists rest, cfgs = stableTSConfig ts :: rest /\
               (rest = [] \/ exists v, rest = [oldestTSConfig false v] /\ (v <= ts)%N)) /\
            (WTPreserveSnapshotHistoryIndefinitely e = false ->
             cfgs = [stableTSConfig ts;
                     oldestTSConfig false
                       (clamp_oplog_snapshot ts (getOplogReadTimestamp e)
                          (getLocalSnapshot e))])).
  { intros e1 extra Hex Ho Hl Hf. cbv zeta.
    destruct (WTPreserveSnapshotHistoryIndefinitely e) eqn:Hfp.
    - assert (E : setOldestTimestamp wt ts false (mkWorld e1 ((h ++ [ev]) ++ extra))
                  = Returns tt (mkWorld e1 ((h ++ [ev]) ++ extra))).
      { unfold setOldestTimestamp. engine_step. rewrite Hf. reflexivity. }
      rewrite E. cbn [final]. rewrite <- app_assoc, events_since_app, pushed_app, Hex.
      subst ev. cbn [pushed flat_map fst app].
      split; [exists []; auto | discriminate].
    - rewrite (setOldestTimestamp_run wt ts false e1 _ Hts Hf). cbv zeta.
      rewrite Ho, Hl.
      set (v := clamp_oplog_snapshot ts (getOplogReadTimestamp e) (getLocalSnapshot e)).
      assert (Hv : (v <= ts)%N) by apply clamp_oplog_snapshot_le.
      match goal with |- context [(?r =? 0)%Z] => destruct (r =? 0)%Z end;
        cbn [final]; rewrite <- !app_assoc, events_since_app, !pushed_app, Hex;
        subst ev; cbn [pushed flat_map fst app];
        (split; [eexists; split; [reflexivity | right; exists v; auto] | reflexivity]). }
  destruct (_checkpointThread e) as [c|].
  - destruct (snd (CT.setStableTimestamp c ts)).
    + destruct (Hgen (with_checkpointThread (Some (fst (CT.setStableTimestamp c ts))) e)
                  [(condvar_notify_one, 0%Z)] eq_refl eq_refl eq_refl eq_refl) as [H1 H2].
      split; [exact H1 | intros _ Hfp; exact (H2 Hfp)].
    + destruct (Hgen (with_checkpointThread (Some (fst (CT.setStableTimestamp c ts))) e)
                  [] eq_refl eq_refl eq_refl eq_refl) as [H1 H2].
      rewrite app_nil_r in H1, H2.
      split; [exact H1 | intros _ Hfp; exact (H2 Hfp)].
  - destruct (Hgen e [] eq_refl eq_refl eq_refl eq_refl) as [H1 H2].
    rewrite app_nil_r in H1, H2.
    split; [exact H1 | intros _ Hfp; exact (H2 Hfp)].
Qed.

End TimestampPushes.

(** [setStableTimestamp_stable_before_oldest] on [engine0] with the
    oplog-read timestamp at 7 seconds: the stable timestamp of 10 seconds is
    pushed, then the oldest timestamp of 7 seconds. *)
Lemma setStableTimestamp_stable_before_oldest_witness :
  pushed (events_since []
            (final (WiredTigerKVEngine.setStableTimestamp wt_ok ts_10s
                      (mkWorld (with_readers ts_7s None engine0) []))))
    = ["stable_timestamp=a00000000"; "oldest_timestamp=700000000"]%string.
Proof.
  assert (Hsec : (4294967296 <= ts_10s)%N) by (intro Hx; discriminate Hx).
  exact (proj2 (setStableTimestamp_stable_before_oldest wt_ok ts_10s
                  (mkWorld (with_readers ts_7s None engine0) [])
                  eq_refl Hsec) eq_refl eq_refl).
Defined.

(* ------------------------------------------------------------------ *)
(** ** The cached oldest timestamp *)

Section CachedOldest.
Import WiredTigerKVEngine.

Lemma final_bind {St A B} (c : M St A) (k : A -> M St B) (w : World St) :
  final (bind c k w) =
  match c w with
  | Returns a w' => final (k a w')
  | Aborts _ w' => w'
  end.
Proof. unfold bind. destruct (c w); reflexivity. Qed.

(** One call without force leaves the cached oldest timestamp where it was
    or moves it forward, however the call ends. *)
Lemma setOldestTimestamp_not_forced_ge (wt : StorageCore) (ts : Timestamp) (w : World t) :
  (_oldestTimestamp (state w)
   <= _oldestTimestamp (state (final (setOldestTimestamp wt ts false w))))%N.
Proof.
  destruct w as [e h]. cbn [state].
  destruct (WTPreserveSnapshotHistoryIndefinitely e) eqn:Hfp.
  { unfold setOldestTimestamp. engine_step. rewrite Hfp. cbn [final state]. lia. }
  destruct (N.eqb_spec ts 0) as [Hz|Hz].
  { unfold setOldestTimestamp. engine_step. rewrite Hfp.
    destruct (N.eqb_spec ts 0); [|contradiction]. cbn [final state]. lia. }
  rewrite (setOldestTimestamp_run wt ts false e h Hz Hfp). cbv zeta.
  match goal with |- context [(?r =? 0)%Z] => destruct (r =? 0)%Z end;
    cbn [final state]; [|lia].
  match goal with |- context [(?a <? ?b)%N] => destruct (N.ltb_spec a b) end;
    cbn [_oldestTimestamp with_oldestTimestamp]; lia.
Qed.

(** X2. Over any sequence of [setOldestTimestamp] calls without force, with
    the oplog-read timestamp and the local snapshot moving freely between
    the calls, the engine's cached oldest timestamp never decreases,
    whether the sequence runs to its end or stops at a fatal error. *)
Theorem cached_oldest_never_decreases :
  forall (wt : StorageCore) (calls : list (Timestamp * bool * N * option Timestamp))
         (w : World t),
    Forall (fun c => snd (fst (fst c)) = false) calls ->
    (_oldestTimestamp (state w)
     <= _oldestTimestamp (state (final (setOldestTimestamps wt calls w))))%N.
Proof.
  intros wt calls. induction calls as [|[[[ts force] o] l] calls IH]; intros w Hall.
  - cbn. lia.
  - inversion Hall as [|c cs Hc Hrest]; subst. cbn [fst snd] in Hc. subst force.
    cbn [setOldestTimestamps]. rewrite final_bind.
    unfold modify at 1. rewrite final_bind.
    pose proof (setOldestTimestamp_not_forced_ge wt ts
                  (mkWorld (with_readers o l (state w)) (history w))) as H1.
    cbn [state] in H1.
    change (_oldestTimestamp (with_readers o l (state w)))
      with (_oldestTimestamp (state w)) in H1.
    destruct (setOldestTimestamp wt ts false
                (mkWorld (with_readers o l (state w)) (history w))) as [[] w1|f w1];
      cbn [final] in *.
    + specialize (IH w1 Hrest). lia.
    + exact H1.
Qed.

(** X3. A forced [setOldestTimestamp] is neither clamped nor monotone: with
    the fail point off and [ts <> 0] it pushes
    [force=true,oldest_timestamp=<ts>,commit_timestamp=<ts>] with [ts] as
    given, whatever the oplog-read timestamp and the local snapshot are, and
    when the storage core accepts it the cached oldest timestamp becomes
    [ts], also when that is a step back. *)
Theorem setOldestTimestamp_forced_overrides :
  forall (wt : StorageCore) (ts : Timestamp) (w : World t),
    ts <> 0%N ->
    WTPreserveSnapshotHistoryIndefinitely (state w) = false ->
    pushed (events_since (history w) (final (setOldestTimestamp wt ts true w)))
      = [("force=true,oldest_timestamp=" ++ llx ts ++ ",commit_timestamp=" ++ llx ts)%string] /\
    (wt (history w) (conn_set_timestamp (oldestTSConfig true ts)) = 0%Z ->
     exists w', setOldestTimestamp wt ts true w = Returns tt w' /\
                _oldestTimestamp (state w') = ts).
Proof.
  intros wt ts [e h] Hts Hfp. cbn [state history] in *.
  rewrite (setOldestTimestamp_run wt ts true e h Hts Hfp). cbv zeta.
  split.
  - match goal with |- context [(?r =? 0)%Z] => destruct (r =? 0)%Z end;
      cbn [final]; rewrite events_since_app; reflexivity.
  - intros Hrc. rewrite Hrc. cbn [Z.eqb]. eexists. split; reflexivity.
Qed.

End CachedOldest.

(** [cached_oldest_never_decreases] on three calls, the second of which asks
    for less than the first. *)
Lemma cached_oldest_never_decreases_witness :
  (WiredTigerKVEngine._oldestTimestamp (state world0)
   <= WiredTigerKVEngine._oldestTimestamp
        (state (final (setOldestTimestamps wt_ok
                         [(10%N, false, 0%N, None); (4%N, false, 0%N, None);
                          (20%N, false, 12%N, Some 15%N)] world0))))%N.
Proof.
  apply (cached_oldest_never_decreases wt_ok
           [(10%N, false, 0%N, None); (4%N, false, 0%N, None);
            (20%N, false, 12%N, Some 15%N)] world0).
  repeat constructor.
Defined.

(** [setOldestTimestamp_forced_overrides] after the oldest timestamp was
    advanced to 10: a forced call moves it back to 3, past an oplog-read
    timestamp of 2. *)
Lemma setOldestTimestamp_forced_overrides_witness :
  exists w',
    WiredTigerKVEngine.setOldestTimestamp wt_ok 3%N true
      (mkWorld (with_readers 2%N None (WiredTigerKVEngine.with_oldestTimestamp 10%N engine0)) [])
    = Returns tt w' /\
    WiredTigerKVEngine._oldestTimestamp (state w') = 3%N.
Proof.
  exact (proj2 (setOldestTimestamp_forced_overrides wt_ok 3%N
                  (mkWorld (with_readers 2%N None
                              (WiredTigerKVEngine.with_oldestTimestamp 10%N engine0)) [])
                  (fun H => N.neq_succ_0 2 H) eq_refl) eq_refl).
Defined.

(* ------------------------------------------------------------------ *)
(** ** The formatting buffers of the timestamp pushes *)

Section ConfigBuffers.

Lemma of_pos_length (k : nat) : forall (p : positive) (rest : string),
  Pos.size_nat p <= 4 * k ->
  String.length (HexString.Raw.of_pos p rest) <= k + String.length rest.
Proof.
  induction k as [|k IH]; intros p rest Hs.
  - destruct p; cbn in Hs; lia.
  - destruct p as [[[[p|p|]|[p|p|]|]|[[p|p|]|[p|p|]|]|]|[[[p|p|]|[p|p|]|]|[[p|p|]|[p|p|]|]|]|];
      cbn [HexString.Raw.of_pos]; cbn [Pos.size_nat] in Hs;
      try (cbn [String.length]; lia);
      (eapply Nat.le_trans; [apply IH; lia | cbn [String.length]; lia]).
Qed.

Lemma size_nat_bound (p : positive) : forall n : nat,
  (N.pos p < 2 ^ N.of_nat n)%N -> Pos.size_nat p <= n.
Proof.
  induction p as [p IH|p IH|]; intros n H.
  - destruct n as [|n]; [cbn in H; lia|].
    cbn [Pos.size_nat]. apply le_n_S. apply IH.
    rewrite Nat2N.inj_succ, N.pow_succ_r' in H. lia.
  - destruct n as [|n]; [cbn in H; lia|].
    cbn [Pos.size_nat]. apply le_n_S. apply IH.
    rewrite Nat2N.inj_succ, N.pow_succ_r' in H. lia.
  - destruct n as [|n]; [cbn in H; lia|]. cbn. lia.
Qed.

(** A 64-bit value prints as at most 16 hexadecimal digits. *)
Lemma llx_length (n : N) :
  (n < 2 ^ 64)%N -> String.length (llx n) <= 16.
Proof.
  intros H. destruct n as [|p]; [cbn; lia|]. unfold llx.
  pose proof (of_pos_length 16 p ""%string) as Hl.
  cbn [String.length] in Hl. rewrite Nat.add_0_r in Hl. apply Hl.
  apply (size_nat_bound p 64). exact H.
Qed.

Lemma length_append (a b : string) :
  String.length (a ++ b) = String.length a + String.length b.
Proof. induction a as [|c a IH]; cbn; [reflexivity | rewrite IH; reflexivity]. Qed.

(** X4. The arrays [stableTSConfigString] and [oldestTSConfigString] are
    large enough: for every 64-bit timestamp the configuration that
    [snprintf] formats, with or without [force], is strictly shorter than
    the array it is written to, so the [invariant] that follows each
    [snprintf] holds. *)
Theorem timestamp_config_fits_buffer :
  forall (ts : Timestamp) (force : bool),
    (ts < 2 ^ 64)%N ->
    String.length (stableTSConfig ts) < stableTSConfigString_size /\
    String.length (oldestTSConfig force ts) < oldestTSConfigString_size.
Proof.
  intros ts force H. pose proof (llx_length ts H) as Hl.
  unfold stableTSConfig, oldestTSConfig, stableTSConfigString_size, oldestTSConfigString_size.
  split.
  - rewrite length_append. cbn [String.length]. lia.
  - destruct force; rewrite !length_append; cbn [String.length]; lia.
Qed.

End ConfigBuffers.

(** [timestamp_config_fits_buffer] at the largest timestamp: 33 of 34 and,
    forced, 78 of 79 characters. *)
Lemma timestamp_config_fits_buffer_witness :
  String.length (stableTSConfig uint64_max) < stableTSConfigString_size /\
  String.length (oldestTSConfig true uint64_max) < oldestTSConfigString_size.
Proof.
  exact (timestamp_config_fits_buffer uint64_max true eq_refl).
Defined.

(* ------------------------------------------------------------------ *)
(** ** How much one reaper call does *)

Section ReaperWork.
Import WiredTigerKVEngine.

Lemma numToDelete_bound (n : nat) :
  (10 <= numToDelete_of (to_int (Z.of_nat n)) <= Z.max 10 (Z.of_nat n / 10))%Z.
Proof.
  unfold numToDelete_of, tenPercent, to_int.
  set (z := Z.of_nat n). assert (Hz : (0 <= z)%Z) by (subst z; lia). clearbody z.
  destruct (Z.ltb_spec 10 (Z.quot ((z + 2147483648) mod 4294967296 - 2147483648) 10));
    [|lia].
  split; [lia|].
  pose proof (Z.mod_pos_bound (z + 2147483648) 4294967296 ltac:(lia)) as Hm.
  pose proof (Z.mod_le (z + 2147483648) 4294967296 ltac:(lia) ltac:(lia)) as Hle.
  set (m := ((z + 2147483648) mod 4294967296 - 2147483648)%Z) in *.
  assert (Hmz : (m <= z)%Z) by (subst m; lia).
  assert (Hq : (Z.quot m 10 <= z / 10)%Z).
  { destruct (Z.le_gt_cases 0 m) as [Hp|Hneg].
    - rewrite Z.quot_div_nonneg by lia. apply Z.div_le_mono; lia.
    - pose proof (Z.quot_opp_l m 10 ltac:(lia)) as Ho.
      assert (0 <= Z.quot (- m) 10)%Z by (apply Z.quot_pos; lia).
      assert (0 <= z / 10)%Z by (apply Z.div_pos; lia). lia. }
  lia.
Qed.

(** X5. One call of [dropSomeQueuedIdents] makes only [drop] calls, and at
    most max(10, a tenth of the queue length) of them. *)
Theorem dropSomeQueuedIdents_attempt_bound :
  forall (wt : StorageCore) (w : World t),
    let evs := events_since (history w) (final (dropSomeQueuedIdents wt w)) in
    List.length (popped evs) = List.length evs /\
    List.length evs <= Nat.max 10 (List.length (_identToDrop (state w)) / 10).
Proof.
  intros wt w. cbv zeta. rewrite dropSomeQueuedIdents_is_loop.
  set (n := Z.to_nat _).
  destruct (dropSomeQueuedIdents_loop_spec wt n w)
    as (evs & Hh & Hl & Hp & _).
  assert (Hev : events_since (history w) (final (dropSomeQueuedIdents_loop wt n w)) = evs).
  { unfold events_since. rewrite Hh. apply skipn_length_app. }
  rewrite Hev. split; [exact Hp|].
  eapply Nat.le_trans; [exact Hl|].
  subst n.
  pose proof (numToDelete_bound (List.length (_identToDrop (state w)))) as [_ Hb].
  assert (Hd : (Z.of_nat (List.length (_identToDrop (state w))) / 10
                = Z.of_nat (List.length (_identToDrop (state w)) / 10))%Z).
  { rewrite Nat2Z.inj_div. reflexivity. }
  rewrite Hd in Hb. lia.
Qed.

(** With every drop succeeding, the loop drops the first [n] URIs of the
    queue, in queue order, and leaves the rest. *)
Lemma dropSomeQueuedIdents_loop_all_dropped (wt : StorageCore) :
  (forall h u c, wt h (session_drop u c) = 0%Z) ->
  forall (n : nat) (e : t) (h : list Event),
    dropSomeQueuedIdents_loop wt n (mkWorld e h) =
    Returns tt
      (mkWorld (with_identToDrop (skipn n (_identToDrop e)) e)
               (h ++ map (fun u => (session_drop u dropConfig, 0%Z))
                         (firstn n (_identToDrop e)))).
Proof.
  intros Hok. induction n as [|n IH]; intros e h.
  - cbn. rewrite app_nil_r, with_identToDrop_same. reflexivity.
  - cbn [dropSomeQueuedIdents_loop]. engine_step.
    destruct (_identToDrop e) as [|uri rest] eqn:Hq.
    + cbn. rewrite app_nil_r, <- Hq, with_identToDrop_same. reflexivity.
    + engine_step. rewrite Hok. cbn [Z.eqb EBUSY]. engine_step.
      rewrite IH. cbn [_identToDrop with_identToDrop firstn skipn map].
      rewrite <- app_assoc. reflexivity.
Qed.

(** X6. When the storage core drops every table it is asked to, one call of
    [dropSomeQueuedIdents] on a queue of at most ten URIs returns with the
    queue empty, having dropped each queued URI once, in queue order; on an
    empty queue it calls nothing. *)
Theorem dropSomeQueuedIdents_drains_short_queue :
  forall (wt : StorageCore) (w : World t),
    (forall h u c, wt h (session_drop u c) = 0%Z) ->
    List.length (_identToDrop (state w)) <= 10 ->
    exists w',
      dropSomeQueuedIdents wt w = Returns tt w' /\
      _identToDrop (state w') = [] /\
      events_since (history w) w'
        = map (fun u => (session_drop u dropConfig, 0%Z)) (_identToDrop (state w)).
Proof.
  intros wt [e h] Hok Hlen. cbn [state history] in *.
  rewrite dropSomeQueuedIdents_is_loop. cbn [state].
  pose proof (numToDelete_bound (List.length (_identToDrop e))) as [Hlo _].
  set (n := Z.to_nat _).
  assert (Hn : List.length (_identToDrop e) <= n) by (subst n; lia).
  rewrite (dropSomeQueuedIdents_loop_all_dropped wt Hok).
  eexists. split; [reflexivity|].
  cbn [state _identToDrop with_identToDrop]. rewrite events_since_app.
  rewrite skipn_all2 by exact Hn. rewrite firstn_all2 by exact Hn.
  split; reflexivity.
Qed.

End ReaperWork.

(** [dropSomeQueuedIdents_drains_short_queue] on the three queued URIs of
    [world_abc]. *)
Lemma dropSomeQueuedIdents_drains_short_queue_witness :
  exists w',
    WiredTigerKVEngine.dropSomeQueuedIdents wt_ok world_abc = Returns tt w' /\
    WiredTigerKVEngine._identToDrop (state w') = [] /\
    events_since (history world_abc) w'
      = map (fun u => (session_drop u WiredTigerKVEngine.dropConfig, 0%Z))
            (WiredTigerKVEngine._identToDrop (state world_abc)).
Proof.
  apply (dropSomeQueuedIdents_drains_short_queue wt_ok world_abc).
  - intros; reflexivity.
  - cbn. lia.
Defined.

(* ------------------------------------------------------------------ *)
(** ** Recover to stable: the path that rolls back *)

Section RecoverToStable.
Import WiredTigerKVEngine.

(** [syncSizeInfo] when the flush throws nothing that is thrown on. *)
Lemma syncSizeInfo_swallowed (fl : list Event -> bool -> option Exn) (sync : bool)
    (e : t) (h : list Event) :
  (_sizeStorer e = true -> swallowed (_durable e) (fl h sync)) ->
  syncSizeInfo fl sync (mkWorld e h)
  = Returns tt (mkWorld e (if _sizeStorer e then h ++ [(sizeStorer_flush sync, 0%Z)] else h)).
Proof.
  intros Hsw. unfold syncSizeInfo. engine_step.
  destruct (_sizeStorer e); cbn [negb]; [|reflexivity].
  engine_step. destruct (Hsw eq_refl) as [H|[H|[Hd H]]]; rewrite H; try reflexivity.
  engine_step. rewrite Hd. reflexivity.
Qed.

(** [syncSizeInfo] when the flush throws an [AssertionException] that is
    thrown on. *)
Lemma syncSizeInfo_rethrown (fl : list Event -> bool -> option Exn) (sync : bool)
    (e : t) (h : list Event) (code : ErrorCodes) :
  _sizeStorer e = true ->
  fl h sync = Some (AssertionException code) ->
  _durable e = true \/ code <> ExceededMemoryLimit ->
  syncSizeInfo fl sync (mkWorld e h)
  = Aborts (Thrown (AssertionException code))
      (mkWorld e (h ++ [(sizeStorer_flush sync, 0%Z)])).
Proof.
  intros Hs Hfl Hre. unfold syncSizeInfo. engine_step. rewrite Hs. cbn [negb].
  engine_step. rewrite Hfl. engine_step.
  destruct Hre as [Hd|Hc].
  - rewrite Hd. reflexivity.
  - destruct (_durable e), code; try reflexivity. destruct Hc. reflexivity.
Qed.

(** X7. When the engine supports recover-to-stable, the initial-data
    timestamp is real and the stable timestamp has reached it,
    [recoverToStableTimestamp] first flushes the size storer.  When that
    flush throws nothing that [syncSizeInfo] throws on and the storage
    core's [rollback_to_stable] succeeds, the call returns the stable
    timestamp, having called [rollback_to_stable] once; the engine then has
    a fresh journal flusher and a fresh checkpoint worker that carries the
    same stable and initial-data timestamps, has its first-stable trigger
    already fired (the worker is woken at once), and has no published
    last-stable-checkpoint timestamp any more.  When the flush throws an
    [AssertionException] that is thrown on, the call ends with that
    exception right after the flush: no worker has been shut down and
    [rollback_to_stable] has not been called. *)
Theorem recoverToStableTimestamp_restarts_workers :
  forall (wt : StorageCore) (flush_throws : list Event -> bool -> option Exn)
         (w : World t) (c : CT.t) (j : JF.t),
    supportsRecoverToStableTimestamp (state w) = true ->
    _checkpointThread (state w) = Some c ->
    _journalFlusher (state w) = Some j ->
    (kAllowUnstableCheckpointsSentinel < CT.getInitialDataTimestamp c)%N ->
    (CT.getInitialDataTimestamp c <= CT.getStableTimestamp c)%N ->
    ((_sizeStorer (state w) = true ->
        swallowed (_durable (state w)) (flush_throws (history w) true)) ->
     (forall h, wt h conn_rollback_to_stable = 0%Z) ->
     exists w',
       recoverToStableTimestamp wt flush_throws w
         = Returns (inr (CT.getStableTimestamp c)) w' /\
       _checkpointThread (state w') =
         Some (CT.mk false (CT.getStableTimestamp c) (CT.getInitialDataTimestamp c)
                 true 0%N) /\
       _journalFlusher (state w') = Some JF.create /\
       _sizeStorer (state w') = true /\
       List.length (filter (fun ev => match fst ev with
                                      | conn_rollback_to_stable => true
                                      | _ => false
                                      end)
                      (events_since (history w) w')) = 1 /\
       last (events_since (history w) w') (condvar_notify_one, 1%Z)
         = (condvar_notify_one, 0%Z)) /\
    (forall code,
       _sizeStorer (state w) = true ->
       flush_throws (history w) true = Some (AssertionException code) ->
       _durable (state w) = true \/ code <> ExceededMemoryLimit ->
       recoverToStableTimestamp wt flush_throws w
         = Aborts (Thrown (AssertionException code))
             (mkWorld (state w) (history w ++ [(sizeStorer_flush true, 0%Z)]))).
Proof.
  intros wt fl [e h] c j Hsup Hc Hj Hreal Hge. cbn [state history] in *.
  unfold CT.getInitialDataTimestamp, CT.getStableTimestamp in *.
  assert (Hreal' : (kAllowUnstableCheckpointsSentinel <? CT._initialDataTimestamp c)%N = true)
    by (apply N.ltb_lt; exact Hreal).
  assert (Hle : (CT._initialDataTimestamp c <=? CT._stableTimestamp c)%N = true)
    by (apply N.leb_le; exact Hge).
  split.
  - intros Hsw Hrb.
    unfold recoverToStableTimestamp. engine_step.
    rewrite Hsup, Hc, Hj. cbn [negb].
    unfold CT.canRecoverToStableTimestamp, CT.getInitialDataTimestamp, CT.getStableTimestamp.
    rewrite Hreal', Hle.
    assert (Hset : CT.setStableTimestamp
                     (CT.setInitialDataTimestamp CT.create (CT._initialDataTimestamp c))
                     (CT._stableTimestamp c)
                   = (CT.mk false (CT._stableTimestamp c) (CT._initialDataTimestamp c) true 0%N,
                      true)).
    { unfold CT.setStableTimestamp, CT.setInitialDataTimestamp, CT.create.
      cbn [CT._stableTimestamp CT._initialDataTimestamp CT._firstStableCheckpointTaken
           CT._shuttingDown CT._lastStableCheckpointTimestamp].
      rewrite Hle.
      assert (H0 : (0 <? CT._initialDataTimestamp c)%N = true).
      { apply N.ltb_lt. unfold kAllowUnstableCheckpointsSentinel in Hreal. lia. }
      rewrite H0. reflexivity. }
    unfold checkpointThread_setStableTimestamp. rewrite Hset.
    rewrite (syncSizeInfo_swallowed fl true e h Hsw).
    engine_step.
    destruct (_sizeStorer e); engine_step; rewrite Hrb; cbn [Z.eqb negb]; engine_step;
      (eexists; split; [reflexivity|]);
      cbn [state history _checkpointThread _journalFlusher _sizeStorer
           with_checkpointThread with_journalFlusher with_sizeStorer];
      rewrite <- ?app_assoc; rewrite events_since_app;
      repeat split; reflexivity.
  - intros code Hs Hfl Hre.
    unfold recoverToStableTimestamp. engine_step.
    rewrite Hsup, Hc. cbn [negb].
    unfold CT.canRecoverToStableTimestamp, CT.getInitialDataTimestamp, CT.getStableTimestamp.
    rewrite Hreal', Hle.
    rewrite (syncSizeInfo_rethrown fl true e h code Hs Hfl Hre). reflexivity.
Qed.

(** X8. When the flush of the size storer throws nothing that is thrown on
    and [rollback_to_stable] fails, [recoverToStableTimestamp] returns
    UnrecoverableRollbackError and does not restart what it stopped: the
    journal flusher and the checkpoint worker are left shut down, the
    worker still holding its timestamps. *)
Theorem recoverToStableTimestamp_failed_rollback :
  forall (wt : StorageCore) (flush_throws : list Event -> bool -> option Exn)
         (w : World t) (c : CT.t) (j : JF.t) (rc : Z),
    supportsRecoverToStableTimestamp (state w) = true ->
    _checkpointThread (state w) = Some c ->
    _journalFlusher (state w) = Some j ->
    (kAllowUnstableCheckpointsSentinel < CT.getInitialDataTimestamp c)%N ->
    (CT.getInitialDataTimestamp c <= CT.getStableTimestamp c)%N ->
    (_sizeStorer (state w) = true ->
       swallowed (_durable (state w)) (flush_throws (history w) true)) ->
    rc <> 0%Z ->
    (forall h, wt h conn_rollback_to_stable = rc) ->
    exists w',
      recoverToStableTimestamp wt flush_throws w
        = Returns (inl UnrecoverableRollbackError) w' /\
      _checkpointThread (state w') = Some (CT.shutdown c) /\
      _journalFlusher (state w') = Some (JF.shutdown j) /\
      option_map CT._shuttingDown (_checkpointThread (state w')) = Some true /\
      option_map JF._shuttingDown (_journalFlusher (state w')) = Some true.
Proof.
  intros wt fl [e h] c j rc Hsup Hc Hj Hreal Hge Hsw Hrc Hrb. cbn [state history] in *.
  unfold recoverToStableTimestamp. engine_step.
  rewrite Hsup, Hc, Hj. cbn [negb].
  unfold CT.canRecoverToStableTimestamp, CT.getInitialDataTimestamp, CT.getStableTimestamp in *.
  apply N.ltb_lt in Hreal. rewrite Hreal.
  assert (Hle : (CT._initialDataTimestamp c <=? CT._stableTimestamp c)%N = true)
    by (apply N.leb_le; exact Hge).
  rewrite Hle.
  rewrite (syncSizeInfo_swallowed fl true e h Hsw).
  engine_step.
  destruct (_sizeStorer e); engine_step; rewrite Hrb;
    (destruct (Z.eqb_spec rc 0) as [|_]; [contradiction|]); cbn [negb]; engine_step;
    (eexists; split; [reflexivity|]);
    cbn [state _checkpointThread _journalFlusher with_checkpointThread with_journalFlusher];
    repeat split; reflexivity.
Qed.

End RecoverToStable.

(** [recoverToStableTimestamp_restarts_workers] with stable 15 ahead of
    initial-data 10: with a quiet flush the workers are restarted; with a
    flush that throws InternalError the call throws it on. *)
Lemma recoverToStableTimestamp_restarts_workers_witness :
  (exists w',
     WiredTigerKVEngine.recoverToStableTimestamp wt_ok no_throw
       (mkWorld (engine_with (worker 15 10) 0%N) []) = Returns (inr 15%N) w' /\
     WiredTigerKVEngine._checkpointThread (state w') =
       Some (WiredTigerCheckpointThread.mk false 15%N 10%N true 0%N)) /\
  WiredTigerKVEngine.recoverToStableTimestamp wt_ok (flush_fails InternalError)
    (mkWorld (engine_with (worker 15 10) 0%N) [])
  = Aborts (Thrown (AssertionException InternalError))
      (mkWorld (engine_with (worker 15 10) 0%N) [(sizeStorer_flush true, 0%Z)]).
Proof.
  assert (Hge : (WiredTigerCheckpointThread.getInitialDataTimestamp (worker 15 10)
                 <= WiredTigerCheckpointThread.getStableTimestamp (worker 15 10))%N)
    by (intro Hx; discriminate Hx).
  split.
  - destruct (proj1 (recoverToStableTimestamp_restarts_workers wt_ok no_throw
                (mkWorld (engine_with (worker 15 10) 0%N) []) (worker 15 10)
                WiredTigerJournalFlusher.create eq_refl eq_refl eq_refl eq_refl Hge)
                (fun _ => or_introl eq_refl) (fun _ => eq_refl))
      as (w' & E & Hc & _).
    exists w'. split; assumption.
  - apply (proj2 (recoverToStableTimestamp_restarts_workers wt_ok
                (flush_fails InternalError)
                (mkWorld (engine_with (worker 15 10) 0%N) []) (worker 15 10)
                WiredTigerJournalFlusher.create eq_refl eq_refl eq_refl eq_refl Hge)
             InternalError eq_refl eq_refl).
    left. reflexivity.
Defined.

(** [recoverToStableTimestamp_failed_rollback] with the same timestamps on a
    storage core whose [rollback_to_stable] returns EBUSY. *)
Lemma recoverToStableTimestamp_failed_rollback_witness :
  exists w',
    WiredTigerKVEngine.recoverToStableTimestamp (fun _ _ => EBUSY) no_throw
      (mkWorld (engine_with (worker 15 10) 0%N) [])
      = Returns (inl UnrecoverableRollbackError) w' /\
    option_map WiredTigerCheckpointThread._shuttingDown
      (WiredTigerKVEngine._checkpointThread (state w')) = Some true.
Proof.
  assert (Hge : (WiredTigerCheckpointThread.getInitialDataTimestamp (worker 15 10)
                 <= WiredTigerCheckpointThread.getStableTimestamp (worker 15 10))%N)
    by (intro Hx; discriminate Hx).
  assert (Hrc : EBUSY <> 0%Z) by (intro Hx; discriminate Hx).
  destruct (recoverToStableTimestamp_failed_rollback (fun _ _ => EBUSY) no_throw
              (mkWorld (engine_with (worker 15 10) 0%N) []) (worker 15 10)
              WiredTigerJournalFlusher.create EBUSY eq_refl eq_refl eq_refl eq_refl
              Hge (fun _ => or_introl eq_refl) Hrc (fun _ => eq_refl))
    as (w' & E & _ & _ & Hs & _).
  exists w'. split; assumption.
Defined.

(* ------------------------------------------------------------------ *)
(** ** What a tick publishes, and what it does on an exception *)

Section TickPublishes.
Import WiredTigerCheckpointThread.

Ltac tick_step :=
  repeat progress
    (unfold run_iteration, run_try, run_catch, getSession, interfere, bind, ret, abort,
       gets, modify, call, invariantWTOK;
     cbn beta iota zeta delta [state history final negb]).

(** X9. A tick publishes only after a checkpoint that succeeded: whatever
    the configuration, the storage core's answers, the exceptions and the
    stores other threads make meanwhile, if
    [_lastStableCheckpointTimestamp] differs after the iteration from what
    it was before, then the iteration issued a checkpoint of the main
    database that returned 0.  A skipped, failed or interrupted checkpoint
    leaves the published timestamp alone. *)
Theorem run_iteration_publishes_only_after_success :
  forall (mrc keydb : bool) (wt : StorageCore) (sess : list Event -> option Exn)
         (sched : Schedule) (w : World t),
    let o := run_iteration mrc keydb wt sess sched w in
    _lastStableCheckpointTimestamp (state (final o))
      <> _lastStableCheckpointTimestamp (state w) ->
    exists cfg, In (session_checkpoint MainDB cfg, 0%Z) (events_since (history w) (final o)).
Proof.
  intros mrc keydb wt sess sched [ct h]. cbv zeta. tick_step.
  set (ct1 := fst (apply_ops ct (after_stable_load sched))).
  assert (K1 : _lastStableCheckpointTimestamp ct1 = _lastStableCheckpointTimestamp ct)
    by apply apply_ops_keeps_lastStable.
  assert (K2 : forall ops, _lastStableCheckpointTimestamp (fst (apply_ops ct1 ops))
                           = _lastStableCheckpointTimestamp ct)
    by (intros ops; rewrite apply_ops_keeps_lastStable; exact K1).
  assert (K3 : forall ops ops',
             _lastStableCheckpointTimestamp (fst (apply_ops (fst (apply_ops ct1 ops)) ops'))
             = _lastStableCheckpointTimestamp ct)
    by (intros ops ops'; rewrite apply_ops_keeps_lastStable; apply K2).
  destruct (sess h) as [e|] eqn:Hsess;
  (destruct (_initialDataTimestamp ct1 <=? 1)%N;
    [|destruct mrc;
      [destruct (_stableTimestamp ct <? _initialDataTimestamp ct1)%N|]]);
    tick_step; try rewrite Hsess; tick_step;
    repeat match goal with
      | |- context [if (?r =? 0)%Z then _ else _] =>
          let E := fresh "E" in destruct (Z.eqb_spec r 0) as [E|E]; tick_step
      | |- context [if keydb then _ else _] => destruct keydb; tick_step
      | |- context [if isShutdownError ?c then _ else _] =>
          destruct (isShutdownError c); tick_step
      | |- context [match e with WriteConflictException => _ | _ => _ end] =>
          destruct e; tick_step
      end;
    intros Hne;
    try (exfalso; apply Hne; first [exact K1 | apply K2 | apply K3]);
    unfold events_since; cbn [state history];
    repeat rewrite <- app_assoc;
    rewrite ?skipn_length_app;
    match goal with
    | E : ?r = 0%Z |- exists cfg, In (session_checkpoint MainDB cfg, 0%Z)
                                    ((session_checkpoint MainDB ?c, ?r) :: _) =>
        exists c; left; rewrite E; reflexivity
    | E : ?r = 0%Z |- exists cfg, In (session_checkpoint MainDB cfg, 0%Z)
                                    ([(session_checkpoint MainDB ?c, ?r)] ++ _) =>
        exists c; left; rewrite E; reflexivity
    end.
Qed.

(** X10. An exception while the tick acquires its session ends the
    iteration before anything is called, the checkpoint of the key database
    included, and leaves the worker's state alone.  A
    WriteConflictException and a shutdown-class AssertionException are
    swallowed (the iteration returns); any other AssertionException fails
    the [invariant] of the [catch] clause. *)
Theorem run_iteration_session_exception :
  forall (mrc keydb : bool) (wt : StorageCore) (sess : list Event -> option Exn)
         (w : World t) (e : Exn),
    sess (history w) = Some e ->
    ((_initialDataTimestamp (state w) <= 1)%N \/ mrc = false \/
     (_initialDataTimestamp (state w) <= _stableTimestamp (state w))%N) ->
    run_iteration mrc keydb wt sess no_interference w =
    match e with
    | WriteConflictException => Returns tt w
    | AssertionException c =>
        if isShutdownError c then Returns tt w else Aborts InvariantFailure w
    end.
Proof.
  intros mrc keydb wt sess [ct h] e Hsess Hbranch. cbn [state history] in *.
  tick_step. cbn [no_interference after_stable_load before_second_load during_checkpoint
                  apply_ops fst].
  destruct (N.leb_spec (_initialDataTimestamp ct) 1) as [Hi|Hi];
    [|destruct mrc;
      [destruct (N.ltb_spec (_stableTimestamp ct) (_initialDataTimestamp ct)) as [Hlt|Hge]|]];
    tick_step; try rewrite Hsess; tick_step.
  - destruct e as [|c]; [|destruct (isShutdownError c)]; reflexivity.
  - exfalso. destruct Hbranch as [H|[H|H]]; [lia | discriminate | lia].
  - destruct e as [|c]; [|destruct (isShutdownError c)]; reflexivity.
  - destruct e as [|c]; [|destruct (isShutdownError c)]; reflexivity.
Qed.

(** X11. With majority read concern disabled and a real initial-data
    timestamp, a tick whose full checkpoint succeeds publishes
    [UINT64_MAX] as the last stable checkpoint timestamp, whatever the
    stable timestamp is. *)
Theorem run_iteration_without_majority_publishes_max :
  forall (keydb : bool) (wt : StorageCore) (sess : list Event -> option Exn)
         (sched : Schedule) (w : World t),
    sess (history w) = None ->
    (1 < _initialDataTimestamp (fst (apply_ops (state w) (after_stable_load sched))))%N ->
    wt (history w) (session_checkpoint MainDB "use_timestamp=false") = 0%Z ->
    _lastStableCheckpointTimestamp
      (state (final (run_iteration false keydb wt sess sched w))) = uint64_max.
Proof.
  intros keydb wt sess sched [ct h] Hsess Hi Hrc. cbn [state history] in *.
  tick_step.
  destruct (N.leb_spec (_initialDataTimestamp (fst (apply_ops ct (after_stable_load sched)))) 1)
    as [Hle|_]; [lia|].
  tick_step. rewrite Hsess. tick_step. rewrite Hrc. cbn [Z.eqb]. tick_step.
  destruct keydb; tick_step; [|reflexivity].
  match goal with |- context [if (?r =? 0)%Z then _ else _] => destruct (r =? 0)%Z end;
    tick_step; reflexivity.
Qed.

End TickPublishes.

(** [run_iteration_publishes_only_after_success] on the restart scenario,
    where the published timestamp moves from 0 to 0x100. *)
Lemma run_iteration_publishes_only_after_success_witness :
  exists cfg,
    In (session_checkpoint MainDB cfg, 0%Z)
       (events_since []
          (final (WiredTigerCheckpointThread.run_iteration true false wt_ok (fun _ => None)
                    no_interference (mkWorld (worker 256 256) [])))).
Proof.
  apply (run_iteration_publishes_only_after_success true false wt_ok (fun _ => None)
           no_interference (mkWorld (worker 256 256) [])).
  intro Hx. discriminate Hx.
Defined.

(** [run_iteration_session_exception] when the session cache reports
    shutdown in progress. *)
Lemma run_iteration_session_exception_witness :
  WiredTigerCheckpointThread.run_iteration true true wt_ok
    (fun _ => Some (AssertionException ShutdownInProgress)) no_interference
    (mkWorld (worker 256 256) [])
  = Returns tt (mkWorld (worker 256 256) []).
Proof.
  apply (run_iteration_session_exception true true wt_ok
           (fun _ => Some (AssertionException ShutdownInProgress))
           (mkWorld (worker 256 256) []) (AssertionException ShutdownInProgress) eq_refl).
  right; right. intro Hx. discriminate Hx.
Defined.

(** [run_iteration_without_majority_publishes_max] with initial-data
    timestamp 10 and no stable timestamp. *)
Lemma run_iteration_without_majority_publishes_max_witness :
  WiredTigerCheckpointThread._lastStableCheckpointTimestamp
    (state (final (WiredTigerCheckpointThread.run_iteration false false wt_ok (fun _ => None)
                     no_interference (mkWorld (worker 0 10) []))))
  = uint64_max.
Proof.
  apply (run_iteration_without_majority_publishes_max false wt_ok (fun _ => None)
           no_interference (mkWorld (worker 0 10) [])); reflexivity.
Defined.

(* ------------------------------------------------------------------ *)
(** ** Start-up after recovery *)

Section StartAfterRecovery.
Import WiredTigerKVEngine.

(** When the storage core accepts every [set_timestamp],
    [setOldestTimestamp] returns; it only appends to the history and
    changes nothing in the engine but the cached oldest timestamp. *)
Lemma setOldestTimestamp_accepted (wt : StorageCore) (ts : Timestamp) (force : bool)
    (e : t) (h : list Event) :
  (forall h c, wt h (conn_set_timestamp c) = 0%Z) ->
  exists v evs,
    setOldestTimestamp wt ts force (mkWorld e h)
      = Returns tt (mkWorld (with_oldestTimestamp v e) (h ++ evs)).
Proof.
  intros Hok.
  assert (Hsame : mkWorld e h = mkWorld (with_oldestTimestamp (_oldestTimestamp e) e) (h ++ [])).
  { rewrite app_nil_r. destruct e; reflexivity. }
  destruct (WTPreserveSnapshotHistoryIndefinitely e) eqn:Hfp.
  { exists (_oldestTimestamp e), []. rewrite <- Hsame.
    unfold setOldestTimestamp. engine_step. rewrite Hfp. reflexivity. }
  destruct (N.eqb_spec ts 0) as [Hz|Hz].
  { exists (_oldestTimestamp e), []. rewrite <- Hsame.
    unfold setOldestTimestamp. engine_step. rewrite Hfp.
    destruct (N.eqb_spec ts 0); [reflexivity | contradiction]. }
  rewrite (setOldestTimestamp_run wt ts force e h Hz Hfp). cbv zeta.
  rewrite Hok. cbn [Z.eqb].
  destruct force.
  - eexists _, _. reflexivity.
  - match goal with |- context [(?a <? ?b)%N] => destruct (a <? b)%N end.
    + eexists _, _. reflexivity.
    + exists (_oldestTimestamp e). eexists.
      replace (with_oldestTimestamp (_oldestTimestamp e) e) with e by (destruct e; reflexivity).
      reflexivity.
Qed.

(** X12. Start-up after recovery.  On a writable, non-ephemeral engine that
    keeps history and recovered at a timestamp [r] that is not null (its
    seconds are not 0, so that it is 2^32 at least), with a storage core
    that accepts the timestamp pushes, the constructor's start of the
    checkpoint worker returns with a worker whose stable and initial-data
    timestamps are both [r] and whose first-stable trigger has fired, the
    wake-up being in the history.  Nothing is published yet, so
    [getLastStableCheckpointTimestamp] answers with the recovery timestamp
    [r]. *)
Theorem startCheckpointThread_seeds_worker :
  forall (wt : StorageCore) (w : World t) (r : Timestamp),
    _readOnly (state w) = false ->
    _ephemeral (state w) = false ->
    _keepDataHistory (state w) = true ->
    _recoveryTimestamp (state w) = r ->
    (4294967296 <= r)%N ->
    (forall h c, wt h (conn_set_timestamp c) = 0%Z) ->
    exists w',
      startCheckpointThread wt w = Returns tt w' /\
      _checkpointThread (state w') = Some (CT.mk false r r true 0%N) /\
      In (condvar_notify_one, 0%Z) (events_since (history w) w') /\
      getLastStableCheckpointTimestamp w' = Returns (Some r) w'.
Proof.
  intros wt [e h] r Hro Hep Hk Hr Hsec Hok. cbn [state history] in *.
  assert (Hnz : isNull r = false) by (apply not_null_from_seconds; exact Hsec).
  unfold startCheckpointThread. engine_step. rewrite Hro, Hep, Hr. cbn [negb andb].
  rewrite Hnz. cbn [negb].
  engine_step.
  set (c0 := CT.setInitialDataTimestamp CT.create r).
  set (e1 := with_checkpointThread (Some c0) (with_checkpointThread (Some CT.create) e)).
  assert (Hk1 : _keepDataHistory e1 = true) by exact Hk.
  rewrite (setStableTimestamp_run wt r e1 h Hk1 Hnz). cbv zeta.
  rewrite Hok. cbn [Z.eqb].
  change (_checkpointThread e1) with (Some c0). cbv beta iota.
  assert (Hset : CT.setStableTimestamp c0 r = (CT.mk false r r true 0%N, true)).
  { subst c0. unfold CT.setStableTimestamp, CT.setInitialDataTimestamp, CT.create.
    cbn [CT._stableTimestamp CT._initialDataTimestamp CT._firstStableCheckpointTaken
         CT._shuttingDown CT._lastStableCheckpointTimestamp].
    assert (H0 : (0 <? r)%N = true) by (apply N.ltb_lt; unfold Timestamp in *; lia).
    rewrite H0, N.leb_refl. reflexivity. }
  rewrite Hset. cbn [fst snd].
  match goal with
  | |- context [setOldestTimestamp wt r false (mkWorld ?e2 ?h2)] =>
      destruct (setOldestTimestamp_accepted wt r false e2 h2 Hok) as (v & evs & E)
  end.
  rewrite E. eexists. split; [reflexivity|].
  cbn [state history _checkpointThread with_oldestTimestamp with_checkpointThread].
  split; [reflexivity|].
  split.
  { rewrite <- !app_assoc, events_since_app. cbn [app]. right; left; reflexivity. }
  unfold getLastStableCheckpointTimestamp. engine_step.
  unfold supportsRecoverToStableTimestamp.
  cbn [_ephemeral _keepDataHistory _checkpointThread _recoveryTimestamp
       with_oldestTimestamp with_checkpointThread e1].
  rewrite Hep, Hk, Hr. cbn [orb negb CT.getLastStableCheckpointTimestamp
                             CT._lastStableCheckpointTimestamp N.eqb].
  rewrite Hnz. reflexivity.
Qed.

End StartAfterRecovery.

(** [startCheckpointThread_seeds_worker] after a restart that recovered at
    10 seconds. *)
Lemma startCheckpointThread_seeds_worker_witness :
  exists w',
    startCheckpointThread wt_ok (mkWorld (engine_recovered ts_10s) []) = Returns tt w' /\
    WiredTigerKVEngine._checkpointThread (state w')
      = Some (WiredTigerCheckpointThread.mk false ts_10s ts_10s true 0%N) /\
    In (condvar_notify_one, 0%Z) (events_since [] w') /\
    WiredTigerKVEngine.getLastStableCheckpointTimestamp w' = Returns (Some ts_10s) w'.
Proof.
  apply (startCheckpointThread_seeds_worker wt_ok (mkWorld (engine_recovered ts_10s) [])
           ts_10s eq_refl eq_refl eq_refl eq_refl).
  - intro Hx. discriminate Hx.
  - intros; reflexivity.
Defined.

(* ------------------------------------------------------------------ *)
(** ** The downgrade string *)

Section DowngradeString.
Import WiredTigerFileVersion.

(** X13. Whenever [shouldDowngrade] decides for a downgrade,
    [getDowngradeString] yields a compatibility string, with one exception:
    an arbiter whose feature compatibility version is not initialized and
    whose files were opened as 4.0 fails the [invariant] of
    [getDowngradeString].  The string is the 2.9 release exactly when the
    version is not initialized and the files were opened as 3.4, and the
    3.0 release otherwise. *)
Theorem getDowngradeString_after_shouldDowngrade :
  forall (g : ServerGlobals) (v : StartupVersion) (readOnly repairMode hasRecoveryTimestamp : bool),
    shouldDowngrade g v readOnly repairMode hasRecoveryTimestamp = true ->
    (getDowngradeString g v = None <->
       (memberState_arbiter g = true /\
        featureCompatibility_isVersionInitialized g = false /\ v = IS_40)) /\
    (getDowngradeString g v = Some "compatibility=(release=2.9)"%string <->
       (featureCompatibility_isVersionInitialized g = false /\ v = IS_34)) /\
    (getDowngradeString g v <> None ->
     getDowngradeString g v <> Some "compatibility=(release=2.9)"%string ->
     getDowngradeString g v = Some "compatibility=(release=3.0)"%string).
Proof.
  intros [arb init ver repl] v ro rep hasRT. unfold shouldDowngrade, getDowngradeString.
  cbn [memberState_arbiter featureCompatibility_isVersionInitialized
       featureCompatibility_getVersion replSettings_usingReplSets].
  destruct ro, arb, init, v; cbn; intros H; try discriminate H;
    repeat split; intros; try discriminate; try tauto;
    repeat match goal with
      | H : _ /\ _ |- _ => destruct H
      end; try discriminate; try congruence.
Qed.

End DowngradeString.

(** [getDowngradeString_after_shouldDowngrade] on a replica-set member whose
    FCV is fully downgraded. *)
Lemma getDowngradeString_after_shouldDowngrade_witness :
  getDowngradeString
    {| WiredTigerFileVersion.memberState_arbiter := false;
       WiredTigerFileVersion.featureCompatibility_isVersionInitialized := true;
       WiredTigerFileVersion.featureCompatibility_getVersion :=
         WiredTigerFileVersion.kFullyDowngradedTo36;
       WiredTigerFileVersion.replSettings_usingReplSets := true |}
    WiredTigerFileVersion.IS_40
  = Some "compatibility=(release=3.0)"%string.
Proof.
  apply (proj2 (proj2 (getDowngradeString_after_shouldDowngrade
           {| WiredTigerFileVersion.memberState_arbiter := false;
              WiredTigerFileVersion.featureCompatibility_isVersionInitialized := true;
              WiredTigerFileVersion.featureCompatibility_getVersion :=
                WiredTigerFileVersion.kFullyDowngradedTo36;
              WiredTigerFileVersion.replSettings_usingReplSets := true |}
           WiredTigerFileVersion.IS_40 false false true eq_refl)));
    intro Hx; discriminate Hx.
Defined.

(* ------------------------------------------------------------------ *)
(** ** S3 hot backup: the uploads *)

Section S3Uploads.
Import S3Backup.

Lemma upload_all_accepted (s3_client : S3Client) (fileToUpload : string -> bool) (b : string) :
  (forall f, fileToUpload f = true) ->
  (forall sent r, PutObject_result s3_client sent r = true) ->
  forall (filesList : list FileTuple) (sent : list Request),
    upload s3_client fileToUpload b filesList sent
      = (OK, sent ++ map (fun f => PutObject (putRequest b f)) filesList).
Proof.
  intros Hopen Hput filesList. induction filesList as [|[[src dst] size] rest IH]; intros sent.
  - cbn. rewrite app_nil_r. reflexivity.
  - cbn [upload map]. rewrite Hopen, Hput. cbn [negb]. rewrite IH.
    rewrite <- app_assoc. reflexivity.
Qed.

(** X14. When every request succeeds, an S3 hot backup returns OK after one
    [PutObject] per file of the backup, in the order of the files list, each
    under the file's destination path as key, with the file's recorded size
    as content length and content type application/octet-stream.  Into a
    bucket that is not among the listed ones, the uploads follow
    [ListBuckets] and [CreateBucket] and no [ListObjects] is sent; into a
    listed bucket whose listing under the prefix holds nothing but the
    directory marker, they follow [ListBuckets] and [ListObjects]. *)
Theorem hotBackup_uploads_every_file :
  forall (s3_client : S3Client) (fileToUpload : string -> bool)
         (filesList : list FileTuple) (s3params : S3BackupParameters)
         (buckets : list string),
    (forall f, fileToUpload f = true) ->
    (forall sent r, PutObject_result s3_client sent r = true) ->
    ListBuckets_result s3_client [] = Some buckets ->
    let prefix := if String.eqb (path s3params) "" then None else Some (path s3params) in
    let puts := map (fun f => PutObject (putRequest (bucket s3params) f)) filesList in
    (~ In (bucket s3params) buckets ->
     CreateBucket_result s3_client [ListBuckets] (bucket s3params) = true ->
     hotBackup s3_client fileToUpload (OK, filesList) s3params
       = (OK, [ListBuckets; CreateBucket (bucket s3params)] ++ puts)) /\
    (In (bucket s3params) buckets ->
     forall object_list,
       ListObjects_result s3_client [ListBuckets] (bucket s3params) prefix = Some object_list ->
       Forall (fun key => key = (path s3params ++ "/")%string) object_list ->
       hotBackup s3_client fileToUpload (OK, filesList) s3params
         = (OK, [ListBuckets; ListObjects (bucket s3params) prefix] ++ puts)).
Proof.
  intros s3_client fileToUpload filesList s3params buckets Hopen Hput Hlb prefix puts.
  split.
  - intros Hnin Hcreate. unfold hotBackup. cbn [isOK negb]. rewrite Hlb.
    assert (Hex : existsb (fun name => String.eqb name (bucket s3params)) buckets = false).
    { destruct (existsb _ buckets) eqn:E; [|reflexivity].
      apply existsb_exists in E. destruct E as (x & Hin & Hx).
      apply String.eqb_eq in Hx. subst x. contradiction. }
    rewrite Hex. cbn [negb app]. rewrite Hcreate. cbn [negb].
    apply upload_all_accepted; assumption.
  - intros Hin object_list Hlo Hall. unfold hotBackup. cbn [isOK negb]. rewrite Hlb.
    rewrite (bucketExists_true _ _ Hin). cbn [negb app]. fold prefix. rewrite Hlo.
    assert (Hempty : target_is_empty (path s3params ++ "/") object_list = true).
    { clear Hlo. induction Hall as [|k ks Hk _ IH]; [reflexivity|].
      cbn [target_is_empty]. rewrite Hk, String.eqb_refl. cbn [negb]. exact IH. }
    rewrite Hempty. cbn [negb].
    apply upload_all_accepted; assumption.
Qed.

(** X15. The upload loop stops at the first [PutObject] that fails: the
    backup returns InternalError, the files before the failing one have been
    uploaded, the failing request has been sent, and no request is sent for
    any file after it. *)
Theorem upload_stops_at_first_failure :
  forall (s3_client : S3Client) (fileToUpload : string -> bool) (b : string)
         (before after : list FileTuple) (failing : FileTuple) (sent : list Request),
    (forall f, fileToUpload f = true) ->
    (forall sent' f, In f before ->
                     PutObject_result s3_client sent' (putRequest b f) = true) ->
    (forall sent', PutObject_result s3_client sent' (putRequest b failing) = false) ->
    upload s3_client fileToUpload b (before ++ failing :: after) sent
      = (InternalError,
         sent ++ map (fun f => PutObject (putRequest b f)) before
              ++ [PutObject (putRequest b failing)]).
Proof.
  intros s3_client fileToUpload b before after failing sent Hopen Hok Hfail.
  revert sent. induction before as [|[[src dst] size] rest IH]; intros sent.
  - destruct failing as [[src dst] size]. cbn [app upload map].
    rewrite Hopen. cbn [negb].
    pose proof (Hfail sent) as Hf. cbn [putRequest] in Hf. rewrite Hf. reflexivity.
  - cbn [app upload map]. rewrite Hopen. cbn [negb].
    pose proof (Hok sent (src, dst, size) (or_introl eq_refl)) as Hs.
    cbn [putRequest] in Hs. rewrite Hs. cbn [negb].
    rewrite IH by (intros sent' f Hin; apply Hok; right; exact Hin).
    rewrite <- app_assoc. reflexivity.
Qed.

End S3Uploads.

(** [hotBackup_uploads_every_file] into a bucket that has to be created. *)
Lemma hotBackup_uploads_every_file_witness :
  S3Backup.hotBackup s3_fresh (fun _ => true) (OK, files3) s3params0
  = (OK, [S3Backup.ListBuckets; S3Backup.CreateBucket "backups"]
         ++ map (fun f => S3Backup.PutObject (putRequest "backups" f)) files3).
Proof.
  apply (proj1 (hotBackup_uploads_every_file s3_fresh (fun _ => true) files3 s3params0 []
                  (fun _ => eq_refl) (fun _ _ => eq_refl) eq_refl)).
  - intros H; exact H.
  - reflexivity.
Defined.

(** [upload_stops_at_first_failure] when the journal file is rejected: the
    metadata file after it is not uploaded. *)
Lemma upload_stops_at_first_failure_witness :
  S3Backup.upload (s3_rejects "monday/journal/WiredTigerLog.1") (fun _ => true) "backups"
    ([file_wt] ++ file_log :: [file_meta]) []
  = (InternalError,
     [] ++ map (fun f => S3Backup.PutObject (putRequest "backups" f)) [file_wt]
        ++ [S3Backup.PutObject (putRequest "backups" file_log)]).
Proof.
  apply (upload_stops_at_first_failure (s3_rejects "monday/journal/WiredTigerLog.1")
           (fun _ => true) "backups").
  - intros; reflexivity.
  - intros sent' f [<- | []]. reflexivity.
  - intros; reflexivity.
Defined.

(* ------------------------------------------------------------------ *)
(** ** Metadata keys and idents *)

Section IdentKeys.
Import Idents.

Lemma substring_all (s : string) : substring 0 (String.length s) s = s.
Proof. induction s as [|a s IH]; cbn; [reflexivity | rewrite IH; reflexivity]. Qed.

Lemma substr_from_0 (s : string) : substr_from 0 s = s.
Proof. unfold substr_from. rewrite Nat.sub_0_r. apply substring_all. Qed.

Lemma substr_from_S (n : nat) (a : Ascii.ascii) (s : string) :
  substr_from (S n) (String a s) = substr_from n s.
Proof. reflexivity. Qed.

(** A key splits at the first occurrence of the character. *)
Lemma find_split (c : Ascii.ascii) (s : string) : forall idx,
  find c s = Some idx ->
  s = (substring 0 idx s ++ String c (substr_from (idx + 1) s))%string.
Proof.
  induction s as [|a s IH]; intros idx H; [discriminate|].
  cbn [find] in H. destruct (Ascii.eqb_spec a c) as [->|Hne].
  - inversion H; subst idx. cbn [substring Nat.add]. rewrite substr_from_S, substr_from_0.
    destruct s; reflexivity.
  - destruct (find c s) as [i|] eqn:E; [|discriminate]. inversion H; subst idx.
    cbn [substring Nat.add append]. rewrite substr_from_S. f_equal. apply IH. reflexivity.
Qed.

Lemma substr_from_app (p s : string) : substr_from (String.length p) (p ++ s) = s.
Proof.
  induction p as [|a p IH]; [apply substr_from_0|].
  cbn [String.length append]. rewrite substr_from_S. exact IH.
Qed.

Lemma substring_split (n : nat) : forall s : string,
  s = (substring 0 n s ++ substr_from n s)%string.
Proof.
  induction n as [|n IH]; intros s.
  - rewrite substr_from_0. destruct s; reflexivity.
  - destruct s as [|a s]; [reflexivity|].
    cbn [substring append]. rewrite substr_from_S. f_equal. apply IH.
Qed.

Lemma ident_of_key_uri (ident : string) :
  ident_of_key (WiredTigerKVEngine._uri ident)
  = if String.eqb ident "sizeStorer" then None else Some ident.
Proof.
  unfold ident_of_key, WiredTigerKVEngine._uri.
  change (find ":"%char ("table:" ++ ident)) with (Some 5). cbv beta iota zeta.
  change (substring 0 5 ("table:" ++ ident)) with "table"%string.
  change (negb (String.eqb "table" "table")) with false. cbv beta iota.
  change (5 + 1) with (String.length "table:").
  rewrite substr_from_app. reflexivity.
Qed.

(** X16. [getAllIdents] inverts [_uri].  A metadata key contributes an
    ident exactly when it is ["table:" ++ ident] for an ident other than
    "sizeStorer", and it contributes that ident, also when the ident itself
    contains ':' or '/'; keys of another type and keys without a colon
    contribute nothing.  So over a cursor that ends with WT_NOTFOUND the
    result lists, in cursor order, the idents whose URIs are in the
    metadata, without the size storer; any other end of the cursor is the
    failed [fassert] 50663. *)
Theorem getAllIdents_inverts_uri :
  forall (keys : list string) (ret : Z) (key ident : string),
    (ident_of_key key = Some ident <->
       (key = WiredTigerKVEngine._uri ident /\ ident <> "sizeStorer"%string)) /\
    (forall idents,
       getAllIdents (Some (map WiredTigerKVEngine._uri idents, WT_NOTFOUND))
       = inl (filter (fun i => negb (String.eqb i "sizeStorer")) idents)) /\
    (getAllIdents (Some (keys, WT_NOTFOUND)) = inl
       (flat_map (fun key => match ident_of_key key with
                             | Some i => [i] | None => [] end) keys)) /\
    (ret <> WT_NOTFOUND -> getAllIdents (Some (keys, ret)) = inr (FassertFailed 50663)).
Proof.
  intros keys ret key ident. split; [|split; [|split]].
  - split.
    + unfold ident_of_key. destruct (find ":"%char key) as [idx|] eqn:Hf; [|discriminate].
      cbv zeta. destruct (String.eqb_spec (substring 0 idx key) "table") as [Ht|]; [|discriminate].
      cbn [negb].
      destruct (String.eqb_spec (substr_from (idx + 1) key) "sizeStorer") as [|Hs]; [discriminate|].
      intros H. inversion H; subst ident. split; [|exact Hs].
      pose proof (find_split _ _ _ Hf) as Hsplit. rewrite Ht in Hsplit.
      exact Hsplit.
    + intros [-> Hne]. rewrite ident_of_key_uri.
      destruct (String.eqb_spec ident "sizeStorer"); [contradiction | reflexivity].
  - intros idents. unfold getAllIdents. cbn [Z.eqb WT_NOTFOUND]. rewrite Pos.eqb_refl. f_equal.
    induction idents as [|i idents IH]; [reflexivity|].
    cbn [map flat_map filter]. rewrite ident_of_key_uri, IH.
    destruct (String.eqb i "sizeStorer"); reflexivity.
  - unfold getAllIdents. cbn [Z.eqb WT_NOTFOUND]. rewrite Pos.eqb_refl. reflexivity.
  - intros Hne. unfold getAllIdents. destruct (Z.eqb_spec ret WT_NOTFOUND); [contradiction|].
    reflexivity.
Qed.

(** X17. The metadata walk of [cleanShutdown] and [getAllIdents] agree on
    what a table is, except for the size storer: a key passes the walk's
    test exactly when it is ["table:" ++ x] for some [x], so
    "table:sizeStorer" gets its logging enabled although [getAllIdents]
    never lists it; and [_rebuildIdent] recovers from a URI the ident it was
    made from. *)
Theorem table_keys_and_ident_names :
  forall (key ident : string),
    (is_table_key key = true <-> exists x, key = WiredTigerKVEngine._uri x) /\
    is_table_key (WiredTigerKVEngine._uri "sizeStorer") = true /\
    ident_of_key (WiredTigerKVEngine._uri "sizeStorer") = None /\
    identName (WiredTigerKVEngine._uri ident) = Some ident /\
    (forall i, identName key = Some i -> key = WiredTigerKVEngine._uri i).
Proof.
  intros key ident. split; [|split; [|split; [|split]]].
  - split.
    + unfold is_table_key. destruct (find ":"%char key) as [idx|] eqn:Hf; [|discriminate].
      intros Ht. apply String.eqb_eq in Ht.
      pose proof (find_split _ _ _ Hf) as Hsplit. rewrite Ht in Hsplit.
      exists (substr_from (idx + 1) key). exact Hsplit.
    + intros [x ->]. reflexivity.
  - reflexivity.
  - reflexivity.
  - unfold identName, WiredTigerKVEngine._uri.
    assert (Hp : String.prefix "table:" ("table:" ++ ident) = true)
      by (apply String.prefix_correct; destruct ident; reflexivity).
    rewrite Hp. rewrite substr_from_app. reflexivity.
  - intros i. unfold identName, WiredTigerKVEngine._uri.
    destruct (String.prefix "table:" key) eqn:Hp; [|discriminate].
    intros H. inversion H. apply String.prefix_correct in Hp.
    rewrite (substring_split (String.length "table:") key) at 1.
    rewrite Hp. reflexivity.
Qed.

End IdentKeys.

(** ** Cached cursors and the drop queue *)

Section CachedCursors.
Import DropQueue.
Variable C : Type.
Variable uri_of : C -> option string.

Lemma filter_loop_spec (q : list string) (cache : list C) : forall toDrop,
  filter_loop C uri_of q cache toDrop
  = (toDrop ++ filter (on_queued C uri_of q) cache,
     filter (fun i => negb (on_queued C uri_of q i)) cache).
Proof.
  induction cache as [|i rest IH]; intros toDrop; cbn [filter_loop filter].
  - rewrite app_nil_r. reflexivity.
  - unfold on_queued in *. destruct (uri_of i) as [uri|].
    + destruct (queued q uri); cbn [negb].
      * rewrite IH, <- app_assoc. reflexivity.
      * rewrite IH. reflexivity.
    + rewrite IH. reflexivity.
Qed.

Lemma filter_partition_perm (p : C -> bool) (l : list C) :
  Permutation l (filter p l ++ filter (fun i => negb (p i)) l).
Proof.
  induction l as [|x l IH]; [constructor|].
  cbn [filter]. destruct (p x); cbn [negb app].
  - constructor. exact IH.
  - apply Permutation_cons_app. exact IH.
Qed.

Lemma queued_In (q : list string) (uri : string) : queued q uri = true <-> In uri q.
Proof.
  unfold queued. rewrite existsb_exists. split.
  - intros [x [Hin Heq]]. apply String.eqb_eq in Heq. subst x. exact Hin.
  - intros Hin. exists uri. split; [exact Hin | apply String.eqb_refl].
Qed.

(** X18. [filterCursorsWithQueuedDrops] splits the cache in two without
    losing, duplicating or reordering a cursor: the returned list is the
    cursors open on a URI of the drop queue, the cache keeps the others
    (null cursors among them), each in cache order. *)
Theorem filterCursorsWithQueuedDrops_partitions :
  forall (e : WiredTigerKVEngine.t) (cache : list C),
    let q := WiredTigerKVEngine._identToDrop e in
    let toDrop := fst (filterCursorsWithQueuedDrops C uri_of e cache) in
    let left := snd (filterCursorsWithQueuedDrops C uri_of e cache) in
    toDrop = filter (on_queued C uri_of q) cache /\
    left = filter (fun i => negb (on_queued C uri_of q i)) cache /\
    Permutation cache (toDrop ++ left) /\
    Forall (fun i => exists uri, uri_of i = Some uri /\ In uri q) toDrop /\
    Forall (fun i => forall uri, uri_of i = Some uri -> ~ In uri q) left.
Proof.
  intros e cache q toDrop left.
  assert (Hd : toDrop = filter (on_queued C uri_of q) cache /\
               left = filter (fun i => negb (on_queued C uri_of q i)) cache).
  { subst toDrop left. unfold filterCursorsWithQueuedDrops. fold q.
    destruct q as [|u q'] eqn:Hq.
    - cbn [fst snd]. split.
      + induction cache as [|i rest IH]; [reflexivity|].
        cbn [filter]. unfold on_queued at 1. destruct (uri_of i); cbn [queued existsb]; exact IH.
      + induction cache as [|i rest IH]; [reflexivity|].
        cbn [filter]. unfold on_queued at 1.
        destruct (uri_of i); cbn [queued existsb negb]; f_equal; exact IH.
    - rewrite filter_loop_spec. cbn [fst snd app]. split; reflexivity. }
  destruct Hd as [Hd Hl]. split; [exact Hd|]. split; [exact Hl|].
  rewrite Hd, Hl. split; [apply filter_partition_perm|]. split.
  - apply Forall_forall. intros i Hi. apply filter_In in Hi. destruct Hi as [_ Hi].
    unfold on_queued in Hi. destruct (uri_of i) as [uri|]; [|discriminate].
    exists uri. split; [reflexivity | apply queued_In; exact Hi].
  - apply Forall_forall. intros i Hi uri Hu Hin. apply filter_In in Hi. destruct Hi as [_ Hi].
    unfold on_queued in Hi. rewrite Hu in Hi. apply queued_In in Hin. rewrite Hin in Hi.
    discriminate Hi.
Qed.

End CachedCursors.

Section DropQueueClock.
Import DropQueue.
Variable ElapsedTracker : Type.
Variable intervalHasElapsed : ElapsedTracker -> bool.
Variable resetLastTime : ElapsedTracker -> ElapsedTracker.

Let hdq := haveDropsQueued ElapsedTracker intervalHasElapsed resetLastTime.

(** What one call of [haveDropsQueued] does when the flush, if one is made,
    throws nothing that [syncSizeInfo] throws on. *)
Lemma haveDropsQueued_run (flush_throws : list Event -> bool -> option Exn)
    (now : Z) (try_lock : bool) (w : World (Clocked ElapsedTracker)) :
  let c := state w in
  let e := engine _ c in
  let syncs := negb (WiredTigerKVEngine._readOnly e)
               && intervalHasElapsed (_sizeStorerSyncTracker _ c) in
  let limited := (now - _previousCheckedDropsQueued _ c <? 1000)%Z in
  let nonempty := negb (match WiredTigerKVEngine._identToDrop e with
                        | [] => true | _ => false end) in
  (syncs && WiredTigerKVEngine._sizeStorer e = true ->
     swallowed (WiredTigerKVEngine._durable e) (flush_throws (history w) false)) ->
  hdq flush_throws now try_lock w
  = Returns (negb limited && (try_lock && nonempty))
      (mkWorld
         (mkClocked _ e
            (if limited then _previousCheckedDropsQueued _ c else now)
            (if syncs then resetLastTime (_sizeStorerSyncTracker _ c)
             else _sizeStorerSyncTracker _ c))
         (history w ++
          if syncs && WiredTigerKVEngine._sizeStorer e
          then [(sizeStorer_flush false, 0%Z)] else [])).
Proof.
  destruct w as [[e prev tr] h]. cbv zeta.
  cbn [state history engine _previousCheckedDropsQueued _sizeStorerSyncTracker].
  intros Hsw.
  subst hdq. unfold haveDropsQueued. engine_step.
  cbn [engine _previousCheckedDropsQueued _sizeStorerSyncTracker].
  destruct (negb (WiredTigerKVEngine._readOnly e) && intervalHasElapsed tr) eqn:Hs;
    cbn [andb] in *.
  - unfold on_engine, with_sizeStorerSyncTracker,
      with_previousCheckedDropsQueued, with_engine. engine_step.
    cbn [engine _previousCheckedDropsQueued _sizeStorerSyncTracker].
    rewrite (syncSizeInfo_swallowed flush_throws false e h Hsw).
    cbn [state history engine _previousCheckedDropsQueued _sizeStorerSyncTracker].
    destruct (WiredTigerKVEngine._sizeStorer e) eqn:Hss;
      destruct (now - prev <? 1000)%Z; engine_step;
      cbn [engine _previousCheckedDropsQueued _sizeStorerSyncTracker negb andb];
      rewrite ?app_nil_r; reflexivity.
  - unfold with_previousCheckedDropsQueued. engine_step.
    destruct (now - prev <? 1000)%Z; engine_step;
      cbn [engine _previousCheckedDropsQueued _sizeStorerSyncTracker negb andb];
      rewrite ?app_nil_r; reflexivity.
Qed.

(** What one call of [haveDropsQueued] does when its flush throws an
    [AssertionException] that [syncSizeInfo] throws on: the tracker has been
    reset, the rate limit has not been looked at. *)
Lemma haveDropsQueued_throws (flush_throws : list Event -> bool -> option Exn)
    (now : Z) (try_lock : bool) (w : World (Clocked ElapsedTracker)) (code : ErrorCodes) :
  let c := state w in
  let e := engine _ c in
  negb (WiredTigerKVEngine._readOnly e)
    && intervalHasElapsed (_sizeStorerSyncTracker _ c)
    && WiredTigerKVEngine._sizeStorer e = true ->
  flush_throws (history w) false = Some (AssertionException code) ->
  WiredTigerKVEngine._durable e = true \/ code <> ExceededMemoryLimit ->
  hdq flush_throws now try_lock w
  = Aborts (Thrown (AssertionException code))
      (mkWorld
         (mkClocked _ e (_previousCheckedDropsQueued _ c)
            (resetLastTime (_sizeStorerSyncTracker _ c)))
         (history w ++ [(sizeStorer_flush false, 0%Z)])).
Proof.
  destruct w as [[e prev tr] h]. cbv zeta.
  cbn [state history engine _previousCheckedDropsQueued _sizeStorerSyncTracker].
  intros Hfl Hthrown Hre.
  apply andb_true_iff in Hfl. destruct Hfl as [Hs Hss].
  subst hdq. unfold haveDropsQueued. engine_step.
  cbn [engine _previousCheckedDropsQueued _sizeStorerSyncTracker].
  rewrite Hs.
  unfold on_engine, with_sizeStorerSyncTracker, with_engine. engine_step.
  cbn [engine _previousCheckedDropsQueued _sizeStorerSyncTracker].
  rewrite (syncSizeInfo_rethrown flush_throws false e h code Hss Hthrown Hre).
  reflexivity.
Qed.

(** A call of [haveDropsQueued] that answers true has restarted the
    second. *)
Lemma haveDropsQueued_true_restarts (flush_throws : list Event -> bool -> option Exn)
    (now : Z) (try_lock : bool) (w w1 : World (Clocked ElapsedTracker)) :
  hdq flush_throws now try_lock w = Returns true w1 ->
  _previousCheckedDropsQueued _ (state w1) = now.
Proof.
  destruct w as [[e prev tr] h].
  unfold hdq, haveDropsQueued. engine_step.
  cbn [engine _previousCheckedDropsQueued _sizeStorerSyncTracker].
  assert (Hend : forall w0 : World (Clocked ElapsedTracker),
             (if (now - prev <? 1000)%Z then Returns false w0
              else Returns (try_lock && negb match WiredTigerKVEngine._identToDrop e with
                                             | [] => true | _ => false end)
                     (mkWorld (with_previousCheckedDropsQueued _ now (state w0))
                        (history w0)))
             = Returns true w1 ->
             _previousCheckedDropsQueued _ (state w1) = now).
  { intros w0. destruct (now - prev <? 1000)%Z; intros H; [discriminate H|].
    inversion H; subst. reflexivity. }
  destruct (negb (WiredTigerKVEngine._readOnly e) && intervalHasElapsed tr).
  - unfold on_engine. engine_step.
    cbn [engine _previousCheckedDropsQueued _sizeStorerSyncTracker
         with_sizeStorerSyncTracker].
    destruct (WiredTigerKVEngine.syncSizeInfo flush_throws false (mkWorld e h))
      as [[] w0|f w0]; [|discriminate].
    engine_step. intros H. eapply Hend.
    destruct (now - prev <? 1000)%Z; exact H.
  - engine_step. intros H. eapply Hend.
    destruct (now - prev <? 1000)%Z; exact H.
Qed.

(** X19. [haveDropsQueued] never touches the queue.  Its flush of the size
    storer (without sync) is made whenever the engine is not read-only, the
    tracker's interval has elapsed and there is a size storer, also in a
    call that the rate limit answers false.  When that flush throws nothing
    that [syncSizeInfo] throws on, the call returns; it answers true only
    when a second or more has passed since the last call that got past the
    rate limit, the mutex could be taken and the queue is not empty; a call
    that gets past the limit restarts the second whatever it answers.  When
    the flush throws an [AssertionException] that is thrown on, the call
    ends with that exception: the tracker has been reset, the second has
    not been restarted, the engine is as it was. *)
Theorem haveDropsQueued_rate_limited_answer :
  forall (flush_throws : list Event -> bool -> option Exn)
         (now : Z) (try_lock : bool) (w : World (Clocked ElapsedTracker)),
    let c := state w in
    let e := engine _ c in
    let flushes := negb (WiredTigerKVEngine._readOnly e)
                   && intervalHasElapsed (_sizeStorerSyncTracker _ c)
                   && WiredTigerKVEngine._sizeStorer e in
    ((flushes = true ->
        swallowed (WiredTigerKVEngine._durable e) (flush_throws (history w) false)) ->
     exists (b : bool) (w' : World (Clocked ElapsedTracker)),
       hdq flush_throws now try_lock w = Returns b w' /\
       engine _ (state w') = e /\
       (b = true ->
          (now - _previousCheckedDropsQueued _ c >= 1000)%Z /\ try_lock = true /\
          WiredTigerKVEngine._identToDrop e <> []) /\
       _previousCheckedDropsQueued _ (state w')
         = (if (now - _previousCheckedDropsQueued _ c <? 1000)%Z
            then _previousCheckedDropsQueued _ c else now) /\
       events_since (history w) w'
         = (if flushes then [(sizeStorer_flush false, 0%Z)] else [])) /\
    (forall code,
       flushes = true ->
       flush_throws (history w) false = Some (AssertionException code) ->
       WiredTigerKVEngine._durable e = true \/ code <> ExceededMemoryLimit ->
       hdq flush_throws now try_lock w
       = Aborts (Thrown (AssertionException code))
           (mkWorld
              (mkClocked _ e (_previousCheckedDropsQueued _ c)
                 (resetLastTime (_sizeStorerSyncTracker _ c)))
              (history w ++ [(sizeStorer_flush false, 0%Z)]))).
Proof.
  intros fl now try_lock w c e flushes. split.
  - intros Hsw. eexists. eexists. split; [apply haveDropsQueued_run; exact Hsw|].
    cbn [state history engine _previousCheckedDropsQueued]. fold c. fold e.
    split; [reflexivity|]. split; [|split; [reflexivity|]].
    + intros Hb. apply andb_true_iff in Hb. destruct Hb as [Hl Hb].
      apply andb_true_iff in Hb. destruct Hb as [Ht Hq].
      apply negb_true_iff in Hl. apply Z.ltb_ge in Hl.
      split; [lia|]. split; [exact Ht|].
      destruct (WiredTigerKVEngine._identToDrop e); [discriminate Hq | discriminate].
    + apply events_since_app.
  - intros code Hfl Hthrown Hre. apply haveDropsQueued_throws; assumption.
Qed.

(** X20. The reaper is told of queued drops at most once per second.  Take
    a call that answered true, and a later call made less than 1000 ms
    after it, with [_previousCheckedDropsQueued] as the first call left it,
    whatever the queue, the rest of the engine, the tracker and the history
    have become by then.  The later call answers false when its flush, if
    it makes one, throws nothing that [syncSizeInfo] throws on, and ends
    with the exception of the flush otherwise; it never answers true. *)
Theorem haveDropsQueued_once_per_second :
  forall (flush_throws : list Event -> bool -> option Exn)
         (now1 now2 : Z) (lock1 lock2 : bool)
         (w w1 w1' : World (Clocked ElapsedTracker)),
    hdq flush_throws now1 lock1 w = Returns true w1 ->
    _previousCheckedDropsQueued _ (state w1') = _previousCheckedDropsQueued _ (state w1) ->
    (now2 - now1 < 1000)%Z ->
    let e1 := engine _ (state w1') in
    let flushes := negb (WiredTigerKVEngine._readOnly e1)
                   && intervalHasElapsed (_sizeStorerSyncTracker _ (state w1'))
                   && WiredTigerKVEngine._sizeStorer e1 in
    ((flushes = true ->
        swallowed (WiredTigerKVEngine._durable e1) (flush_throws (history w1') false)) ->
     exists w2, hdq flush_throws now2 lock2 w1' = Returns false w2) /\
    (forall code,
       flushes = true ->
       flush_throws (history w1') false = Some (AssertionException code) ->
       WiredTigerKVEngine._durable e1 = true \/ code <> ExceededMemoryLimit ->
       exists w2,
         hdq flush_throws now2 lock2 w1' = Aborts (Thrown (AssertionException code)) w2) /\
    (forall w2, hdq flush_throws now2 lock2 w1' <> Returns true w2).
Proof.
  intros fl now1 now2 lock1 lock2 w w1 w1' H1 Hsame Hlt e1 flushes.
  assert (Hp : _previousCheckedDropsQueued _ (state w1') = now1)
    by (rewrite Hsame; apply (haveDropsQueued_true_restarts _ _ _ _ _ H1)).
  assert (Hlim : (now2 - _previousCheckedDropsQueued _ (state w1') <? 1000)%Z = true)
    by (rewrite Hp; apply Z.ltb_lt; exact Hlt).
  assert (Hcases : (flushes = true ->
                      swallowed (WiredTigerKVEngine._durable e1)
                        (fl (history w1') false)) \/
                   exists code, flushes = true /\
                     fl (history w1') false = Some (AssertionException code) /\
                     (WiredTigerKVEngine._durable e1 = true \/ code <> ExceededMemoryLimit)).
  { destruct flushes; [|left; discriminate].
    destruct (fl (history w1') false) as [[|code]|] eqn:Hfl.
    - left. intros _. right. left. reflexivity.
    - destruct (WiredTigerKVEngine._durable e1) eqn:Hd.
      + right. exists code. repeat split. left. reflexivity.
      + destruct code;
          try (right; eexists; repeat split; right; discriminate).
        left. intros _. right. right. split; reflexivity.
    - left. intros _. left. reflexivity. }
  split; [|split].
  - intros Hsw. eexists. rewrite (haveDropsQueued_run fl now2 lock2 w1' Hsw).
    rewrite Hlim. reflexivity.
  - intros code Hfl Hthrown Hre. eexists.
    apply haveDropsQueued_throws; assumption.
  - intros w2 H2. destruct Hcases as [Hsw|(code & Hfl & Hthrown & Hre)].
    + rewrite (haveDropsQueued_run fl now2 lock2 w1' Hsw) in H2.
      rewrite Hlim in H2. discriminate H2.
    + rewrite (haveDropsQueued_throws fl now2 lock2 w1' code Hfl Hthrown Hre) in H2.
      discriminate H2.
Qed.

End DropQueueClock.

(** [haveDropsQueued_rate_limited_answer] on a reaper whose tracker's
    interval has always elapsed: with a quiet flush the call returns; with
    a flush that throws InternalError it throws that on. *)
Lemma haveDropsQueued_rate_limited_answer_witness :
  (exists b w',
     DropQueue.haveDropsQueued unit (fun _ => true) (fun t => t) no_throw 1000 true
       (clocked_abc 0) = Returns b w') /\
  DropQueue.haveDropsQueued unit (fun _ => true) (fun t => t) (flush_fails InternalError)
    1000 true (clocked_abc 0)
  = Aborts (Thrown (AssertionException InternalError))
      (mkWorld
         (DropQueue.mkClocked unit (DropQueue.engine unit (state (clocked_abc 0))) 0 tt)
         (history (clocked_abc 0) ++ [(sizeStorer_flush false, 0%Z)])).
Proof.
  split.
  - destruct (proj1 (haveDropsQueued_rate_limited_answer unit (fun _ => true) (fun t => t)
                       no_throw 1000 true (clocked_abc 0)) (fun _ => or_introl eq_refl))
      as (b & w' & E & _).
    exists b, w'. exact E.
  - apply (proj2 (haveDropsQueued_rate_limited_answer unit (fun _ => true) (fun t => t)
                    (flush_fails InternalError) 1000 true (clocked_abc 0))
             InternalError eq_refl eq_refl).
    left. reflexivity.
Defined.

(** [haveDropsQueued_once_per_second]: a call at 1000 answered true; the
    call at 1500 answers false although the queue holds an ident. *)
Lemma haveDropsQueued_once_per_second_witness :
  exists w2,
    DropQueue.haveDropsQueued unit (fun _ => false) (fun t => t) no_throw 1500 true
      (mkWorld (DropQueue.with_engine unit
                  (WiredTigerKVEngine.with_identToDrop ["table:b"%string]
                     (DropQueue.engine unit (state (clocked_abc 1000))))
                  (state (clocked_abc 1000)))
               (history (clocked_abc 1000)))
    = Returns false w2.
Proof.
  assert (H1 : DropQueue.haveDropsQueued unit (fun _ => false) (fun t => t) no_throw
                 1000 true (clocked_abc 0) = Returns true (clocked_abc 1000))
    by (vm_compute; reflexivity).
  assert (Hlt : (1500 - 1000 < 1000)%Z) by lia.
  apply (proj1 (haveDropsQueued_once_per_second unit (fun _ => false) (fun t => t)
                  no_throw 1000 1500 true true
                  (clocked_abc 0) (clocked_abc 1000)
                  (mkWorld (DropQueue.with_engine unit
                              (WiredTigerKVEngine.with_identToDrop ["table:b"%string]
                                 (DropQueue.engine unit (state (clocked_abc 1000))))
                              (state (clocked_abc 1000)))
                           (history (clocked_abc 1000)))
                  H1 eq_refl Hlt)).
  intros Hx. discriminate Hx.
Defined.

(** ** Opening the storage core *)

Section OpenStorageCore.
Import OpenWiredTiger WiredTigerFileVersion.

(** Closes one way out of [_openWiredTiger]. *)
Ltac open_case :=
  cbv zeta;
  cbn [fst snd List.length map firstn OpenWiredTiger.configs removelast last nth Nat.sub];
  repeat match goal with |- _ /\ _ => split end;
  [ lia | lia | reflexivity
  | repeat constructor; assumption
  | intros o Ho;
    first [ discriminate Ho | injection Ho as <-; split; [assumption | reflexivity] ]
  | intros Hn; first [ discriminate Hn | split; [reflexivity | assumption] ] ].


(** X22. When no compatibility version opens, only the code of the last
    attempt (2.9.0) decides how [_openWiredTiger] goes on: EINVAL is fatal
    28561 also in repair mode; outside repair mode WT_TRY_SALVAGE is fatal
    50944 and every other code fatal 28595; in repair mode the salvage
    attempt follows, and its failure is fatal 50947.  The codes of the
    first two attempts play no part. *)
Theorem openWiredTiger_last_code_decides :
  forall (open : Opener) (repair : bool) (cfg : string) (r1 r2 r3 : Z),
    let a1 := ((cfg ++ require_min "3.1.0")%string, r1) in
    let a2 := ((cfg ++ require_min "3.0.0")%string, r2) in
    let a3 := ((cfg ++ require_min "2.9.0")%string, r3) in
    let c4 := (cfg ++ ",salvage=true")%string in
    open [] (fst a1) = r1 -> open [a1] (fst a2) = r2 -> open [a1; a2] (fst a3) = r3 ->
    r1 <> 0%Z -> r2 <> 0%Z -> r3 <> 0%Z ->
    _openWiredTiger open repair cfg =
      if (r3 =? EINVAL)%Z then ([a1; a2; a3], inr (FassertFailed 28561))
      else if negb repair then
        ([a1; a2; a3],
         inr (FassertFailed (if (r3 =? WT_TRY_SALVAGE)%Z then 50944 else 28595)))
      else
        let r4 := open [a1; a2; a3] c4 in
        ([a1; a2; a3; (c4, r4)],
         if (r4 =? 0)%Z then inl (mkOpened None true) else inr (FassertFailed 50947)).
Proof.
  intros open repair cfg r1 r2 r3 a1 a2 a3 c4 E1 E2 E3 H1 H2 H3.
  unfold _openWiredTiger, wiredtiger_open_at. cbn [app].
  subst a1 a2 a3 c4. cbn [fst] in *.
  rewrite E1. destruct (Z.eqb_spec r1 0); [contradiction|].
  rewrite E2. destruct (Z.eqb_spec r2 0); [contradiction|].
  rewrite E3. destruct (Z.eqb_spec r3 0); [contradiction|].
  destruct (r3 =? EINVAL)%Z; [reflexivity|].
  destruct repair; cbn [negb andb]; rewrite ?andb_false_r, ?andb_true_r.
  - cbv zeta. destruct (open _ _ =? 0)%Z; reflexivity.
  - destruct (r3 =? WT_TRY_SALVAGE)%Z; reflexivity.
Qed.

End OpenStorageCore.

Lemma openWiredTiger_last_code_decides_witness :
  OpenWiredTiger._openWiredTiger (opener_failing OpenWiredTiger.EINVAL 5) false "create"
  = ([(("create" ++ OpenWiredTiger.require_min "3.1.0")%string, OpenWiredTiger.EINVAL);
      (("create" ++ OpenWiredTiger.require_min "3.0.0")%string, OpenWiredTiger.EINVAL);
      (("create" ++ OpenWiredTiger.require_min "2.9.0")%string, 5%Z)],
     inr (FassertFailed 28595)).
Proof.
  assert (Hne : OpenWiredTiger.EINVAL <> 0%Z) by (intro Hx; discriminate Hx).
  assert (H5 : 5%Z <> 0%Z) by (intro Hx; discriminate Hx).
  exact (openWiredTiger_last_code_decides (opener_failing OpenWiredTiger.EINVAL 5) false
           "create" OpenWiredTiger.EINVAL OpenWiredTiger.EINVAL 5
           eq_refl eq_refl eq_refl Hne Hne H5).
Defined.

(** ** Repair of an ident *)

(** Unfolds the combinators of a run. *)
Ltac run_simpl :=
  repeat progress (unfold Repair.andThen, Repair.perform, Repair.done, Repair.halt;
                   cbn [fst snd app]).

(** Membership in a trace is a disjunction of equations between operations;
    this discards those between different operations. *)
Ltac in_trace H :=
  repeat (destruct H as [H|H]; try discriminate H); try contradiction.

Section RepairIdent.
Import Repair.
Variable sys : System.
Variable e : WiredTigerKVEngine.t.
Variable _path : string.

(** How [_rebuildIdent] goes, by what it finds. *)
Lemma rebuildIdent_run (uri : string) :
  _rebuildIdent sys e _path uri =
  if negb (WiredTigerKVEngine._inRepairMode e) then ([], inr Invariant)
  else
    match Idents.identName uri with
    | None => ([], inr Invariant)
    | Some identName =>
        let filePath := path_append _path (identName ++ ".wt") in
        let corruptFile := (filePath ++ ".corrupt")%string in
        let moved := if fs_exists sys filePath
                     then [exists_ filePath; fsyncRename filePath corruptFile]
                     else [exists_ filePath] in
        if fs_exists sys filePath && negb (fsyncRename_isOK sys filePath corruptFile)
        then (moved, inl (StatusOf (fsyncRename filePath corruptFile)))
        else
          match getMetadataRaw_value sys uri with
          | None => (moved ++ [getMetadataRaw uri], inl (StatusOf (getMetadataRaw uri)))
          | Some metadata =>
              if negb (drop_rc sys uri =? 0)%Z
              then (moved ++ [getMetadataRaw uri; drop uri],
                    inl (wtRCToStatus (drop_rc sys uri)))
              else if negb (create_rc sys uri metadata =? 0)%Z
              then (moved ++ [getMetadataRaw uri; drop uri; create uri metadata],
                    inl (wtRCToStatus (create_rc sys uri metadata)))
              else (moved ++ [getMetadataRaw uri; drop uri; create uri metadata],
                    inl (Code DataModifiedByRepair))
          end
    end.
Proof.
  unfold _rebuildIdent, getDataFilePathForIdent.
  destruct (WiredTigerKVEngine._inRepairMode e); cbn [negb]; [|reflexivity].
  destruct (Idents.identName uri) as [identName|]; [|reflexivity].
  cbv zeta. run_simpl.
  destruct (fs_exists sys (path_append _path (identName ++ ".wt"))); cbn [negb andb]; run_simpl.
  - destruct (fsyncRename_isOK sys _ _); cbn [negb]; run_simpl; [|reflexivity].
    destruct (getMetadataRaw_value sys uri) as [md|]; run_simpl; [|reflexivity].
    destruct (drop_rc sys uri =? 0)%Z; cbn [negb]; run_simpl; [|reflexivity].
    destruct (create_rc sys uri md =? 0)%Z; cbn [negb]; run_simpl; reflexivity.
  - destruct (getMetadataRaw_value sys uri) as [md|]; run_simpl; [|reflexivity].
    destruct (drop_rc sys uri =? 0)%Z; cbn [negb]; run_simpl; [|reflexivity].
    destruct (create_rc sys uri md =? 0)%Z; cbn [negb]; run_simpl; reflexivity.
Qed.

Lemma rebuildIdent_not_OK (uri : string) :
  snd (_rebuildIdent sys e _path uri) <> inl (Code OK).
Proof.
  rewrite rebuildIdent_run.
  destruct (negb (WiredTigerKVEngine._inRepairMode e)); [discriminate|].
  destruct (Idents.identName uri) as [identName|]; [|discriminate].
  cbv zeta.
  destruct (fs_exists sys _ && negb (fsyncRename_isOK sys _ _)); [discriminate|].
  destruct (getMetadataRaw_value sys uri) as [md|]; [|discriminate].
  destruct (negb (drop_rc sys uri =? 0)%Z); [discriminate|].
  destruct (negb (create_rc sys uri md =? 0)%Z); discriminate.
Qed.

(** X23. [_salvageIfNeeded] answers OK exactly when [verify] returned 0 or
    EBUSY, and then [verify] is all it did: whenever it went on to salvage
    or to rebuild, it says so or fails.  It answers DataModifiedByRepair
    only after a salvage that [wtRCToStatus] takes for a success, or after
    the table was dropped and created again with both calls returning 0. *)
Theorem salvageIfNeeded_OK_means_untouched :
  forall (uri : string),
    let t := fst (_salvageIfNeeded sys e _path uri) in
    let r := snd (_salvageIfNeeded sys e _path uri) in
    (r = inl (Code OK) <-> (verify_rc sys uri = 0%Z \/ verify_rc sys uri = EBUSY)) /\
    (r = inl (Code OK) -> t = [verify uri]) /\
    (r = inl (Code DataModifiedByRepair) ->
       (In (salvage uri) t /\ wtRCToStatus_isOK sys (salvage_rc sys uri) = true) \/
       (exists metadata, In (create uri metadata) t /\ In (drop uri) t /\
          drop_rc sys uri = 0%Z /\ create_rc sys uri metadata = 0%Z)).
Proof.
  intros uri. cbv zeta. unfold _salvageIfNeeded. run_simpl.
  pose proof (rebuildIdent_not_OK uri) as Hno.
  destruct (Z.eqb_spec (verify_rc sys uri) 0) as [H0|H0].
  { run_simpl. split; [tauto|]. split; [reflexivity|discriminate]. }
  destruct (Z.eqb_spec (verify_rc sys uri) EBUSY) as [Hb|Hb].
  { run_simpl. split; [tauto|]. split; [reflexivity|discriminate]. }
  assert (Hrebuild :
    snd (_rebuildIdent sys e _path uri) = inl (Code DataModifiedByRepair) ->
    exists metadata, In (create uri metadata) (fst (_rebuildIdent sys e _path uri)) /\
      In (drop uri) (fst (_rebuildIdent sys e _path uri)) /\
      drop_rc sys uri = 0%Z /\ create_rc sys uri metadata = 0%Z).
  { rewrite rebuildIdent_run.
    destruct (negb (WiredTigerKVEngine._inRepairMode e)); [discriminate|].
    destruct (Idents.identName uri) as [identName|]; [|discriminate].
    cbv zeta.
    destruct (fs_exists sys _ && negb (fsyncRename_isOK sys _ _)); [discriminate|].
    destruct (getMetadataRaw_value sys uri) as [md|]; [|discriminate].
    destruct (Z.eqb_spec (drop_rc sys uri) 0) as [Hd|]; cbn [negb]; [|discriminate].
    destruct (Z.eqb_spec (create_rc sys uri md) 0) as [Hc|]; cbn [negb]; [|discriminate].
    intros _. exists md. cbn [fst]. rewrite !in_app_iff. cbn [In]. tauto. }
  destruct (verify_rc sys uri =? ENOENT)%Z.
  - run_simpl. split; [split; [intros H; contradiction | tauto]|].
    split; [intros H; contradiction|].
    intros H. right. destruct (Hrebuild H) as [md [H1 [H2 H3]]].
    exists md. cbn [In]. tauto.
  - run_simpl. destruct (wtRCToStatus_isOK sys (salvage_rc sys uri)) eqn:Hs; run_simpl.
    + split; [split; [discriminate | tauto]|]. split; [discriminate|].
      intros _. left. cbn [In]. tauto.
    + split; [split; [intros H; contradiction | tauto]|].
      split; [intros H; contradiction|].
      intros H. right. destruct (Hrebuild H) as [md [H1 [H2 H3]]].
      exists md. cbn [In]. tauto.
Qed.

(** Closes one way through [_rebuildIdent]. *)
Ltac rebuild_case :=
  repeat match goal with |- _ /\ _ => split end;
  [ intros u Hin; in_trace Hin; injection Hin as <-;
    split; try reflexivity; eexists; reflexivity
  | intros u config Hin; in_trace Hin; injection Hin as <- <-;
    repeat split; auto; cbn [In]; tauto
  | intros n Hn; injection Hn as <-; cbv zeta; intros Hin Hx;
    first [ congruence
          | exfalso; in_trace Hin; fail
          | split; try assumption; cbn [In]; tauto ]
  | intros [H|H]; discriminate H ].

(** X24. [_rebuildIdent] drops the table only after it has read the
    table's metadata, and creates it only after the drop returned 0, for
    the same URI and with exactly the metadata read.  Where the data file
    exists, it asks nothing of the storage core before the file has been
    moved to [.corrupt] with success.  Outside repair mode, and for a URI
    that does not start with "table:", it stops on its invariant before
    doing anything. *)
Theorem rebuildIdent_drop_then_create :
  forall (uri : string),
    let t := fst (_rebuildIdent sys e _path uri) in
    let r := snd (_rebuildIdent sys e _path uri) in
    (forall u, In (drop u) t ->
       u = uri /\ exists metadata, getMetadataRaw_value sys uri = Some metadata) /\
    (forall u config, In (create u config) t ->
       u = uri /\ getMetadataRaw_value sys uri = Some config /\
       drop_rc sys uri = 0%Z /\ In (drop uri) t) /\
    (forall identName, Idents.identName uri = Some identName ->
       let filePath := path_append _path (identName ++ ".wt") in
       In (getMetadataRaw uri) t -> fs_exists sys filePath = true ->
       In (fsyncRename filePath (filePath ++ ".corrupt")) t /\
       fsyncRename_isOK sys filePath (filePath ++ ".corrupt") = true) /\
    (WiredTigerKVEngine._inRepairMode e = false \/ Idents.identName uri = None ->
       t = [] /\ r = inr Invariant).
Proof.
  intros uri. cbv zeta. rewrite rebuildIdent_run.
  destruct (WiredTigerKVEngine._inRepairMode e); cbn [negb fst snd In].
  2:{ repeat split; try contradiction; intros; contradiction. }
  destruct (Idents.identName uri) as [identName|] eqn:Hname; cbn [fst snd In].
  2:{ repeat split; try contradiction; try discriminate; intros; contradiction. }
  cbv zeta.
  destruct (fs_exists sys (path_append _path (identName ++ ".wt"))) eqn:Hex; cbn [andb negb].
  - destruct (fsyncRename_isOK sys _ _) eqn:Hmv; cbn [negb].
    + destruct (getMetadataRaw_value sys uri) as [md|] eqn:Hmd.
      * destruct (Z.eqb_spec (drop_rc sys uri) 0) as [Hd|Hd]; cbn [negb];
          [destruct (Z.eqb_spec (create_rc sys uri md) 0) as [Hc|Hc]; cbn [negb]|];
          cbn [fst snd app In]; rebuild_case.
      * cbn [fst snd app In]. rebuild_case.
    + cbn [fst snd app In]. rebuild_case.
  - destruct (getMetadataRaw_value sys uri) as [md|] eqn:Hmd.
    + destruct (Z.eqb_spec (drop_rc sys uri) 0) as [Hd|Hd]; cbn [negb];
        [destruct (Z.eqb_spec (create_rc sys uri md) 0) as [Hc|Hc]; cbn [negb]|];
        cbn [fst snd app In]; rebuild_case.
    + cbn [fst snd app In]. rebuild_case.
Qed.

End RepairIdent.

Section OrphanRecovery.
Import Repair.
Variable sys : System.
Variable e : WiredTigerKVEngine.t.
Variable _path : string.

Lemma ensure_from_on_directories (ident : string) : forall rest idx,
  Forall on_directories (fst (ensure_from sys _path ident idx rest)).
Proof.
  induction rest as [|c rest IH]; intros idx; cbn [ensure_from]; [constructor|].
  destruct (Ascii.eqb c "/").
  - unfold ensure_dir. run_simpl.
    destruct (fs_exists sys _); cbn [negb]; run_simpl.
    + constructor; [exact I | apply IH].
    + destruct (create_directory_throws sys _); run_simpl.
      * repeat constructor.
      * constructor; [exact I|]. constructor; [exact I | apply IH].
  - run_simpl. apply IH.
Qed.

Lemma createGroupedRecordStore_leaves_files (ns ident : string) :
  Forall leaves_files (fst (createGroupedRecordStore sys _path ns ident)).
Proof.
  unfold createGroupedRecordStore, _ensureIdentPath.
  pose proof (ensure_from_on_directories ident ident 0) as Hd.
  destruct (ensure_from sys _path ident 0 ident) as [t [[]|s]]; cbn [fst] in Hd.
  - run_simpl. apply Forall_app. split.
    + eapply Forall_impl; [|exact Hd]. intros [] H; solve [exact I | destruct H].
    + destruct (generateCreateString_value sys ns); run_simpl; repeat constructor.
  - run_simpl. eapply Forall_impl; [|exact Hd]. intros [] H; solve [exact I | destruct H].
Qed.

(** The status of [createGroupedRecordStore] is never one it builds
    itself. *)
Lemma createGroupedRecordStore_status (ns ident : string) (c : ErrorCodes) :
  snd (createGroupedRecordStore sys _path ns ident) <> inl (Code c).
Proof.
  unfold createGroupedRecordStore.
  destruct (_ensureIdentPath sys _path ident) as [t [[]|s]]; run_simpl; [|discriminate].
  destruct (generateCreateString_value sys ns); run_simpl; discriminate.
Qed.

(** How [recoverOrphanedIdent] goes, by what it finds. *)
Lemma recoverOrphanedIdent_run (ns ident : string) :
  let fp := path_append _path (ident ++ ".wt") in
  let tmp := (fp ++ ".tmp")%string in
  let uri := WiredTigerKVEngine._uri ident in
  let store := createGroupedRecordStore sys _path ns ident in
  let moved := [exists_ fp; exists_ fp; fsyncRename fp tmp] ++ fst store in
  recoverOrphanedIdent sys e _path ns ident =
  if negb (WiredTigerKVEngine._inRepairMode e) then ([], inr Invariant)
  else if negb (fs_exists sys fp) then ([exists_ fp], inl UnknownError)
  else if negb (fsyncRename_isOK sys fp tmp)
  then ([exists_ fp; exists_ fp; fsyncRename fp tmp], inl (StatusOf (fsyncRename fp tmp)))
  else
    match snd store with
    | inr s => (moved, inr s)
    | inl status =>
        if negb (status_isOK sys status) then (moved, inl status)
        else if remove_ec sys fp then (moved ++ [remove fp], inl UnknownError)
        else if negb (fsyncParentDirectory_isOK sys fp)
        then (moved ++ [remove fp; fsyncParentDirectory fp],
              inl (StatusOf (fsyncParentDirectory fp)))
        else if negb (fsyncRename_isOK sys tmp fp)
        then (moved ++ [remove fp; fsyncParentDirectory fp; fsyncRename tmp fp],
              inl (StatusOf (fsyncRename tmp fp)))
        else if wtRCToStatus_isOK sys (salvage_rc sys uri)
        then (moved ++ [remove fp; fsyncParentDirectory fp; fsyncRename tmp fp; salvage uri],
              inl (Code DataModifiedByRepair))
        else (moved ++ [remove fp; fsyncParentDirectory fp; fsyncRename tmp fp; salvage uri]
                    ++ fst (_rebuildIdent sys e _path uri),
              snd (_rebuildIdent sys e _path uri))
    end.
Proof.
  cbv zeta. unfold recoverOrphanedIdent, getDataFilePathForIdent.
  destruct (WiredTigerKVEngine._inRepairMode e); cbn [negb]; [|reflexivity].
  run_simpl.
  destruct (fs_exists sys (path_append _path (ident ++ ".wt"))) eqn:Hex;
    cbn [negb]; run_simpl; [|reflexivity].
  rewrite Hex. cbn [negb]. run_simpl.
  destruct (fsyncRename_isOK sys (path_append _path (ident ++ ".wt")) _);
    cbn [negb]; run_simpl; [|reflexivity].
  destruct (createGroupedRecordStore sys _path ns ident) as [ts [status|s]];
    run_simpl; [|reflexivity].
  destruct (status_isOK sys status); cbn [negb]; run_simpl; [|rewrite app_nil_r; reflexivity].
  destruct (remove_ec sys _); run_simpl; [reflexivity|].
  destruct (fsyncParentDirectory_isOK sys _); cbn [negb]; run_simpl; [|reflexivity].
  destruct (fsyncRename_isOK sys _ _); cbn [negb]; run_simpl; [|reflexivity].
  destruct (wtRCToStatus_isOK sys _); run_simpl; reflexivity.
Qed.

(** [_rebuildIdent] removes no file. *)
Lemma rebuildIdent_no_remove (uri p : string) :
  ~ In (remove p) (fst (_rebuildIdent sys e _path uri)).
Proof.
  rewrite rebuildIdent_run.
  destruct (negb (WiredTigerKVEngine._inRepairMode e)); [intros []|].
  destruct (Idents.identName uri) as [identName|]; [|intros []].
  cbv zeta.
  destruct (fs_exists sys _); cbn [andb];
    [destruct (negb (fsyncRename_isOK sys _ _))|];
    try (destruct (getMetadataRaw_value sys uri) as [md|];
         [destruct (negb (drop_rc sys uri =? 0)%Z);
          [|destruct (negb (create_rc sys uri md =? 0)%Z)]|]);
    cbn [fst app In]; intros H; in_trace H.
Qed.



End OrphanRecovery.

(** ** Hot backup to a directory *)

Section CopyFileSize.
Import HotBackup.

Lemma firstn_add {A} (a b : nat) (l : list A) :
  firstn (a + b) l = firstn a l ++ firstn b (skipn a l).
Proof.
  revert l. induction a as [|a IH]; intros l; [reflexivity|].
  destruct l as [|x l]; cbn [Nat.add firstn skipn app].
  - destruct b; reflexivity.
  - f_equal. apply IH.
Qed.

Lemma cnt_of_bounds (fsize : N) : (cnt_of fsize <= fsize /\ cnt_of fsize <= bufsize)%N.
Proof. unfold cnt_of, bufsize. destruct (N.ltb_spec fsize 8192); lia. Qed.

(** The loop, from any point it can have reached. *)
Lemma copy_loop_spec (write_fails : N -> bool) (fsize : N) (src dst : list Byte.byte) :
  match copy_loop write_fails fsize src dst with
  | Copied d =>
      d = dst ++ firstn (N.to_nat fsize) src /\ (fsize <= N.of_nat (List.length src))%N
  | ios_failure d =>
      exists k : N, (k < fsize)%N /\ d = dst ++ firstn (N.to_nat k) src /\
        ((N.of_nat (List.length src) < fsize)%N \/
         write_fails (N.of_nat (List.length d)) = true)
  end.
Proof.
  functional induction (copy_loop write_fails fsize src dst).
  - apply N.eqb_eq in e. subst fsize. cbn. rewrite app_nil_r. split; [reflexivity | lia].
  - apply N.eqb_neq in e. apply N.ltb_lt in e0. pose proof (cnt_of_bounds fsize).
    exists 0%N. cbn. rewrite app_nil_r. split; [lia|]. split; [reflexivity|]. left. lia.
  - apply N.eqb_neq in e. exists 0%N. cbn. rewrite app_nil_r.
    split; [lia|]. split; [reflexivity|]. right. exact e1.
  - apply N.eqb_neq in e. apply N.ltb_ge in e0. pose proof (cnt_of_bounds fsize) as [Hc _].
    assert (Hpos : (0 < cnt_of fsize)%N).
    { unfold cnt_of, bufsize. destruct (N.ltb_spec fsize 8192); lia. }
    set (c := cnt_of fsize) in *.
    assert (Hlen : List.length (skipn (N.to_nat c) src) = List.length src - N.to_nat c)
      by apply length_skipn.
    destruct (copy_loop write_fails (fsize - c) (skipn (N.to_nat c) src)
                (dst ++ firstn (N.to_nat c) src)) as [d|d].
    + destruct IHc as [Hd Hle]. split; [|lia].
      rewrite Hd, <- app_assoc. f_equal.
      replace (N.to_nat fsize) with (N.to_nat c + N.to_nat (fsize - c)) by lia.
      apply eq_sym, firstn_add.
    + destruct IHc as [k [Hk [Hd Hw]]]. exists (c + k)%N. split; [lia|]. split.
      * rewrite Hd, <- app_assoc. f_equal.
        replace (N.to_nat (c + k)) with (N.to_nat c + N.to_nat k) by lia.
        apply eq_sym, firstn_add.
      * destruct Hw as [Hw|Hw]; [left; lia | right; exact Hw].
Qed.

Lemma copy_loop_completes (write_fails : N -> bool) (fsize : N) (src dst : list Byte.byte) :
  (fsize <= N.of_nat (List.length src))%N ->
  (forall n, write_fails n = false) ->
  exists d, copy_loop write_fails fsize src dst = Copied d.
Proof.
  intros Hle Hw.
  functional induction (copy_loop write_fails fsize src dst).
  - eexists. reflexivity.
  - apply N.ltb_lt in e0. pose proof (cnt_of_bounds fsize). lia.
  - rewrite Hw in e1. discriminate e1.
  - apply IHc. rewrite length_skipn. pose proof (cnt_of_bounds fsize). lia.
Qed.


End CopyFileSize.

Section BackupFileLists.
Import BackupLists S3Backup.
Variable wtRCToStatus : Z -> Status.
Variable EngineExtension_hotBackup : Status.
Variable fs_exists : string -> bool.
Variable file_size : string -> N.

Lemma mirrored_under (a b x : string) (file : FileTuple) :
  mirrored fs_exists file_size (Repair.path_append a x) (Repair.path_append b x) file ->
  mirrored fs_exists file_size a b file.
Proof.
  destruct file as [[s d] n]. intros [He [Hn [rel [Hs Hd]]]].
  split; [exact He|]. split; [exact Hn|].
  exists (x :: rel). split; assumption.
Qed.

(** A walk that is not cut short adds one mirrored file per name. *)
Lemma walk_spec (srcPath destPath : string) (names : list string) :
  forall filesList filesList',
    walk fs_exists file_size srcPath destPath names filesList = (None, filesList') ->
    exists new, filesList' = filesList ++ new /\
      Forall (mirrored fs_exists file_size srcPath destPath) new /\
      List.length new = List.length names.
Proof.
  induction names as [|filename rest IH]; intros filesList filesList' H; cbn [walk] in H.
  - inversion H. exists []. rewrite app_nil_r. repeat split. constructor.
  - cbv zeta in H.
    destruct (fs_exists (Repair.path_append srcPath filename)) eqn:H1.
    + destruct (IH _ _ H) as [new [-> [Hm Hl]]]. eexists. rewrite <- app_assoc.
      split; [reflexivity|]. split.
      * constructor; [|exact Hm]. split; [exact H1|]. split; [reflexivity|].
        exists [filename]. split; reflexivity.
      * cbn [app List.length]. rewrite Hl. reflexivity.
    + destruct (fs_exists (Repair.path_append (Repair.path_append srcPath journalDir)
                             filename)) eqn:H2; [|discriminate H].
      destruct (IH _ _ H) as [new [-> [Hm Hl]]]. eexists. rewrite <- app_assoc.
      split; [reflexivity|]. split.
      * constructor; [|exact Hm]. split; [exact H2|]. split; [reflexivity|].
        exists [journalDir; filename]. split; reflexivity.
      * cbn [app List.length]. rewrite Hl. reflexivity.
Qed.

(** A walk is only cut short by a file that is nowhere. *)
Lemma walk_invalid (srcPath destPath : string) (names : list string) :
  forall filesList status filesList',
    walk fs_exists file_size srcPath destPath names filesList = (Some status, filesList') ->
    status = InvalidPath.
Proof.
  induction names as [|filename rest IH]; intros filesList status filesList' H;
    cbn [walk] in H; [discriminate H|].
  cbv zeta in H.
  destruct (fs_exists (Repair.path_append srcPath filename)); [exact (IH _ _ _ H)|].
  destruct (fs_exists _); [exact (IH _ _ _ H)|]. inversion H. reflexivity.
Qed.


End BackupFileLists.

(** [operator/] on the paths of a backup: a separator is put between a
    directory and a name, but not after the empty path, nor after a path
    that ends in a separator; an empty name leaves the path as it is. *)
Example path_append_separators :
  Repair.path_append "/data/db" "journal" = "/data/db/journal"%string /\
  Repair.path_append "" "storage.bson" = "storage.bson"%string /\
  Repair.path_append "/backup/" "storage.bson" = "/backup/storage.bson"%string /\
  Repair.path_append "/data/db" "" = "/data/db"%string.
Proof. repeat split. Qed.


(** ** Moving the key database *)

Section KeyDBFiles.
Import KeyDB.
Variable fs_exists : string -> bool.
Variable throws : FsOp -> bool.

(** Induction on entries, through the content of directories. *)
Lemma Entry_nested_ind (P : Entry -> Prop) :
  (forall name, P (File name)) ->
  (forall name content, Forall P content -> P (Dir name content)) ->
  forall p, P p.
Proof.
  intros Hf Hd. fix IH 1. intros [name|name content]; [apply Hf|].
  apply Hd. induction content as [|q qs IHqs]; constructor; [apply IH | exact IHqs].
Qed.

(** The loop inside [visit] is the loop of a call. *)
Lemma visit_Dir (from to name : string) (content : list Entry) (f : Frame) :
  visit fs_exists throws from to (Dir name content) f =
  match visit_all fs_exists throws (Repair.path_append from name)
          (Repair.path_append to name) content (mkFrame true true false (lists f)) with
  | None => None
  | Some g =>
      Some (mkFrame (checkTo f) (empty f && negb (parent_empty_cleared g))
              (parent_empty_cleared f) (leave (Repair.path_append from name) g))
  end.
Proof.
  cbn [visit]. cbv zeta.
  set (from' := Repair.path_append from name). set (to' := Repair.path_append to name).
  generalize (mkFrame true true false (lists f)).
  assert (Hloop : forall ps g,
    (fix loop (ps : list Entry) (g : Frame) {struct ps} : option Frame :=
       match ps with
       | [] => Some g
       | q :: qs =>
           match visit fs_exists throws from' to' q g with
           | Some g' => loop qs g'
           | None => None
           end
       end) ps g = visit_all fs_exists throws from' to' ps g).
  { induction ps as [|q qs IHqs]; intros g; [reflexivity|].
    cbn [visit_all]. destruct (visit fs_exists throws from' to' q g); [apply IHqs|reflexivity]. }
  intros g0. rewrite Hloop. reflexivity.
Qed.

Lemma below_trans (from name d : string) :
  below (Repair.path_append from name) d -> below from d.
Proof.
  intros [name' [rest ->]]. exists name, (name' :: rest). reflexivity.
Qed.

Lemma visit_all_effect (from to : string) (ps : list Entry) :
  Forall (fun p => forall from to f g,
            visit fs_exists throws from to p f = Some g -> visit_effect from p f g) ps ->
  forall f g,
    visit_all fs_exists throws from to ps f = Some g ->
    copiedFiles (lists g)
      = copiedFiles (lists f)
        ++ filter (fun x => negb (regex_search x)) (flat_map (files_of from) ps) /\
    empty g = empty f && negb (existsb (clears_empty from) ps) /\
    parent_empty_cleared g = parent_empty_cleared f || existsb (is_data_file from) ps /\
    exists sub, emptyDirs (lists g) = emptyDirs (lists f) ++ sub /\ Forall (below from) sub.
Proof.
  induction 1 as [|p ps Hp _ IH]; intros f g H; cbn [visit_all] in H.
  - inversion H; subst g. cbn [flat_map filter existsb negb].
    rewrite app_nil_r, andb_true_r, orb_false_r. repeat split.
    exists []. rewrite app_nil_r. split; [reflexivity | constructor].
  - destruct (visit fs_exists throws from to p f) as [f'|] eqn:Hv; [|discriminate H].
    destruct (Hp _ _ _ _ Hv) as [Hc [He [Hpc [sub1 [Hs1 Hb1]]]]].
    destruct (IH _ _ H) as [Hc' [He' [Hpc' [sub2 [Hs2 Hb2]]]]].
    cbn [flat_map existsb]. rewrite filter_app.
    split; [rewrite Hc', Hc, <- app_assoc; reflexivity|].
    split; [rewrite He', He, negb_orb, andb_assoc; reflexivity|].
    split; [rewrite Hpc', Hpc, orb_assoc; reflexivity|].
    exists (sub1 ++ sub2). split; [rewrite Hs2, Hs1, <- app_assoc; reflexivity|].
    apply Forall_app. split; assumption.
Qed.

Lemma visit_effect_holds (p : Entry) :
  forall from to f g,
    visit fs_exists throws from to p f = Some g -> visit_effect from p f g.
Proof.
  induction p as [name|name content IH] using Entry_nested_ind; intros from to f g H.
  - cbn [visit] in H. unfold visit_file in H. cbv zeta in H.
    unfold visit_effect. cbn [files_of filter clears_empty is_data_file].
    destruct (regex_search (Repair.path_append from name)) eqn:Hrex.
    + inversion H; subst g. cbn [copiedFiles lists empty parent_empty_cleared emptyDirs negb].
      rewrite app_nil_r, andb_false_r, orb_true_r. repeat split.
      exists []. rewrite app_nil_r. split; [reflexivity | constructor].
    + destruct (existsb throws _ || throws _); [discriminate H|].
      inversion H; subst g.
      cbn [copiedFiles lists empty parent_empty_cleared emptyDirs negb].
      rewrite andb_true_r, orb_false_r. repeat split.
      exists []. rewrite app_nil_r. split; [reflexivity | constructor].
  - rewrite visit_Dir in H.
    destruct (visit_all fs_exists throws (Repair.path_append from name)
                (Repair.path_append to name) content (mkFrame true true false (lists f)))
      as [g0|] eqn:Hall; [|discriminate H].
    inversion H; subst g. clear H.
    destruct (visit_all_effect _ _ _ IH _ _ Hall) as [Hc [He [Hpc [sub [Hs Hb]]]]].
    cbn [copiedFiles lists empty parent_empty_cleared emptyDirs] in *.
    unfold visit_effect. cbn [files_of clears_empty is_data_file lists empty
                                parent_empty_cleared].
    rewrite orb_false_l in Hpc. rewrite orb_false_r.
    assert (Hsub : Forall (below from) sub).
    { eapply Forall_impl; [|exact Hb]. intros d. apply below_trans. }
    unfold leave. destruct (empty g0);
      cbn [copiedFiles emptyDirs lists]; rewrite Hc, Hpc, Hs.
    + repeat split. exists (sub ++ [Repair.path_append from name]).
      rewrite <- app_assoc. split; [reflexivity|].
      apply Forall_app. split; [exact Hsub|]. constructor; [|constructor].
      exists name, []. reflexivity.
    + repeat split. exists sub. split; [reflexivity | exact Hsub].
Qed.


End KeyDBFiles.


(** ** Clean shutdown *)

(** Unfolds the combinators of a shutdown run. *)
Ltac shut_simpl :=
  repeat progress (unfold Shutdown.andThen, Shutdown.perform, Shutdown.done, Shutdown.halt,
                     Shutdown.invariantWTOK;
                   cbn [fst snd app]).

Section CleanShutdown.
Import Shutdown WiredTigerFileVersion.
Variable g : ServerGlobals.
Variable x : Setting.
Variable c : Core.
Variable e : WiredTigerKVEngine.t.

Lemma enable_logging_ops (ks : list string) :
  Forall (fun o => is_setTableLogging o = true /\ is_worker_op o = false)
    (fst (enable_logging c ks)).
Proof.
  induction ks as [|key rest IH]; cbn [enable_logging]; [constructor|].
  destruct (Idents.is_table_key key); cbn [negb]; [|exact IH].
  shut_simpl. destruct (isOK (setTableLogging_status c key)); shut_simpl.
  - constructor; [split; reflexivity | exact IH].
  - repeat constructor.
Qed.

Lemma enable_logging_done (ks : list string) :
  snd (enable_logging c ks) = inl tt ->
  fst (enable_logging c ks)
  = map (fun k => setTableLogging k true) (filter Idents.is_table_key ks).
Proof.
  induction ks as [|key rest IH]; cbn [enable_logging filter]; [reflexivity|].
  destruct (Idents.is_table_key key); cbn [negb map]; [|exact IH].
  shut_simpl. destruct (isOK (setTableLogging_status c key)); shut_simpl.
  - intros H. rewrite (IH H). reflexivity.
  - discriminate.
Qed.

Lemma filter_logging_all (l : list Op) :
  Forall (fun o => is_setTableLogging o = true /\ is_worker_op o = false) l ->
  filter is_setTableLogging l = l.
Proof.
  induction 1 as [|o l [Ho _] _ IH]; [reflexivity|].
  cbn [filter]. rewrite Ho, IH. reflexivity.
Qed.

(** The workers are stopped in this order, each only when there is one,
    then the size storer is reset and the session cache told. *)
Lemma stop_workers_run :
  let t := (if _sessionSweeper x then [sessionSweeper_shutdown] else [])
           ++ (match WiredTigerKVEngine._journalFlusher e with
               | Some _ => [journalFlusher_shutdown] | None => [] end)
           ++ (match WiredTigerKVEngine._checkpointThread e with
               | Some _ => [checkpointThread_shutdown] | None => [] end)
           ++ [sizeStorer_reset; sessionCache_shuttingDown] in
  stop_workers x e = (t, inl tt) /\
  Forall (fun o => is_worker_op o = true) t /\ In sessionCache_shuttingDown t /\
  (forall o, In o t -> o <> sizeStorer_flush true).
Proof.
  cbv zeta. unfold stop_workers.
  destruct (_sessionSweeper x), (WiredTigerKVEngine._journalFlusher e),
    (WiredTigerKVEngine._checkpointThread e); shut_simpl;
    (split; [reflexivity|]; split; [repeat constructor|]; split;
     [cbn [In]; tauto | intros o Ho; in_trace Ho; subst o; discriminate]).
Qed.

(** The flush that opens [cleanShutdown]: either it throws nothing that is
    thrown on, or the body ends there. *)
Lemma syncSizeInfo_run :
  let S := if negb (WiredTigerKVEngine._readOnly e) then syncSizeInfo c e else done tt in
  let flushes := negb (WiredTigerKVEngine._readOnly e) && WiredTigerKVEngine._sizeStorer e in
  ((flushes = true -> swallowed (WiredTigerKVEngine._durable e) (flush_throws c)) /\
   S = ((if flushes then [sizeStorer_flush true] else []), inl tt)) \/
  (exists code, flushes = true /\ flush_throws c = Some (AssertionException code) /\
     (WiredTigerKVEngine._durable e = true \/ code <> ExceededMemoryLimit) /\
     S = ([sizeStorer_flush true], inr (Thrown (AssertionException code)))).
Proof.
  cbv zeta. unfold syncSizeInfo.
  destruct (WiredTigerKVEngine._readOnly e); cbn [negb andb];
    [left; split; [discriminate | reflexivity]|].
  destruct (WiredTigerKVEngine._sizeStorer e); cbn [negb];
    [|left; split; [discriminate | reflexivity]].
  shut_simpl.
  destruct (flush_throws c) as [[|code]|]; shut_simpl.
  - left. split; [intros _; right; left; reflexivity | reflexivity].
  - destruct (WiredTigerKVEngine._durable e) eqn:Hd; cbn [negb andb]; shut_simpl.
    + right. exists code. repeat split. left. reflexivity.
    + destruct code; shut_simpl;
        try (right; eexists; repeat split; right; discriminate).
      left. split; [intros _; right; right; split; reflexivity | reflexivity].
  - left. split; [intros _; left; reflexivity | reflexivity].
Qed.

(** How the connection is closed. *)
Lemma close_connection_run :
  let t := fst (close_connection g x c e) in
  let r := snd (close_connection g x c e) in
  let down := downgrades g x e in
  let use_timestamp :=
    (if negb down && enableMajorityReadConcern x then "use_timestamp=true,"
     else "use_timestamp=false,")%string in
  (exists t', t = conn_close (leak_config x ++ use_timestamp) :: t' /\
     (forall cfg, In (conn_close cfg) t' -> cfg = (leak_config x ++ use_timestamp)%string) /\
     (down = false -> t' = [])) /\
  Forall (fun o => is_worker_op o = false) t /\
  (r = inl tt -> down = true ->
     filter is_setTableLogging t
       = map (fun k => setTableLogging k true) (filter Idents.is_table_key (keys c)) /\
     exists s, getDowngradeString g (_fileVersion x) = Some s /\
       exists t1, t = t1 ++ [conn_reconfigure s;
                             conn_close (leak_config x ++ "use_timestamp=false,")]) /\
  (down = true -> getDowngradeString g (_fileVersion x) = None ->
     r <> inl tt /\ (forall s, ~ In (conn_reconfigure s) t) /\
     forall cfg, ~ In (conn_close cfg) (tl t)).
Proof.
  cbv zeta. unfold close_connection. fold (leak_config x).
  destruct (downgrades g x e) eqn:Hdown; cbn [negb andb].
  - (* the data files are downgraded *)
    cbv zeta. shut_simpl.
    pose proof (enable_logging_ops (keys c)) as Hops.
    pose proof (enable_logging_done (keys c)) as Hdone.
    assert (Hnoclose : forall cfg l, In (conn_close cfg) (fst (enable_logging c (keys c)) ++ l) ->
                                     In (conn_close cfg) l).
    { intros cfg l H. apply in_app_iff in H. destruct H as [H|H]; [|exact H].
      rewrite Forall_forall in Hops. destruct (Hops _ H) as [Habs _]. discriminate Habs. }
    assert (Hnorec : forall s l, In (conn_reconfigure s) (fst (enable_logging c (keys c)) ++ l) ->
                                 In (conn_reconfigure s) l).
    { intros s l H. apply in_app_iff in H. destruct H as [H|H]; [|exact H].
      rewrite Forall_forall in Hops. destruct (Hops _ H) as [Habs _]. discriminate Habs. }
    assert (Hnw : forall l, Forall (fun o => is_worker_op o = false) l ->
                  Forall (fun o => is_worker_op o = false)
                    (fst (enable_logging c (keys c)) ++ l)).
    { intros l Hl. apply Forall_app. split; [|exact Hl].
      eapply Forall_impl; [|exact Hops]. intros o [_ Ho]. exact Ho. }
    destruct (close_rc c =? 0)%Z; shut_simpl.
    2:{ split; [eexists; split; [reflexivity|]; split; [intros cfg []|discriminate]|].
        split; [repeat constructor|]. split; [discriminate|].
        intros _ _. split; [discriminate|]. split; intros s H; in_trace H. }
    destruct (reopen_rc c =? 0)%Z; shut_simpl.
    2:{ split; [eexists; split; [reflexivity|]; split;
                [intros cfg H; in_trace H|discriminate]|].
        split; [repeat constructor|]. split; [discriminate|].
        intros _ _. split; [discriminate|]. split; intros s H; in_trace H. }
    destruct (open_cursor_rc c =? 0)%Z; shut_simpl.
    2:{ split; [eexists; split; [reflexivity|]; split;
                [intros cfg H; in_trace H|discriminate]|].
        split; [repeat constructor|]. split; [discriminate|].
        intros _ _. split; [discriminate|]. split; intros s H; in_trace H. }
    destruct (enable_logging c (keys c)) as [tl [[]|f]] eqn:Hlog; cbn [fst snd] in *;
      shut_simpl.
    2:{ split; [eexists; split; [reflexivity|]; split; [|discriminate]|].
        { intros cfg H. in_trace H. rewrite <- (app_nil_r tl) in H.
          destruct (Hnoclose _ _ H). }
        split; [repeat constructor; rewrite <- (app_nil_r tl); apply Hnw; constructor|].
        split; [discriminate|].
        intros _ _. split; [discriminate|].
        split; intros s H; in_trace H; rewrite <- (app_nil_r tl) in H.
        - destruct (Hnorec _ _ H).
        - destruct (Hnoclose _ _ H). }
    destruct (getDowngradeString g (_fileVersion x)) as [s|] eqn:Hs; shut_simpl.
    2:{ split; [eexists; split; [reflexivity|]; split; [|discriminate]|].
        { intros cfg H. in_trace H. apply Hnoclose in H. in_trace H. }
        split; [repeat constructor; apply Hnw; repeat constructor|].
        split; [discriminate|].
        intros _ _. split; [discriminate|].
        split; intros s H; in_trace H.
        - apply Hnorec in H. in_trace H.
        - apply Hnoclose in H. in_trace H. }
    assert (Hfilter : forall l,
      filter is_setTableLogging
        (conn_close (leak_config x ++ "use_timestamp=false,")
         :: wiredtiger_open (_wtOpenConfig x) :: open_session
         :: open_cursor "metadata:create" :: tl ++ cursor_close :: session_close :: l)
      = tl ++ filter is_setTableLogging l).
    { intros l. cbn [filter is_setTableLogging]. rewrite filter_app.
      rewrite (filter_logging_all tl Hops). reflexivity. }
    destruct (reconfigure_rc c =? 0)%Z; shut_simpl.
    2:{ split; [eexists; split; [reflexivity|]; split; [|discriminate]|].
        { intros cfg H. in_trace H. apply Hnoclose in H. in_trace H. }
        split; [repeat constructor; apply Hnw; repeat constructor|].
        split; [discriminate|]. intros _ Habs. discriminate Habs. }
    assert (Hend : forall (r0 : unit + Fault),
      (exists t',
         conn_close (leak_config x ++ "use_timestamp=false,")
         :: wiredtiger_open (_wtOpenConfig x) :: open_session
         :: open_cursor "metadata:create"
         :: tl ++ [cursor_close; session_close; conn_reconfigure s;
                   conn_close (leak_config x ++ "use_timestamp=false,")]
         = conn_close (leak_config x ++ "use_timestamp=false,") :: t' /\
         (forall cfg, In (conn_close cfg) t' ->
                      cfg = (leak_config x ++ "use_timestamp=false,")%string) /\
         (true = false -> t' = [])) /\
      Forall (fun o => is_worker_op o = false)
        (conn_close (leak_config x ++ "use_timestamp=false,")
         :: wiredtiger_open (_wtOpenConfig x) :: open_session
         :: open_cursor "metadata:create"
         :: tl ++ [cursor_close; session_close; conn_reconfigure s;
                   conn_close (leak_config x ++ "use_timestamp=false,")])).
    { intros _. split.
      - eexists. split; [reflexivity|]. split; [|discriminate].
        intros cfg H. in_trace H. apply Hnoclose in H. in_trace H.
        injection H as <-. reflexivity.
      - repeat constructor. apply Hnw. repeat constructor. }
    destruct (close_again_rc c =? 0)%Z; shut_simpl.
    + destruct (Hend (inl tt)) as [H1 H2]. split; [exact H1|]. split; [exact H2|].
      split; [|intros _ Habs; discriminate Habs].
      intros _ _. split.
      * rewrite Hfilter. cbn [filter is_setTableLogging]. rewrite app_nil_r.
        apply Hdone. reflexivity.
      * exists s. split; [reflexivity|].
        exists (conn_close (leak_config x ++ "use_timestamp=false,")
                :: wiredtiger_open (_wtOpenConfig x) :: open_session
                :: open_cursor "metadata:create" :: tl ++ [cursor_close; session_close]).
        cbn [app]. rewrite <- app_assoc. reflexivity.
    + destruct (Hend (inr InvariantFailure)) as [H1 H2]. split; [exact H1|].
      split; [exact H2|]. split; [discriminate|]. intros _ Habs. discriminate Habs.
  - (* no downgrade: one close *)
    cbv zeta. shut_simpl.
    assert (Hone : forall r0 : unit + Fault,
      (exists t',
         [conn_close (leak_config x ++ (if enableMajorityReadConcern x
                                        then "use_timestamp=true,"
                                        else "use_timestamp=false,"))]
         = conn_close (leak_config x ++ (if enableMajorityReadConcern x
                                         then "use_timestamp=true,"
                                         else "use_timestamp=false,")) :: t' /\
         (forall cfg, In (conn_close cfg) t' ->
            cfg = (leak_config x ++ (if enableMajorityReadConcern x
                                     then "use_timestamp=true,"
                                     else "use_timestamp=false,"))%string) /\
         (false = false -> t' = [])) /\
      Forall (fun o => is_worker_op o = false)
        [conn_close (leak_config x ++ (if enableMajorityReadConcern x
                                       then "use_timestamp=true,"
                                       else "use_timestamp=false,"))]).
    { intros _. split.
      - exists []. split; [reflexivity|]. split; [intros cfg []|reflexivity].
      - repeat constructor. }
    destruct (close_rc c =? 0)%Z; shut_simpl.
    + destruct (Hone (inl tt)) as [H1 H2]. split; [exact H1|]. split; [exact H2|].
      split; [intros _ Habs; discriminate Habs | intros Habs; discriminate Habs].
    + destruct (Hone (inl tt)) as [H1 H2]. split; [exact H1|]. split; [exact H2|].
      split; [discriminate|]. intros Habs. discriminate Habs.
Qed.

End CleanShutdown.

Section CleanShutdownWhole.
Import Shutdown WiredTigerFileVersion.

Lemma split_after_prefix (pre post t1 t2 : list Op) (o : Op) :
  pre ++ post = t1 ++ o :: t2 -> ~ In o pre ->
  exists l, t1 = pre ++ l /\ post = l ++ o :: t2.
Proof.
  revert t1. induction pre as [|a pre IH]; intros t1 H Hn.
  - exists t1. split; [reflexivity | exact H].
  - destruct t1 as [|b t1]; cbn [app] in H.
    + injection H as Ha _. destruct Hn. left. exact Ha.
    + injection H as <- H. destruct (IH t1 H) as [l [-> Hp]].
      * intros Hin. apply Hn. right. exact Hin.
      * exists l. split; [reflexivity | exact Hp].
Qed.

Lemma filter_logging_workers (l : list Op) :
  Forall (fun o => is_worker_op o = true) l -> filter is_setTableLogging l = [].
Proof.
  induction 1 as [|o l Ho _ IH]; [reflexivity|].
  cbn [filter]. rewrite IH. destruct o; try discriminate Ho; reflexivity.
Qed.

(** An exception that [syncSizeInfo] throws on is not one it ignores. *)
Lemma swallowed_not_rethrown (durable : bool) (thrown : option Exn) (code : ErrorCodes) :
  swallowed durable thrown -> thrown = Some (AssertionException code) ->
  durable = true \/ code <> ExceededMemoryLimit -> False.
Proof.
  intros [H|[H|[Hd H]]] Ht Hre; rewrite H in Ht; try discriminate Ht.
  injection Ht as <-. destruct Hre as [Hre|Hre]; [congruence | apply Hre; reflexivity].
Qed.

(** X29. [cleanShutdown] starts, on an engine that is not read-only and has
    a size storer, with a flush of the size storer.  When the flush throws
    an [AssertionException] that [syncSizeInfo] throws on, the function
    ends with it, having only reset the key database.  Otherwise, without a
    connection it returns after resetting the key database; with one, it
    shuts down the session sweeper, the journal flusher and the checkpoint
    worker, in this order and each when there is one, resets the size
    storer, tells the session cache of the shutdown and only then closes
    the connection, and no worker or cache is touched after the close.
    Before every close the session cache has been told of the shutdown.
    Every close passes [use_timestamp=false] unless the data files are not
    downgraded and majority read concern is on.  A read-only engine neither
    flushes the size storer nor opens the storage core again.  A downgrade
    that returns has switched logging on for exactly the keys of tables
    that the metadata cursor yielded, in that order, and has reconfigured
    the connection with the downgrade string; where there is no downgrade
    string for the startup version the function does not return and the
    connection is never reconfigured. *)
Theorem cleanShutdown_closes_after_workers :
  forall (g : ServerGlobals) (x : Setting) (c : Core) (e : WiredTigerKVEngine.t),
    let t := fst (cleanShutdown g x c e) in
    let r := snd (cleanShutdown g x c e) in
    let down := downgrades g x e in
    let use_timestamp :=
      (if negb down && enableMajorityReadConcern x
       then "use_timestamp=true," else "use_timestamp=false,")%string in
    let flushes :=
      negb (WiredTigerKVEngine._readOnly e) && WiredTigerKVEngine._sizeStorer e in
    let flush := if flushes then [sizeStorer_flush true] else [] in
    let stops :=
      (if _sessionSweeper x then [sessionSweeper_shutdown] else [])
      ++ (match WiredTigerKVEngine._journalFlusher e with
          | Some _ => [journalFlusher_shutdown] | None => [] end)
      ++ (match WiredTigerKVEngine._checkpointThread e with
          | Some _ => [checkpointThread_shutdown] | None => [] end)
      ++ [sizeStorer_reset; sessionCache_shuttingDown] in
    (forall cfg, In (conn_close cfg) t ->
       _conn x = true /\ cfg = (leak_config x ++ use_timestamp)%string) /\
    (forall t1 cfg t2, t = t1 ++ conn_close cfg :: t2 ->
       In sessionCache_shuttingDown t1 /\ Forall (fun o => is_worker_op o = false) t2) /\
    (WiredTigerKVEngine._readOnly e = true ->
       ~ In (sizeStorer_flush true) t /\ forall cfg, ~ In (wiredtiger_open cfg) t) /\
    (_conn x = true -> down = true -> r = inl tt ->
       filter is_setTableLogging t
         = map (fun k => setTableLogging k true) (filter Idents.is_table_key (keys c)) /\
       exists s, getDowngradeString g (_fileVersion x) = Some s /\
                 In (conn_reconfigure s) t) /\
    (_conn x = true -> down = true -> getDowngradeString g (_fileVersion x) = None ->
       r <> inl tt /\ forall s, ~ In (conn_reconfigure s) t) /\
    ((flushes = true ->
        swallowed (WiredTigerKVEngine._durable e) (flush_throws c)) ->
     (_conn x = true ->
        exists t2,
          t = flush ++ stops ++ conn_close (leak_config x ++ use_timestamp) :: t2 /\
          Forall (fun o => is_worker_op o = false) t2) /\
     (_conn x = false -> t = flush ++ [encryptionKeyDB_reset] /\ r = inl tt)) /\
    (forall code,
       flushes = true ->
       flush_throws c = Some (AssertionException code) ->
       WiredTigerKVEngine._durable e = true \/ code <> ExceededMemoryLimit ->
       t = [sizeStorer_flush true; encryptionKeyDB_reset] /\
       r = inr (Thrown (AssertionException code))).
Proof.
  intros g x c e. cbv zeta.
  destruct (stop_workers_run x e) as [HW [HWf [HWin HWnf]]].
  set (W := (if _sessionSweeper x then [sessionSweeper_shutdown] else [])
            ++ (match WiredTigerKVEngine._journalFlusher e with
                | Some _ => [journalFlusher_shutdown] | None => [] end)
            ++ (match WiredTigerKVEngine._checkpointThread e with
                | Some _ => [checkpointThread_shutdown] | None => [] end)
            ++ [sizeStorer_reset; sessionCache_shuttingDown]) in *.
  pose proof (close_connection_run g x c e) as HC. cbv zeta in HC.
  destruct HC as [[t' [Ht [Hcfg Hnd]]] [HnwC [Hdone Hnone]]].
  unfold cleanShutdown, cleanShutdown_body.
  destruct (syncSizeInfo_run c e) as [[Hquiet HS]|[code0 [Hfl [Hthrown [Hre HS]]]]];
    cbv zeta in HS; rewrite HS; clear HS.
  2:{ (* the flush throws: the body ends there *)
      shut_simpl.
      assert (Hno : forall o, o <> sizeStorer_flush true -> o <> encryptionKeyDB_reset ->
                              ~ In o [sizeStorer_flush true; encryptionKeyDB_reset]).
      { intros o H1 H2 Hin. in_trace Hin; [apply H1 | apply H2]; symmetry; exact Hin. }
      split; [intros cfg H; destruct (Hno (conn_close cfg) ltac:(discriminate)
                                        ltac:(discriminate) H)|].
      split.
      { intros t1 cfg t2 H. exfalso.
        apply (Hno (conn_close cfg) ltac:(discriminate) ltac:(discriminate)).
        rewrite H. apply in_app_iff. right. left. reflexivity. }
      split.
      { intros Hro. rewrite Hro in Hfl. discriminate Hfl. }
      split; [intros _ _ Habs; discriminate Habs|].
      split.
      { intros _ _ _. split; [discriminate|]. intros sd H.
        exact (Hno (conn_reconfigure sd) ltac:(discriminate) ltac:(discriminate) H). }
      split.
      { intros Hsw. destruct (swallowed_not_rethrown _ _ _ (Hsw Hfl) Hthrown Hre). }
      intros code _ Hc _. rewrite Hthrown in Hc. injection Hc as <-.
      split; reflexivity. }
  set (flushes := negb (WiredTigerKVEngine._readOnly e) && WiredTigerKVEngine._sizeStorer e)
    in *.
  set (s := if flushes then [sizeStorer_flush true] else []).
  assert (Hsw : Forall (fun o => is_worker_op o = true) s)
    by (subst s; destruct flushes; repeat constructor).
  assert (Hsro : WiredTigerKVEngine._readOnly e = true -> s = []).
  { intros Hro. subst s flushes. rewrite Hro. reflexivity. }
  assert (Hcode : forall code, flushes = true ->
            flush_throws c = Some (AssertionException code) ->
            WiredTigerKVEngine._durable e = true \/ code <> ExceededMemoryLimit -> False).
  { intros code Hf Hc Hre. exact (swallowed_not_rethrown _ _ _ (Hquiet Hf) Hc Hre). }
  shut_simpl.
  assert (Hworkers : forall l o, Forall (fun o => is_worker_op o = true) l ->
                                 In o l -> is_worker_op o = true).
  { intros l o Hl Hin. rewrite Forall_forall in Hl. exact (Hl o Hin). }
  assert (Hnonworkers : forall l o, Forall (fun o => is_worker_op o = false) l ->
                                    In o l -> is_worker_op o = false).
  { intros l o Hl Hin. rewrite Forall_forall in Hl. exact (Hl o Hin). }
  destruct (_conn x) eqn:Hconn; cbn [negb]; shut_simpl.
  2:{ (* no connection: nothing but the flush *)
      rewrite app_nil_r.
      assert (Hno : forall o, is_worker_op o = false -> o <> encryptionKeyDB_reset ->
                              ~ In o (s ++ [encryptionKeyDB_reset])).
      { intros o Ho Hne Hin. apply in_app_iff in Hin. destruct Hin as [Hin|Hin].
        - rewrite (Hworkers _ _ Hsw Hin) in Ho. discriminate Ho.
        - in_trace Hin. apply Hne. symmetry. exact Hin. }
      split; [intros cfg H; destruct (Hno (conn_close cfg) eq_refl ltac:(discriminate) H)|].
      split.
      { intros t1 cfg t2 H. exfalso. apply (Hno (conn_close cfg) eq_refl ltac:(discriminate)).
        rewrite H. apply in_app_iff. right. left. reflexivity. }
      split.
      { intros Hro. rewrite (Hsro Hro). split; [intros H; in_trace H|].
        intros cfg H. in_trace H. }
      split; [intros Habs; discriminate Habs|].
      split; [intros Habs; discriminate Habs|].
      split.
      { intros _. split; [intros Habs; discriminate Habs|]. intros _. split; reflexivity. }
      intros code Hf Hc Hre. destruct (Hcode code Hf Hc Hre). }
  rewrite HW. shut_simpl.
  destruct (close_connection g x c e) as [tC rC]. cbn [fst snd] in *.
  set (R := match rC with
            | inl _ | inr (Thrown _) => [encryptionKeyDB_reset]
            | inr _ => []
            end).
  match goal with
  | |- context [fst ?m] =>
      assert (Hshape : m = ((s ++ W) ++ tC ++ R, rC))
        by (subst R; destruct rC as [[]|[]]; cbn [fst snd];
            rewrite <- ?app_assoc, ?app_nil_r; reflexivity);
      rewrite Hshape
  end.
  cbn [fst snd]. clear Hshape.
  assert (HR : Forall (fun o => is_worker_op o = false /\ is_setTableLogging o = false /\
                        forall cfg, o <> conn_close cfg /\ o <> wiredtiger_open cfg /\
                                    o <> conn_reconfigure cfg) R).
  { subst R. destruct rC as [[]|[]]; repeat constructor; discriminate. }
  assert (Hpre : Forall (fun o => is_worker_op o = true) (s ++ W)).
  { apply Forall_app. split; assumption. }
  assert (Hin_t : forall o, is_worker_op o = false ->
            In o ((s ++ W) ++ tC ++ R) -> In o tC \/ In o R).
  { intros o Ho Hin. apply in_app_iff in Hin. destruct Hin as [Hin|Hin].
    - rewrite (Hworkers _ _ Hpre Hin) in Ho. discriminate Ho.
    - apply in_app_iff in Hin. exact Hin. }
  assert (HRno : forall o, In o R -> forall cfg,
            o <> conn_close cfg /\ o <> wiredtiger_open cfg /\ o <> conn_reconfigure cfg).
  { intros o Hin. rewrite Forall_forall in HR. destruct (HR o Hin) as [_ [_ H]]. exact H. }
  assert (Hall : Forall (fun o => is_worker_op o = false) (tC ++ R)).
  { apply Forall_app. split; [exact HnwC|].
    eapply Forall_impl; [|exact HR]. intros o [Ho _]. exact Ho. }
  split; [|split; [|split; [|split; [|split; [|split]]]]].
  - intros cfg Hin. split; [reflexivity|].
    destruct (Hin_t (conn_close cfg) eq_refl Hin) as [H|H].
    + rewrite Ht in H. destruct H as [H|H]; [injection H as <-; reflexivity|].
      exact (Hcfg cfg H).
    + destruct (HRno _ H cfg) as [Habs _]. destruct Habs. reflexivity.
  - intros t1 cfg t2 H.
    destruct (split_after_prefix _ _ _ _ _ H) as [l [-> Hpost]].
    { intros Hin. pose proof (Hworkers _ _ Hpre Hin) as Habs. discriminate Habs. }
    split.
    + apply in_app_iff. left. apply in_app_iff. right. exact HWin.
    + rewrite Hpost in Hall. apply Forall_app in Hall. destruct Hall as [_ Hall'].
      inversion Hall'; assumption.
  - intros Hro. rewrite (Hsro Hro). cbn [app].
    assert (Hdownf : downgrades g x e = false).
    { unfold downgrades, shouldDowngrade. rewrite Hro. reflexivity. }
    rewrite (Hnd Hdownf) in Ht. split.
    + intros Hin. apply in_app_iff in Hin. destruct Hin as [Hin|Hin].
      * exact (HWnf _ Hin eq_refl).
      * apply in_app_iff in Hin. destruct Hin as [Hin|Hin].
        -- rewrite Ht in Hin. in_trace Hin.
        -- pose proof (Hnonworkers R _ ltac:(eapply Forall_impl; [|exact HR];
                                              intros o [Ho _]; exact Ho) Hin) as Habs.
           discriminate Habs.
    + intros cfg Hin.
      destruct (Hin_t (wiredtiger_open cfg) eq_refl ltac:(rewrite (Hsro Hro); exact Hin))
        as [H|H].
      * rewrite Ht in H. in_trace H.
      * destruct (HRno _ H cfg) as [_ [Habs _]]. destruct Habs. reflexivity.
  - intros _ Hdown Hr. destruct (Hdone Hr Hdown) as [Hf [sd [Hsd [t1 Ht1]]]]. split.
    + rewrite !filter_app, (filter_logging_workers _ Hsw), (filter_logging_workers _ HWf), Hf.
      cbn [app].
      assert (HRf : filter is_setTableLogging R = []).
      { clear -HR. induction HR as [|o l [_ [Ho _]] _ IH]; [reflexivity|].
        cbn [filter]. rewrite Ho. exact IH. }
      rewrite HRf, app_nil_r. reflexivity.
    + exists sd. split; [exact Hsd|]. apply in_app_iff. right. apply in_app_iff. left.
      rewrite Ht1. apply in_app_iff. right. left. reflexivity.
  - intros _ Hdown Hnone'. destruct (Hnone Hdown Hnone') as [Hr [Hno _]].
    split; [exact Hr|]. intros sd Hin.
    destruct (Hin_t (conn_reconfigure sd) eq_refl Hin) as [H|H]; [exact (Hno sd H)|].
    destruct (HRno _ H sd) as [_ [_ Habs]]. destruct Habs. reflexivity.
  - intros _. split; [|intros Habs; discriminate Habs]. intros _.
    exists (t' ++ R). split.
    + rewrite Ht, <- app_assoc. reflexivity.
    + rewrite Ht in Hall. cbn [app] in Hall. inversion Hall; assumption.
  - intros code Hf Hc Hre. destruct (Hcode code Hf Hc Hre).
Qed.

End CleanShutdownWhole.

(** [cleanShutdown_closes_after_workers] on the engine of the examples,
    which has a size storer, a journal flusher and a checkpoint worker, with
    a session sweeper and a quiet flush: the flush, the three shutdowns, the
    reset and the word to the session cache come before the close. *)
Lemma cleanShutdown_closes_after_workers_witness :
  exists t2,
    fst (Shutdown.cleanShutdown arbiter_globals setting_40 core_ok engine0)
    = [Shutdown.sizeStorer_flush true]
      ++ ([Shutdown.sessionSweeper_shutdown] ++ [Shutdown.journalFlusher_shutdown]
          ++ [Shutdown.checkpointThread_shutdown]
          ++ [Shutdown.sizeStorer_reset; Shutdown.sessionCache_shuttingDown])
      ++ Shutdown.conn_close "leak_memory=true,use_timestamp=false," :: t2 /\
    Forall (fun o => Shutdown.is_worker_op o = false) t2.
Proof.
  exact (proj1 (proj1 (proj2 (proj2 (proj2 (proj2 (proj2
           (cleanShutdown_closes_after_workers arbiter_globals setting_40 core_ok
              engine0))))))
           (fun _ => or_introl eq_refl)) eq_refl).
Defined.

(** On an engine that is not read-only, a flush that throws InternalError
    ends [cleanShutdown] at once: nothing is stopped or closed, only the
    key database is reset while the exception leaves the function. *)
Example cleanShutdown_flush_throws :
  Shutdown.cleanShutdown arbiter_globals setting_40
    {| Shutdown.flush_throws := Some (AssertionException InternalError);
       Shutdown.close_rc := 0; Shutdown.reopen_rc := 0; Shutdown.open_cursor_rc := 0;
       Shutdown.keys := []; Shutdown.setTableLogging_status := fun _ => OK;
       Shutdown.reconfigure_rc := 0; Shutdown.close_again_rc := 0 |}
    engine0
  = ([Shutdown.sizeStorer_flush true; Shutdown.encryptionKeyDB_reset],
     inr (Thrown (AssertionException InternalError))).
Proof. vm_compute. reflexivity. Qed.

(** The shutdown of an arbiter that never learnt its feature compatibility
    version, on 4.0 data files: the files are to be downgraded, the
    connection is closed and opened again, logging is switched on, and the
    [invariant] of [getDowngradeString] stops the process before the
    connection is reconfigured or closed. *)
Example cleanShutdown_arbiter_without_fcv :
  Shutdown.cleanShutdown arbiter_globals setting_40 core_ok engine0
  = ([Shutdown.sizeStorer_flush true; Shutdown.sessionSweeper_shutdown;
      Shutdown.journalFlusher_shutdown; Shutdown.checkpointThread_shutdown;
      Shutdown.sizeStorer_reset; Shutdown.sessionCache_shuttingDown;
      Shutdown.conn_close "leak_memory=true,use_timestamp=false,";
      Shutdown.wiredtiger_open "create,"; Shutdown.open_session;
      Shutdown.open_cursor "metadata:create";
      Shutdown.setTableLogging "table:a" true;
      Shutdown.setTableLogging "table:sizeStorer" true;
      Shutdown.cursor_close; Shutdown.session_close],
     inr InvariantFailure).
Proof. vm_compute. reflexivity. Qed.

(** ** Starting and halting the oplog manager *)

Section OplogManagerUsers.
Import OplogManagerCount.
Variable e : WiredTigerKVEngine.t.

Lemma replay_app (calls calls' : list ManagerCall) : forall running mid,
  replay running calls = Some mid ->
  replay running (calls ++ calls') = replay mid calls'.
Proof.
  induction calls as [|c calls IH]; intros running mid H; cbn [replay app] in *.
  - inversion H. reflexivity.
  - destruct c, running; try discriminate H; exact (IH _ _ H).
Qed.

Lemma serve_invariant (requests : list Request) : forall count n calls,
  serve e requests count = Some (n, calls) ->
  replay (0 <? count)%N calls = Some (0 <? n)%N /\
  (n + count_of Halt requests = count + count_of Start requests)%N /\
  Forall (fun c => c = oplogManager_halt \/
                   c = oplogManager_start (negb (WiredTigerKVEngine._keepDataHistory e)))
    calls.
Proof.
  induction requests as [|[|] rest IH]; intros count n calls H; cbn [serve] in H.
  - inversion H; subst. cbn. split; [reflexivity|]. split; [reflexivity | constructor].
  - unfold startOplogManager in H. cbv zeta in H.
    destruct (serve e rest (count + 1)) as [[n' calls']|] eqn:Hs; [|discriminate H].
    inversion H; subst n calls. clear H.
    destruct (IH _ _ _ Hs) as [Hr [Hc Hf]].
    assert (Hpos : (0 <? count + 1)%N = true) by (apply N.ltb_lt; lia).
    rewrite Hpos in Hr.
    split; [|split].
    + destruct (N.eqb_spec count 0) as [->|Hne]; cbn [app replay].
      * exact Hr.
      * assert (Hc0 : (0 <? count)%N = true) by (apply N.ltb_lt; lia).
        rewrite Hc0. exact Hr.
    + unfold count_of in *. cbn [filter List.length] in *. lia.
    + apply Forall_app. split; [|exact Hf].
      destruct (count =? 0)%N;
        [constructor; [right; reflexivity | constructor] | constructor].
  - unfold haltOplogManager in H.
    destruct (N.ltb_spec 0 count) as [Hpos|Hz]; cbn [negb] in H; [|discriminate H].
    cbv zeta in H.
    destruct (serve e rest (count - 1)) as [[n' calls']|] eqn:Hs; [|discriminate H].
    inversion H; subst n calls. clear H.
    destruct (IH _ _ _ Hs) as [Hr [Hc Hf]].
    split; [|split].
    + destruct (N.eqb_spec (count - 1) 0) as [Heq|Hne]; cbn [app replay].
      * rewrite Heq in Hr. exact Hr.
      * assert (Hc1 : (0 <? count - 1)%N = true) by (apply N.ltb_lt; lia).
        rewrite Hc1 in Hr. exact Hr.
    + unfold count_of in *. cbn [filter List.length] in *. lia.
    + apply Forall_app. split; [|exact Hf].
      destruct (count - 1 =? 0)%N;
        [constructor; [left; reflexivity | constructor] | constructor].
Qed.

(** X30. However the users of the oplog start and halt the manager, as
    long as no [invariant] fails the manager is started only when it does
    not run and halted only when it runs, it runs in the end exactly when
    the counter is above 0, the counter is the number of starts not yet
    matched by a halt, and every start passes [!_keepDataHistory]. *)
Theorem oplogManager_runs_while_counted :
  forall (requests : list Request) (n : N) (calls : list ManagerCall),
    serve e requests 0 = Some (n, calls) ->
    replay false calls = Some (0 <? n)%N /\
    (n + count_of Halt requests = count_of Start requests)%N /\
    Forall (fun c => c = oplogManager_halt \/
                     c = oplogManager_start (negb (WiredTigerKVEngine._keepDataHistory e)))
      calls.
Proof.
  intros requests n calls H. destruct (serve_invariant _ _ _ _ H) as [Hr [Hc Hf]].
  split; [exact Hr|]. split; [|exact Hf]. rewrite Hc. reflexivity.
Qed.

End OplogManagerUsers.

Lemma oplogManager_runs_while_counted_witness :
  OplogManagerCount.replay false
    [OplogManagerCount.oplogManager_start false; OplogManagerCount.oplogManager_halt;
     OplogManagerCount.oplogManager_start false]
  = Some (0 <? 1)%N /\
  (1 + OplogManagerCount.count_of OplogManagerCount.Halt
         [OplogManagerCount.Start; OplogManagerCount.Start; OplogManagerCount.Halt;
          OplogManagerCount.Halt; OplogManagerCount.Start]
   = OplogManagerCount.count_of OplogManagerCount.Start
       [OplogManagerCount.Start; OplogManagerCount.Start; OplogManagerCount.Halt;
        OplogManagerCount.Halt; OplogManagerCount.Start])%N /\
  Forall (fun c => c = OplogManagerCount.oplogManager_halt \/
                   c = OplogManagerCount.oplogManager_start
                         (negb (WiredTigerKVEngine._keepDataHistory engine0)))
    [OplogManagerCount.oplogManager_start false; OplogManagerCount.oplogManager_halt;
     OplogManagerCount.oplogManager_start false].
Proof.
  apply (oplogManager_runs_while_counted engine0
           [OplogManagerCount.Start; OplogManagerCount.Start; OplogManagerCount.Halt;
            OplogManagerCount.Halt; OplogManagerCount.Start]).
  vm_compute. reflexivity.
Defined.
